(** * Polymarket arbitrage / copy-trading bot: a shallow embedding

    The development embeds the decision-and-execution core of the bot:

    - [RiskManager]       (risk-manager.ts)       the exposure ledger;
    - [ArbitrageDetector] (arbitrage-detector.ts) the opportunity scanner
                                                  and its cache;
    - [OrderExecutor]     (order-executor.ts)     the order gateway;
    - [WalletMonitor]     (wallet-monitor.ts)     the wallet watcher;
    - [CopyTrader]        (copy-trader.ts)        the replication engine.

    Conventions of the embedding.

    - A JavaScript [number] is an exact rational ([Q]): the numbers the
      bot receives are finite, and rounding and signed zeros are outside
      the model.  Equality of numbers is [==] ([Qeq]).  The one operation
      that leaves the finite numbers, division, returns a [JS.quotient],
      which is a number, an infinity or NaN.
    - Where rounding decides a property, the running total of the
      exposure ledger, the ledger is embedded a second time with its
      numbers as IEEE 754 doubles ([RiskManagerDouble]).
    - A [Date] is its [getTime()] value, an integer number of
      milliseconds ([Z]); [new Date()] is an explicit [now] argument.
    - A JavaScript [Map] is a [gmap], a [Set] a [gset].
    - An optional value ([x?: T], [T | null], [T | undefined]) is an
      [option].
    - The venue client is external: its answers are inputs of the model
      and its calls are recorded in a trace.
    - [console] output is dropped, except where a property is about
      which branch was taken: there the log line is part of the result. *)

From Stdlib Require Import QArith Qminmax Qabs Lqa ZArith Lia.
From Stdlib Require PrimFloat FloatAxioms.
From stdpp Require Import gmap strings list fin_maps.

Local Open Scope Q_scope.

(** ** JavaScript primitives used by the bot *)

Module JS.

(** [a < b] and [a <= b] on numbers. *)
Definition ltb (a b : Q) : bool := negb (Qle_bool b a).
Definition leb (a b : Q) : bool := Qle_bool a b.

(** Truthiness of a number: every number but zero. *)
Definition truthy (q : Q) : bool := negb (Qeq_bool q 0).

(** [x || d] for an optional number [x]. *)
Definition orElse (x : option Q) (d : Q) : Q :=
  match x with
  | Some q => if truthy q then q else d
  | None => d
  end.

(** [Math.min(a, b)]. *)
Definition min (a b : Q) : Q := if Qle_bool a b then a else b.

(** The result of a division: a finite number, or what IEEE-754 gives at
    a zero divisor. *)
Inductive quotient :=
| Finite (q : Q)
| PlusInfinity
| MinusInfinity
| NotANumber.

(** [a / b]. *)
Definition div (a b : Q) : quotient :=
  if Qeq_bool b 0 then
    if ltb 0 a then PlusInfinity
    else if ltb a 0 then MinusInfinity
    else NotANumber
  else Finite (a / b).

(** [x * k], [x < b] and [x > b] for a quotient [x] and numbers [k], [b];
    every comparison with NaN is false. *)
Definition scale (x : quotient) (k : Q) : quotient :=
  match x with
  | Finite q => Finite (q * k)
  | PlusInfinity =>
      if ltb 0 k then PlusInfinity
      else if ltb k 0 then MinusInfinity else NotANumber
  | MinusInfinity =>
      if ltb 0 k then MinusInfinity
      else if ltb k 0 then PlusInfinity else NotANumber
  | NotANumber => NotANumber
  end.

Definition below (x : quotient) (b : Q) : bool :=
  match x with
  | Finite q => ltb q b
  | MinusInfinity => true
  | PlusInfinity | NotANumber => false
  end.

Definition above (x : quotient) (b : Q) : bool :=
  match x with
  | Finite q => ltb b q
  | PlusInfinity => true
  | MinusInfinity | NotANumber => false
  end.

(** [lo <= x <= hi], for a quotient that is a number. *)
Definition between (lo hi : Q) (x : quotient) : Prop :=
  match x with
  | Finite q => lo <= q /\ q <= hi
  | _ => False
  end.

(** Truthiness of an optional string: defined and not empty. *)
Definition truthyStr (s : option string) : option string :=
  match s with
  | Some ""%string => None
  | other => other
  end.

(** [a || b] for optional strings. *)
Definition orStr (a b : option string) : option string :=
  match truthyStr a with
  | Some s => Some s
  | None => b
  end.

(** Milliseconds in a day. *)
Definition msPerDay : Z := 86400000.

(** Number of the calendar day (days since the epoch) of an instant. *)
Definition dayNumber (t : Z) : Z := (t / msPerDay)%Z.

(** [Date.prototype.getDate()]: the day of the month, 1 to 31, of the
    instant [t]; the proleptic Gregorian calendar, computed from the day
    number.  Local time is taken to be UTC. *)
Definition getDate (t : Z) : Z :=
  (let z := dayNumber t + 719468 in
   let era := z / 146097 in
   let doe := z - era * 146097 in
   let yoe := (doe - doe / 1460 + doe / 36524 - doe / 146096) / 365 in
   let doy := doe - (365 * yoe + yoe / 4 - yoe / 100) in
   let mp := (5 * doy + 2) / 153 in
   doy - (153 * mp + 2) / 5 + 1)%Z.

(** [Date.prototype.getMonth()], 0 to 11, and [getFullYear()]; used to
    name instants in examples. *)
Definition getMonth (t : Z) : Z :=
  (let z := dayNumber t + 719468 in
   let era := z / 146097 in
   let doe := z - era * 146097 in
   let yoe := (doe - doe / 1460 + doe / 36524 - doe / 146096) / 365 in
   let doy := doe - (365 * yoe + yoe / 4 - yoe / 100) in
   let mp := (5 * doy + 2) / 153 in
   (if mp <? 10 then mp + 3 else mp - 9) - 1)%Z.

Definition getFullYear (t : Z) : Z :=
  (let z := dayNumber t + 719468 in
   let era := z / 146097 in
   let doe := z - era * 146097 in
   let yoe := (doe - doe / 1460 + doe / 36524 - doe / 146096) / 365 in
   let doy := doe - (365 * yoe + yoe / 4 - yoe / 100) in
   let mp := (5 * doy + 2) / 153 in
   yoe + era * 400 + (if mp <? 10 then 0 else 1))%Z.

End JS.

(** ** Shared vocabulary *)

Inductive Outcome := YES | NO.
Inductive Side := buy | sell.

Global Instance Outcome_eq_dec : EqDecision Outcome.
Proof. solve_decision. Defined.

Global Instance Side_eq_dec : EqDecision Side.
Proof. solve_decision. Defined.

Global Instance Q_eq_dec : EqDecision Q.
Proof. solve_decision. Defined.

Definition outcomeName (o : Outcome) : string :=
  match o with YES => "YES" | NO => "NO" end.

Definition sideName (s : Side) : string :=
  match s with buy => "buy" | sell => "sell" end.

(** ** config.ts *)

Module Config.

Record WalletConfig := {
  address : string;
  name : string;
  enabled : bool;
  minWinRate : Q;
  maxPositionSizeUsd : Q;
  positionSizeMultiplier : Q;
  marketsFilter : option (list string);
  requireArbSignal : bool
}.

Record ArbitrageConfig := {
  minArbProfitPct : Q;
  maxArbProfitPct : Q;
  internalArbEnabled : bool;
  crossPlatformEnabled : bool;
  minLiquidityUsd : Q;
  maxSlippagePct : Q
}.

Record RiskConfig := {
  maxTotalExposureUsd : Q;
  maxPositionPerMarketUsd : Q;
  maxDailyLossUsd : Q;
  enableAutoHedge : bool;
  minBalanceUsd : Q
}.

End Config.

(** ** risk-manager.ts

    The class with its numbers as exact rationals.  What depends on the
    rounding of the running total is settled on [RiskManagerDouble]. *)

Module RiskManager.

Import Config.

Record Position := {
  marketId : string;
  outcome : Outcome;
  side : Side;
  sizeUsd : Q;
  entryPrice : Q;
  timestamp : Z
}.

Global Instance Position_eq_dec : EqDecision Position.
Proof. solve_decision. Defined.

Record ExposureMetrics := {
  totalExposureUsd : Q;
  dailyPnlUsd : Q;
  openPositions : nat;
  marketExposures : gmap string Q;
  availableExposure : Q
}.

(** The private fields of the class. *)
Record t := {
  config : RiskConfig;
  positions : gmap string (list Position);
  totalExposure : Q;
  dailyPnl : Q;
  lastResetDate : Z
}.

(** [new RiskManager(config)] at instant [now]. *)
Definition create (cfg : RiskConfig) (now : Z) : t :=
  {| config := cfg; positions := ∅; totalExposure := 0; dailyPnl := 0;
     lastResetDate := now |}.

(** [positions.reduce((sum, p) => sum + p.sizeUsd, 0)]. *)
Definition sumSizeUsd (ps : list Position) : Q :=
  foldl (fun sum p => sum + sizeUsd p) 0 ps.

(** The three warnings of [canOpenPosition], one per rejecting check. *)
Inductive Rejection :=
| DailyLossLimitReached
| TotalExposureLimitExceeded
| MarketExposureLimitExceeded.

(** [canOpenPosition] together with the warning it logs. *)
Definition canOpenPositionLog (rm : t) (mid : string) (size : Q)
  : bool * option Rejection :=
  if JS.leb (dailyPnl rm) (- maxDailyLossUsd (config rm)) then
    (false, Some DailyLossLimitReached)
  else
    let newTotalExposure := totalExposure rm + size in
    if JS.ltb (maxTotalExposureUsd (config rm)) newTotalExposure then
      (false, Some TotalExposureLimitExceeded)
    else
      let marketPositions := default [] (positions rm !! mid) in
      let marketExposure := sumSizeUsd marketPositions in
      let newMarketExposure := marketExposure + size in
      if JS.ltb (maxPositionPerMarketUsd (config rm)) newMarketExposure then
        (false, Some MarketExposureLimitExceeded)
      else
        (true, None).

Definition canOpenPosition (rm : t) (mid : string) (size : Q) : bool :=
  fst (canOpenPositionLog rm mid size).

(** [recordPosition(marketId, sizeUsd, outcome, side, entryPrice?)]. *)
Definition recordPosition (rm : t) (mid : string) (size : Q) (o : Outcome)
    (s : Side) (entry : option Q) (now : Z) : t :=
  let positions1 :=
    match positions rm !! mid with
    | Some _ => positions rm
    | None => <[mid := []]> (positions rm)
    end in
  let position :=
    {| marketId := mid; outcome := o; side := s; sizeUsd := size;
       entryPrice := JS.orElse entry 0; timestamp := now |} in
  let ps := default [] (positions1 !! mid) in
  {| config := config rm;
     positions := <[mid := ps ++ [position]]> positions1;
     totalExposure := totalExposure rm + size;
     dailyPnl := dailyPnl rm;
     lastResetDate := lastResetDate rm |}.

(** [positions.indexOf(position)]: the first index holding [position].
    Every element of a ledger is a distinct object; the element looked
    up is the first one of the filtered list, so the first structurally
    equal element is that very object (lemma [indexOf_first_match]). *)
Fixpoint indexOf (ps : list Position) (p : Position) : option nat :=
  match ps with
  | [] => None
  | q :: ps' => if decide (q = p) then Some 0%nat else S <$> indexOf ps' p
  end.

(** The predicate of the filter in [closePosition]. *)
Definition matches (o : Outcome) (p : Position) : Prop :=
  outcome p = o /\ side p = buy.

Global Instance matches_dec o p : Decision (matches o p).
Proof. unfold matches. apply _. Defined.

(** [exitPrice && position.entryPrice > 0], then the price-ratio PnL. *)
Definition realizedPnl (exit : option Q) (p : Position) : Q :=
  match exit with
  | Some x =>
      if JS.truthy x && JS.ltb 0 (entryPrice p)
      then (x - entryPrice p) * sizeUsd p / entryPrice p
      else 0
  | None => 0
  end.

(** [closePosition(marketId, outcome, exitPrice?)]: the returned PnL
    ([None] for [null]) and the ledger afterwards. *)
Definition closePosition (rm : t) (mid : string) (o : Outcome)
    (exit : option Q) : option Q * t :=
  match positions rm !! mid with
  | None => (None, rm)
  | Some [] => (None, rm)
  | Some ps =>
      let matchingPositions := filter (matches o) ps in
      match matchingPositions with
      | [] => (None, rm)
      | position :: _ =>
          match indexOf ps position with
          | None => (None, rm) (* unreachable: [position] is in [ps] *)
          | Some index =>
              let ps' := delete index ps in
              let pnl := realizedPnl exit position in
              (Some pnl,
               {| config := config rm;
                  positions := <[mid := ps']> (positions rm);
                  totalExposure := totalExposure rm - sizeUsd position;
                  dailyPnl := dailyPnl rm + pnl;
                  lastResetDate := lastResetDate rm |})
          end
      end
  end.

(** The lazy daily reset at the head of [getExposure]. *)
Definition resetIfNewDay (rm : t) (now : Z) : t :=
  if decide (JS.getDate now <> JS.getDate (lastResetDate rm)) then
    {| config := config rm; positions := positions rm;
       totalExposure := totalExposure rm; dailyPnl := 0;
       lastResetDate := now |}
  else rm.

(** [Array.from(positions.values()).reduce((sum, p) => sum + p.length, 0)]. *)
Definition countPositions (m : gmap string (list Position)) : nat :=
  map_fold (fun _ ps sum => (sum + length ps)%nat) 0%nat m.

(** [getExposure()] called at instant [now]. *)
Definition getExposure (rm : t) (now : Z) : ExposureMetrics * t :=
  let rm' := resetIfNewDay rm now in
  ({| totalExposureUsd := totalExposure rm';
      dailyPnlUsd := dailyPnl rm';
      openPositions := countPositions (positions rm');
      marketExposures := sumSizeUsd <$> positions rm';
      availableExposure :=
        maxTotalExposureUsd (config rm') - totalExposure rm' |},
   rm').

(** *** Call sequences on a ledger *)

Inductive Call :=
| CallRecord (mid : string) (size : Q) (o : Outcome) (s : Side)
             (entry : option Q) (now : Z)
| CallClose (mid : string) (o : Outcome) (exit : option Q).

Definition step (rm : t) (c : Call) : t :=
  match c with
  | CallRecord mid size o s entry now =>
      recordPosition rm mid size o s entry now
  | CallClose mid o exit => snd (closePosition rm mid o exit)
  end.

Definition run (rm : t) (cs : list Call) : t := foldl step rm cs.

(** *** The open positions, as the specification describes them

    A flat list, oldest first: a position is created by every
    [recordPosition] and the oldest [buy] position of the given market
    and outcome is removed by [closePosition]. *)

Fixpoint removeFirst (P : Position -> bool) (l : list Position)
  : list Position :=
  match l with
  | [] => []
  | p :: l' => if P p then l' else p :: removeFirst P l'
  end.

Definition closes (mid : string) (o : Outcome) (p : Position) : bool :=
  bool_decide (marketId p = mid /\ outcome p = o /\ side p = buy).

Definition openStep (open : list Position) (c : Call) : list Position :=
  match c with
  | CallRecord mid size o s entry now =>
      open ++ [{| marketId := mid; outcome := o; side := s;
                  sizeUsd := size; entryPrice := JS.orElse entry 0;
                  timestamp := now |}]
  | CallClose mid o _ => removeFirst (closes mid o) open
  end.

Definition openAfter (cs : list Call) : list Position :=
  foldl openStep [] cs.

Definition inMarket (mid : string) (l : list Position) : list Position :=
  filter (fun p => marketId p = mid) l.

(** *** Vocabulary of the properties *)

(** The filter of [closePosition], as a boolean. *)
Definition matchesb (o : Outcome) (p : Position) : bool :=
  bool_decide (matches o p).

(** The invariant linking the ledger to the list of open positions. *)
Record agrees (rm : t) (open : list Position) : Prop := {
  agrees_market :
    forall mid, default [] (positions rm !! mid) = inMarket mid open;
  agrees_total : totalExposure rm == sumSizeUsd open;
  agrees_count : countPositions (positions rm) = length open
}.

(** *** The rest of the class *)

(** [shouldHedge(marketId)]. *)
Definition shouldHedge (rm : t) (mid : string) : bool :=
  if negb (enableAutoHedge (config rm)) then false
  else
    let positions := default [] (positions rm !! mid) in
    if (length positions <? 2)%nat then false
    else
      let yesPositions := filter (fun p => outcome p = YES) positions in
      let noPositions := filter (fun p => outcome p = NO) positions in
      let yesExposure := sumSizeUsd yesPositions in
      let noExposure := sumSizeUsd noPositions in
      let totalExposure := yesExposure + noExposure in
      if Qeq_bool totalExposure 0 then false
      else
        let imbalance := JS.div (Qabs (yesExposure - noExposure)) totalExposure in
        JS.above imbalance 0.2.

(** The ledger respects its two exposure ceilings. *)
Definition withinCeilings (rm : t) : Prop :=
  totalExposure rm <= maxTotalExposureUsd (config rm) /\
  forall mid,
    sumSizeUsd (default [] (positions rm !! mid))
      <= maxPositionPerMarketUsd (config rm).

End RiskManager.

(** ** risk-manager.ts, in double precision

    The bookkeeping of the same class with its numbers as they are at run
    time, IEEE 754 doubles: [recordPosition], [closePosition] and
    [getExposure].  Every [+=] and [-=] on the running total rounds. *)

Module Double.

Import PrimFloat.

Definition number := float.

(** Equality of doubles as values of the model (not [===]: a NaN is
    equal to itself here, and the two zeros differ). *)
Global Instance number_eq_dec : EqDecision float.
Proof.
  intros x y. destruct (PrimFloat.Leibniz.eqb x y) eqn:E; [left|right].
  - by apply FloatAxioms.Leibniz.eqb_spec.
  - intros H. apply FloatAxioms.Leibniz.eqb_spec in H. congruence.
Defined.

(** Truthiness of a number: every number but the zeros and NaN. *)
Definition truthy (x : float) : bool := negb (is_zero x || is_nan x).

(** [x || d] for an optional number [x]. *)
Definition orElse (x : option float) (d : float) : float :=
  match x with
  | Some q => if truthy q then q else d
  | None => d
  end.

End Double.

Module RiskManagerDouble.

Import PrimFloat.

Record RiskConfig := {
  maxTotalExposureUsd : float;
  maxPositionPerMarketUsd : float;
  maxDailyLossUsd : float;
  enableAutoHedge : bool;
  minBalanceUsd : float
}.

Record Position := {
  marketId : string;
  outcome : Outcome;
  side : Side;
  sizeUsd : float;
  entryPrice : float;
  timestamp : Z
}.

Global Instance DoublePosition_eq_dec : EqDecision Position.
Proof. solve_decision. Defined.

Record ExposureMetrics := {
  totalExposureUsd : float;
  dailyPnlUsd : float;
  openPositions : nat;
  marketExposures : gmap string float;
  availableExposure : float
}.

(** The private fields of the class. *)
Record t := {
  config : RiskConfig;
  positions : gmap string (list Position);
  totalExposure : float;
  dailyPnl : float;
  lastResetDate : Z
}.

(** [new RiskManager(config)] at instant [now]. *)
Definition create (cfg : RiskConfig) (now : Z) : t :=
  {| config := cfg; positions := ∅; totalExposure := 0%float;
     dailyPnl := 0%float; lastResetDate := now |}.

(** [positions.reduce((sum, p) => sum + p.sizeUsd, 0)]. *)
Definition sumSizeUsd (ps : list Position) : float :=
  foldl (fun sum p => (sum + sizeUsd p)%float) 0%float ps.

(** [recordPosition(marketId, sizeUsd, outcome, side, entryPrice?)]. *)
Definition recordPosition (rm : t) (mid : string) (size : float) (o : Outcome)
    (s : Side) (entry : option float) (now : Z) : t :=
  let positions1 :=
    match positions rm !! mid with
    | Some _ => positions rm
    | None => <[mid := []]> (positions rm)
    end in
  let position :=
    {| marketId := mid; outcome := o; side := s; sizeUsd := size;
       entryPrice := Double.orElse entry 0%float; timestamp := now |} in
  let ps := default [] (positions1 !! mid) in
  {| config := config rm;
     positions := <[mid := ps ++ [position]]> positions1;
     totalExposure := (totalExposure rm + size)%float;
     dailyPnl := dailyPnl rm;
     lastResetDate := lastResetDate rm |}.

(** [positions.indexOf(position)]: the first index holding [position].
    Every element of a ledger is a distinct object; the element looked
    up is the first one of the filtered list, so the first equal element
    is that very object (lemma [double_indexOf_first_match]). *)
Fixpoint indexOf (ps : list Position) (p : Position) : option nat :=
  match ps with
  | [] => None
  | q :: ps' => if decide (q = p) then Some 0%nat else S <$> indexOf ps' p
  end.

(** The predicate of the filter in [closePosition]. *)
Definition matches (o : Outcome) (p : Position) : Prop :=
  outcome p = o /\ side p = buy.

Global Instance double_matches_dec o p : Decision (matches o p).
Proof. unfold matches. apply _. Defined.

(** [exitPrice && position.entryPrice > 0], then the price-ratio PnL. *)
Definition realizedPnl (exit : option float) (p : Position) : float :=
  match exit with
  | Some x =>
      if Double.truthy x && (0 <? entryPrice p)%float
      then ((x - entryPrice p) * sizeUsd p / entryPrice p)%float
      else 0%float
  | None => 0%float
  end.

(** [closePosition(marketId, outcome, exitPrice?)]: the returned PnL
    ([None] for [null]) and the ledger afterwards. *)
Definition closePosition (rm : t) (mid : string) (o : Outcome)
    (exit : option float) : option float * t :=
  match positions rm !! mid with
  | None => (None, rm)
  | Some [] => (None, rm)
  | Some ps =>
      let matchingPositions := filter (matches o) ps in
      match matchingPositions with
      | [] => (None, rm)
      | position :: _ =>
          match indexOf ps position with
          | None => (None, rm) (* unreachable: [position] is in [ps] *)
          | Some index =>
              let ps' := delete index ps in
              let pnl := realizedPnl exit position in
              (Some pnl,
               {| config := config rm;
                  positions := <[mid := ps']> (positions rm);
                  totalExposure := (totalExposure rm - sizeUsd position)%float;
                  dailyPnl := (dailyPnl rm + pnl)%float;
                  lastResetDate := lastResetDate rm |})
          end
      end
  end.

(** The lazy daily reset at the head of [getExposure]. *)
Definition resetIfNewDay (rm : t) (now : Z) : t :=
  if decide (JS.getDate now <> JS.getDate (lastResetDate rm)) then
    {| config := config rm; positions := positions rm;
       totalExposure := totalExposure rm; dailyPnl := 0%float;
       lastResetDate := now |}
  else rm.

(** [Array.from(positions.values()).reduce((sum, p) => sum + p.length, 0)]. *)
Definition countPositions (m : gmap string (list Position)) : nat :=
  map_fold (fun _ ps sum => (sum + length ps)%nat) 0%nat m.

(** [getExposure()] called at instant [now]. *)
Definition getExposure (rm : t) (now : Z) : ExposureMetrics * t :=
  let rm' := resetIfNewDay rm now in
  ({| totalExposureUsd := totalExposure rm';
      dailyPnlUsd := dailyPnl rm';
      openPositions := countPositions (positions rm');
      marketExposures := sumSizeUsd <$> positions rm';
      availableExposure :=
        (maxTotalExposureUsd (config rm') - totalExposure rm')%float |},
   rm').

(** *** Call sequences on a ledger *)

Inductive Call :=
| CallRecord (mid : string) (size : float) (o : Outcome) (s : Side)
             (entry : option float) (now : Z)
| CallClose (mid : string) (o : Outcome) (exit : option float).

Definition step (rm : t) (c : Call) : t :=
  match c with
  | CallRecord mid size o s entry now =>
      recordPosition rm mid size o s entry now
  | CallClose mid o exit => snd (closePosition rm mid o exit)
  end.

Definition run (rm : t) (cs : list Call) : t := foldl step rm cs.

(** *** The open positions and the running total, as the specification
    describes them

    The open positions are a flat list, oldest first: a position is
    created by every [recordPosition] and the oldest [buy] position of
    the given market and outcome is removed by [closePosition].  The
    running total starts at 0; every recorded size is added to it and
    the size of every closed position is subtracted from it, in the
    order of the calls. *)

Fixpoint removeFirst (P : Position -> bool) (l : list Position)
  : list Position :=
  match l with
  | [] => []
  | p :: l' => if P p then l' else p :: removeFirst P l'
  end.

Definition closes (mid : string) (o : Outcome) (p : Position) : bool :=
  bool_decide (marketId p = mid /\ outcome p = o /\ side p = buy).

Definition openStep (open : list Position) (c : Call) : list Position :=
  match c with
  | CallRecord mid size o s entry now =>
      open ++ [{| marketId := mid; outcome := o; side := s;
                  sizeUsd := size; entryPrice := Double.orElse entry 0%float;
                  timestamp := now |}]
  | CallClose mid o _ => removeFirst (closes mid o) open
  end.

Definition totalStep (total : float) (open : list Position) (c : Call)
  : float :=
  match c with
  | CallRecord _ size _ _ _ _ => (total + size)%float
  | CallClose mid o _ =>
      match List.find (closes mid o) open with
      | Some closed => (total - sizeUsd closed)%float
      | None => total
      end
  end.

Definition bookStep (book : float * list Position) (c : Call)
  : float * list Position :=
  (totalStep book.1 book.2 c, openStep book.2 c).

Definition bookAfter (cs : list Call) : float * list Position :=
  foldl bookStep (0%float, []) cs.

Definition runningTotal (cs : list Call) : float := (bookAfter cs).1.

Definition openAfter (cs : list Call) : list Position := (bookAfter cs).2.

Definition inMarket (mid : string) (l : list Position) : list Position :=
  filter (fun p => marketId p = mid) l.

(** *** Vocabulary of the properties *)

(** The filter of [closePosition], as a boolean. *)
Definition matchesb (o : Outcome) (p : Position) : bool :=
  bool_decide (matches o p).

(** The invariant linking the ledger to the book of the calls. *)
Record agrees (rm : t) (book : float * list Position) : Prop := {
  agrees_market :
    forall mid, default [] (positions rm !! mid) = inMarket mid book.2;
  agrees_total : totalExposure rm = book.1;
  agrees_count : countPositions (positions rm) = length book.2
}.

End RiskManagerDouble.

(** ** arbitrage-detector.ts *)

Module ArbitrageDetector.

Import Config.

Inductive OpportunityType := internal | cross_platform.

Record ArbitrageOpportunity := {
  marketId : string;
  marketQuestion : string;
  opportunityType : OpportunityType;
  yesPrice : Q;
  noPrice : Q;
  totalCost : Q;
  profitPct : JS.quotient;
  profitUsd : JS.quotient;
  liquidityYes : Q;
  liquidityNo : Q;
  timestamp : Z
}.

(** One level of the book: [parseFloat(a.price)] and the optional
    depth [a.size]. *)
Record Ask := { price : Q; size : option Q }.

(** The order book the client hands over: [outcomes[o].asks || []] for
    each outcome, and [market.question] when the venue sent it. *)
Record OrderBook := {
  asks : Outcome -> list Ask;
  question : option string
}.

(** The private fields of the class. *)
Record t := {
  config : ArbitrageConfig;
  activeOpportunities : gmap string ArbitrageOpportunity
}.

Definition create (cfg : ArbitrageConfig) : t :=
  {| config := cfg; activeOpportunities := ∅ |}.

(** [asks.sort((a, b) => parseFloat(a.price) - parseFloat(b.price))]: a
    stable sort by ascending price. *)
Fixpoint insertAsk (a : Ask) (l : list Ask) : list Ask :=
  match l with
  | [] => [a]
  | b :: l' =>
      if Qle_bool (price a) (price b) then a :: b :: l'
      else b :: insertAsk a l'
  end.

Definition sortAsks (l : list Ask) : list Ask := foldr insertAsk [] l.

(** [getBestAsk(orderBook, outcome)]. *)
Definition getBestAsk (book : OrderBook) (o : Outcome) : option Ask :=
  head (sortAsks (asks book o)).

(** [totalCost * 1.01]. *)
Definition feeAdjusted (total : Q) : Q := total * 1.01.

(** [detectInternalArbitrage(marketId, orderBook)] at instant [now]. *)
Definition detectInternalArbitrage (mid : string) (book : OrderBook)
    (now : Z) : option ArbitrageOpportunity :=
  match getBestAsk book YES, getBestAsk book NO with
  | Some yesBestAsk, Some noBestAsk =>
      let yesPrice := price yesBestAsk in
      let noPrice := price noBestAsk in
      let totalCost := yesPrice + noPrice in
      let feeAdjustedCost := feeAdjusted totalCost in
      if JS.ltb feeAdjustedCost 0.99 then
        let profitPct := JS.div (1 - feeAdjustedCost) feeAdjustedCost in
        let liquidityYes := JS.orElse (size yesBestAsk) 0 * yesPrice in
        let liquidityNo := JS.orElse (size noBestAsk) 0 * noPrice in
        let profitUsd := JS.scale profitPct 1 in
        Some {| marketId := mid;
                marketQuestion :=
                  default mid (JS.truthyStr (question book));
                opportunityType := internal;
                yesPrice := yesPrice;
                noPrice := noPrice;
                totalCost := totalCost;
                profitPct := profitPct;
                profitUsd := profitUsd;
                liquidityYes := liquidityYes;
                liquidityNo := liquidityNo;
                timestamp := now |}
      else None
  | _, _ => None
  end.

(** [detectCrossPlatformArbitrage]: not implemented, always [null]. *)
Definition detectCrossPlatformArbitrage (mid : string) (book : OrderBook)
  : option ArbitrageOpportunity := None.

(** [isValid(opp)]. *)
Definition isValid (cfg : ArbitrageConfig) (opp : ArbitrageOpportunity)
  : bool :=
  if JS.below (profitPct opp) (minArbProfitPct cfg) then false
  else if JS.above (profitPct opp) (maxArbProfitPct cfg) then false
  else if JS.ltb (liquidityYes opp) (minLiquidityUsd cfg) then false
  else if JS.ltb (liquidityNo opp) (minLiquidityUsd cfg) then false
  else true.

(** [opp && this.isValid(opp)] followed by [return opp]. *)
Definition validOnly (cfg : ArbitrageConfig)
    (opp : option ArbitrageOpportunity) : option ArbitrageOpportunity :=
  match opp with
  | Some o => if isValid cfg o then Some o else None
  | None => None
  end.

(** [scanMarket(marketId)]; [fetched] is what [getOrderBook] returned,
    [None] for [null] or a thrown error. *)
Definition scanMarket (cfg : ArbitrageConfig) (mid : string)
    (fetched : option OrderBook) (now : Z) : option ArbitrageOpportunity :=
  match fetched with
  | None => None
  | Some orderBook =>
      let fromInternal :=
        if internalArbEnabled cfg
        then validOnly cfg (detectInternalArbitrage mid orderBook now)
        else None in
      match fromInternal with
      | Some opp => Some opp
      | None =>
          if crossPlatformEnabled cfg
          then validOnly cfg (detectCrossPlatformArbitrage mid orderBook)
          else None
      end
  end.

(** The loop [for (const opp of opportunities) activeOpportunities.set(..)]. *)
Definition store (cache : gmap string ArbitrageOpportunity)
    (opps : list ArbitrageOpportunity) : gmap string ArbitrageOpportunity :=
  foldl (fun c opp => <[marketId opp := opp]> c) cache opps.

(** The fulfilled, non-null results of a batch, in order. *)
Definition found (cfg : ArbitrageConfig)
    (scans : list (string * option OrderBook)) (now : Z)
  : list ArbitrageOpportunity :=
  omap (fun s => scanMarket cfg s.1 s.2 now) scans.

(** [scanMarkets(marketIds)]; each scanned id comes with the answer of
    [getOrderBook] for it. *)
Definition scanMarkets (d : t) (scans : list (string * option OrderBook))
    (now : Z) : list ArbitrageOpportunity * t :=
  let opportunities := found (config d) scans now in
  (opportunities,
   {| config := config d;
      activeOpportunities := store (activeOpportunities d) opportunities |}).

(** [getOpportunity(marketId)]. *)
Definition getOpportunity (d : t) (mid : string)
  : option ArbitrageOpportunity :=
  activeOpportunities d !! mid.

(** [hasOpportunity(marketId)]. *)
Definition hasOpportunity (d : t) (mid : string) : bool :=
  match activeOpportunities d !! mid with
  | Some opp => isValid (config d) opp
  | None => false
  end.

(** *** Vocabulary of the properties *)

(** The valid opportunities a batch found for one market, in order. *)
Definition foundFor (cfg : ArbitrageConfig)
    (scans : list (string * option OrderBook)) (now : Z) (mid : string)
  : list ArbitrageOpportunity :=
  found cfg (filter (fun s => s.1 = mid) scans) now.

(** What [detectInternalArbitrage] computes from the two best asks. *)
Definition internalOpportunity (mid : string) (book : OrderBook) (now : Z)
    (y n : Ask) : ArbitrageOpportunity :=
  let fee := feeAdjusted (price y + price n) in
  {| marketId := mid;
     marketQuestion := default mid (JS.truthyStr (question book));
     opportunityType := internal;
     yesPrice := price y;
     noPrice := price n;
     totalCost := price y + price n;
     profitPct := JS.div (1 - fee) fee;
     profitUsd := JS.scale (JS.div (1 - fee) fee) 1;
     liquidityYes := JS.orElse (size y) 0 * price y;
     liquidityNo := JS.orElse (size n) 0 * price n;
     timestamp := now |}.

(** *** Sequences of batches *)

(** The scan loop: one [scanMarkets] call per batch, each at its instant. *)
Definition scanAll (d : t)
    (batches : list (list (string * option OrderBook) * Z)) : t :=
  foldl (fun d b => snd (scanMarkets d b.1 b.2)) d batches.

(** Every cached opportunity sits under its own market id, is an internal
    one and passes [isValid]. *)
Definition cacheSound (d : t) : Prop :=
  forall mid opp,
    activeOpportunities d !! mid = Some opp ->
    marketId opp = mid /\ opportunityType opp = internal /\
    isValid (config d) opp = true.

(** Ascending prices. *)
Fixpoint ascending (l : list Ask) : Prop :=
  match l with
  | [] => True
  | a :: l' => (forall b, b ∈ l' -> price a <= price b) /\ ascending l'
  end.

End ArbitrageDetector.

(** ** order-executor.ts *)

Module OrderExecutor.

Record Order := {
  orderId : string;
  marketId : string;
  outcome : string;
  side : string;
  price : Q;
  size : JS.quotient;
  status : string
}.

(** A request sent to the venue client. *)
Inductive ClientCall :=
| PlaceCall (mid outcome side : string) (price : Q) (size : JS.quotient)
| CancelCall (oid : string).

(** The two fields [placeOrder] reads from the client's answer. *)
Record PlaceResult := {
  id : option string;
  resultOrderId : option string
}.

(** The venue: what [pmClient.placeOrder] and [pmClient.cancelOrder]
    answer, given every request sent so far (the last one is the request
    being answered).  [None] is [null]. *)
Record Venue := {
  placeAnswer : list ClientCall -> option PlaceResult;
  cancelAnswer : list ClientCall -> bool
}.

(** The private fields of the class, and the trace of requests. *)
Record t := {
  activeOrders : gmap string Order;
  calls : list ClientCall
}.

Definition create : t := {| activeOrders := ∅; calls := [] |}.

(** [placeOrder(marketId, outcome, side, price, size)]. *)
Definition placeOrder (v : Venue) (ex : t) (mid o s : string) (p : Q)
    (sz : JS.quotient) : option Order * t :=
  let calls' := calls ex ++ [PlaceCall mid o s p sz] in
  match placeAnswer v calls' with
  | Some orderResult =>
      match JS.truthyStr (JS.orStr (id orderResult)
                                   (resultOrderId orderResult)) with
      | Some oid =>
          let order :=
            {| orderId := oid; marketId := mid; outcome := o; side := s;
               price := p; size := sz; status := "pending" |} in
          (Some order,
           {| activeOrders := <[oid := order]> (activeOrders ex);
              calls := calls' |})
      | None => (None, {| activeOrders := activeOrders ex; calls := calls' |})
      end
  | None => (None, {| activeOrders := activeOrders ex; calls := calls' |})
  end.

(** [order.status = 'cancelled']. *)
Definition markCancelled (o : Order) : Order :=
  {| orderId := orderId o; marketId := marketId o; outcome := outcome o;
     side := side o; price := price o; size := size o;
     status := "cancelled" |}.

(** [cancelOrder(orderId)]. *)
Definition cancelOrder (v : Venue) (ex : t) (oid : string) : bool * t :=
  match activeOrders ex !! oid with
  | None => (false, ex)
  | Some _ =>
      let calls' := calls ex ++ [CancelCall oid] in
      if cancelAnswer v calls' then
        (true, {| activeOrders := alter markCancelled oid (activeOrders ex);
                  calls := calls' |})
      else (false, {| activeOrders := activeOrders ex; calls := calls' |})
  end.

(** *** Sequences of requests *)

(** A call of one of the two methods that change the executor. *)
Inductive Request :=
| Place (mid o s : string) (p : Q) (sz : JS.quotient)
| Cancel (oid : string).

Definition serve (v : Venue) (ex : t) (r : Request) : t :=
  match r with
  | Place mid o s p sz => snd (placeOrder v ex mid o s p sz)
  | Cancel oid => snd (cancelOrder v ex oid)
  end.

Definition serveAll (v : Venue) (ex : t) (rs : list Request) : t :=
  foldl (serve v) ex rs.

(** Every tracked order sits under its own id and is pending or
    cancelled. *)
Definition tracked (ex : t) : Prop :=
  forall oid order,
    activeOrders ex !! oid = Some order ->
    orderId order = oid /\
    (status order = "pending"%string \/ status order = "cancelled"%string).

End OrderExecutor.

(** ** wallet-monitor.ts *)

Module WalletMonitor.

Import Config.

Record WalletTrade := {
  walletAddress : string;
  walletName : string;
  marketId : string;
  marketQuestion : string;
  outcome : Outcome;
  side : Side;
  price : Q;
  size : Q;
  sizeUsd : Q;
  timestamp : Z;
  txHash : option string
}.

(** One element of the payload returned by [getWalletTrades], with the
    fields [checkWallet] and [parseTrade] read.  Numbers are given after
    [parseFloat(x || 0)], the instant after [new Date(timestamp ||
    createdAt)] ([None] when both are missing). *)
Record RawTrade := {
  positionId : option string;
  marketNestedId : option string;
  rawMarketId : option string;
  marketNestedQuestion : option string;
  rawQuestion : option string;
  rawOutcome : option string;
  rawSide : option string;
  rawPrice : Q;
  rawSize : Q;
  rawTimestamp : option Z;
  rawTxHash : option string;
  rawTransactionHash : option string
}.

(** The private fields of the class; [callbackLog] lists the trades the
    callback was invoked on. *)
Record t := {
  walletConfigs : gmap string WalletConfig;
  tradeCallback : bool;
  lastTradeTimestamps : gmap string Z;
  tradeHistory : gmap string (list WalletTrade);
  lastKnownPositions : gmap string (gset string);
  checkCount : gmap string nat;
  callbackLog : list WalletTrade
}.

(** [new WalletMonitor(walletConfigs, client, tradeCallback?)]. *)
Definition create (cfgs : list WalletConfig) (callback : bool) : t :=
  let configs : gmap string WalletConfig :=
    list_to_map (reverse ((fun wc => (address wc, wc)) <$>
                          filter (fun wc => enabled wc = true) cfgs)) in
  {| walletConfigs := configs;
     tradeCallback := callback;
     lastTradeTimestamps := ∅;
     tradeHistory := (fun _ => []) <$> configs;
     lastKnownPositions := ∅;
     checkCount := ∅;
     callbackLog := [] |}.

(** [toUpperCase] and [toLowerCase], on the ASCII letters. *)
Definition upperAscii (c : Ascii.ascii) : Ascii.ascii :=
  let n := Ascii.nat_of_ascii c in
  if ((97 <=? n) && (n <=? 122))%nat then Ascii.ascii_of_nat (n - 32) else c.

Definition lowerAscii (c : Ascii.ascii) : Ascii.ascii :=
  let n := Ascii.nat_of_ascii c in
  if ((65 <=? n) && (n <=? 90))%nat then Ascii.ascii_of_nat (n + 32) else c.

Fixpoint mapString (f : Ascii.ascii -> Ascii.ascii) (s : string) : string :=
  match s with
  | EmptyString => EmptyString
  | String c s' => String (f c) (mapString f s')
  end.

Definition toUpperCase := mapString upperAscii.
Definition toLowerCase := mapString lowerAscii.

(** [['YES', 'NO'].includes(outcome)] and [['buy', 'sell'].includes(side)],
    with the value found. *)
Definition asOutcome (s : string) : option Outcome :=
  if String.eqb s "YES" then Some YES
  else if String.eqb s "NO" then Some NO
  else None.

Definition asSide (s : string) : option Side :=
  if String.eqb s "buy" then Some buy
  else if String.eqb s "sell" then Some sell
  else None.

(** [parseTrade(tradeData, config)] at instant [now]. *)
Definition parseTrade (raw : RawTrade) (cfg : WalletConfig) (now : Z)
  : option WalletTrade :=
  let marketId := JS.orStr (marketNestedId raw) (rawMarketId raw) in
  let marketQuestion :=
    default ""%string
      (JS.orStr (JS.orStr (marketNestedQuestion raw) (rawQuestion raw))
                (Some ""%string)) in
  let outcome := toUpperCase (default ""%string (JS.truthyStr (rawOutcome raw))) in
  let side := toLowerCase (default ""%string (JS.truthyStr (rawSide raw))) in
  let price := rawPrice raw in
  let size := rawSize raw in
  let sizeUsd := size * price in
  let timestamp := default now (rawTimestamp raw) in
  let txHash := JS.orStr (rawTxHash raw) (rawTransactionHash raw) in
  match JS.truthyStr marketId, asOutcome outcome, asSide side with
  | Some mid, Some o, Some s =>
      if JS.leb price 0 then None
      else Some {| walletAddress := address cfg;
                   walletName := name cfg;
                   marketId := mid;
                   marketQuestion := marketQuestion;
                   outcome := o;
                   side := s;
                   price := price;
                   size := size;
                   sizeUsd := sizeUsd;
                   timestamp := timestamp;
                   txHash := txHash |}
  | _, _, _ => None
  end.

(** The two tests of the loop body of [isNewTrade]. *)
Definition sameTx (trade existing : WalletTrade) : bool :=
  match JS.truthyStr (txHash trade) with
  | Some h => bool_decide (txHash existing = Some h)
  | None => false
  end.

Definition sameFill (trade existing : WalletTrade) : bool :=
  bool_decide (marketId existing = marketId trade)
  && bool_decide (outcome existing = outcome trade)
  && bool_decide (side existing = side trade)
  && (Z.abs (timestamp existing - timestamp trade) <? 5000)%Z.

Fixpoint isNewAmong (walletTrades : list WalletTrade) (trade : WalletTrade)
  : bool :=
  match walletTrades with
  | [] => true
  | existingTrade :: rest =>
      if sameTx trade existingTrade then false
      else if sameFill trade existingTrade then false
      else isNewAmong rest trade
  end.

(** [isNewTrade(trade)]. *)
Definition isNewTrade (wm : t) (trade : WalletTrade) : bool :=
  isNewAmong (default [] (tradeHistory wm !! walletAddress trade)) trade.

(** The emission block of [checkWallet]: history append, watermark
    advance, callback. *)
Definition emit (wm : t) (addr : string) (trade : WalletTrade) : t :=
  let history := default [] (tradeHistory wm !! addr) in
  {| walletConfigs := walletConfigs wm;
     tradeCallback := tradeCallback wm;
     lastTradeTimestamps := <[addr := timestamp trade]> (lastTradeTimestamps wm);
     tradeHistory := <[addr := history ++ [trade]]> (tradeHistory wm);
     lastKnownPositions := lastKnownPositions wm;
     checkCount := checkCount wm;
     callbackLog :=
       if tradeCallback wm then callbackLog wm ++ [trade]
       else callbackLog wm |}.

Definition emitIfNew (wm : t) (addr : string) (trade : WalletTrade) : t :=
  if isNewTrade wm trade then emit wm addr trade else wm.

(** [knownPositions.add(positionId)] and the [set] that follows. *)
Definition rememberPosition (wm : t) (addr pid : string) : t :=
  let knownPositions := default ∅ (lastKnownPositions wm !! addr) in
  {| walletConfigs := walletConfigs wm;
     tradeCallback := tradeCallback wm;
     lastTradeTimestamps := lastTradeTimestamps wm;
     tradeHistory := tradeHistory wm;
     lastKnownPositions :=
       <[addr := {[pid]} ∪ knownPositions]> (lastKnownPositions wm);
     checkCount := checkCount wm;
     callbackLog := callbackLog wm |}.

(** The body of [for (const tradeData of trades)] in [checkWallet]. *)
Definition observe (addr : string) (cfg : WalletConfig) (now : Z)
    (wm : t) (tradeData : RawTrade) : t :=
  match parseTrade tradeData cfg now with
  | None => wm
  | Some trade =>
      match JS.truthyStr (positionId tradeData) with
      | Some pid =>
          let knownPositions := default ∅ (lastKnownPositions wm !! addr) in
          if decide (pid ∈ knownPositions) then wm
          else emitIfNew (rememberPosition wm addr pid) addr trade
      | None => emitIfNew wm addr trade
      end
  end.

Definition countCheck (wm : t) (addr : string) : t :=
  {| walletConfigs := walletConfigs wm;
     tradeCallback := tradeCallback wm;
     lastTradeTimestamps := lastTradeTimestamps wm;
     tradeHistory := tradeHistory wm;
     lastKnownPositions := lastKnownPositions wm;
     checkCount :=
       <[addr := S (default 0%nat (checkCount wm !! addr))]> (checkCount wm);
     callbackLog := callbackLog wm |}.

(** [checkWallet(walletAddress)] at instant [now]; [fetched] is the
    answer of [getWalletTrades], [None] when it threw. *)
Definition checkWallet (wm : t) (addr : string)
    (fetched : option (list RawTrade)) (now : Z) : t :=
  match walletConfigs wm !! addr with
  | None => wm
  | Some cfg =>
      match fetched with
      | None => wm
      | Some trades => foldl (observe addr cfg now) (countCheck wm addr) trades
      end
  end.

(** *** Vocabulary of the properties *)

(** The three effects of an emission, on a state that differs at most
    in the remembered position identifiers. *)
Definition sameRecord (a b : t) : Prop :=
  tradeHistory a = tradeHistory b /\
  lastTradeTimestamps a = lastTradeTimestamps b /\
  callbackLog a = callbackLog b.

(** Trades handed to the callback are in the history of their wallet. *)
Definition logged (wm : t) : Prop :=
  forall trade, trade ∈ callbackLog wm ->
    trade ∈ default [] (tradeHistory wm !! walletAddress trade).

(** *** The rest of the class *)

Record MarketStats := { trades : nat; volumeUsd : Q }.

Record WalletStats := {
  totalTrades : nat;
  totalVolumeUsd : Q;
  buyTrades : nat;
  sellTrades : nat;
  markets : gmap string MarketStats;
  lastTrade : Z
}.

(** The three shapes [getWalletStats] returns: [null], the object
    [{ totalTrades: 0 }] and the full statistics. *)
Inductive StatsReply :=
| StatsNull
| StatsEmpty
| Stats (s : WalletStats).

(** The body of the loop that groups the trades by market; [markets] is
    a plain object, and market ids are taken not to be names of
    properties every object inherits. *)
Definition countTrade (markets : gmap string MarketStats)
    (trade : WalletTrade) : gmap string MarketStats :=
  let markets1 :=
    match markets !! marketId trade with
    | Some _ => markets
    | None => <[marketId trade := {| trades := 0; volumeUsd := 0 |}]> markets
    end in
  let m := default {| trades := 0; volumeUsd := 0 |}
             (markets1 !! marketId trade) in
  <[marketId trade := {| trades := (trades m + 1)%nat;
                         volumeUsd := volumeUsd m + sizeUsd trade |}]>
    markets1.

(** [getWalletStats(walletAddress)]. *)
Definition getWalletStats (wm : t) (addr : string) : StatsReply :=
  match walletConfigs wm !! addr with
  | None => StatsNull
  | Some _ =>
      let trades := default [] (tradeHistory wm !! addr) in
      match last trades with
      | None => StatsEmpty
      | Some lastOne =>
          Stats {| totalTrades := length trades;
                   totalVolumeUsd :=
                     foldl (fun sum t => sum + sizeUsd t) 0 trades;
                   buyTrades := length (filter (fun t => side t = buy) trades);
                   sellTrades :=
                     length (filter (fun t => side t = sell) trades);
                   markets := foldl countTrade ∅ trades;
                   lastTrade := timestamp lastOne |}
      end
  end.

(** *** Sequences of polls *)

(** One call of [checkWallet]: the address, the answer of the client and
    the instant.  The calls are taken one after the other, as they run
    for one wallet; the state they touch is kept per wallet. *)
Record Poll := {
  pollAddress : string;
  pollFetched : option (list RawTrade);
  pollNow : Z
}.

Definition runPolls (wm : t) (polls : list Poll) : t :=
  foldl (fun wm p => checkWallet wm (pollAddress p) (pollFetched p) (pollNow p))
        wm polls.

(** The history of a wallet. *)
Definition historyOf (wm : t) (addr : string) : list WalletTrade :=
  default [] (tradeHistory wm !! addr).

(** A history built by appending trades that were new when appended. *)
Inductive grownByNew : list WalletTrade -> Prop :=
| grownByNew_nil : grownByNew []
| grownByNew_snoc h trade :
    grownByNew h -> isNewAmong h trade = true -> grownByNew (h ++ [trade]).

(** What every watcher reached from [create] satisfies. *)
Record consistent (wm : t) : Prop := {
  consistent_keys :
    forall addr cfg, walletConfigs wm !! addr = Some cfg ->
      address cfg = addr /\ enabled cfg = true;
  consistent_owner :
    forall addr trade, trade ∈ historyOf wm addr ->
      walletAddress trade = addr /\ is_Some (walletConfigs wm !! addr);
  consistent_new : forall addr, grownByNew (historyOf wm addr);
  consistent_watermark :
    forall addr,
      lastTradeTimestamps wm !! addr = timestamp <$> last (historyOf wm addr);
  consistent_log :
    forall addr,
      filter (fun trade => walletAddress trade = addr) (callbackLog wm)
      = if tradeCallback wm then historyOf wm addr else []
}.

End WalletMonitor.

(** ** copy-trader.ts *)

Module CopyTrader.

Import Config.
Import WalletMonitor.

(** The private fields of the class; the three collaborators are given
    with their state. *)
Record t := {
  arbDetector : ArbitrageDetector.t;
  riskManager : RiskManager.t;
  orderExecutor : OrderExecutor.t;
  config : WalletConfig;
  copiedTrades : gmap string Z
}.

Definition withExecutor (w : t) (ex : OrderExecutor.t) : t :=
  {| arbDetector := arbDetector w; riskManager := riskManager w;
     orderExecutor := ex; config := config w;
     copiedTrades := copiedTrades w |}.

Definition withRisk (w : t) (rm : RiskManager.t) : t :=
  {| arbDetector := arbDetector w; riskManager := rm;
     orderExecutor := orderExecutor w; config := config w;
     copiedTrades := copiedTrades w |}.

Definition withCopied (w : t) (c : gmap string Z) : t :=
  {| arbDetector := arbDetector w; riskManager := riskManager w;
     orderExecutor := orderExecutor w; config := config w;
     copiedTrades := c |}.

(** The template string
    [`${trade.txHash}_${trade.marketId}_${trade.outcome}_${trade.side}`];
    an undefined [txHash] prints as [undefined]. *)
Definition tradeKey (trade : WalletTrade) : string :=
  default "undefined" (txHash trade) +:+ "_" +:+ marketId trade +:+ "_"
    +:+ outcomeName (outcome trade) +:+ "_" +:+ sideName (side trade).

(** [shouldCopyWallet(trade)]. *)
Definition shouldCopyWallet (cfg : WalletConfig) (trade : WalletTrade)
  : bool := enabled cfg.

(** [calculatePositionSize(trade)]. *)
Definition calculatePositionSize (cfg : WalletConfig) (trade : WalletTrade)
  : Q :=
  let baseSize := sizeUsd trade in
  let scaledSize := baseSize * positionSizeMultiplier cfg in
  let finalSize := JS.min scaledSize (maxPositionSizeUsd cfg) in
  if JS.ltb finalSize 10 then 0 else finalSize.

(** [executeArbitrageTrade(arbOpp, positionSizeUsd)]. *)
Definition executeArbitrageTrade (v : OrderExecutor.Venue) (w : t)
    (arbOpp : ArbitrageDetector.ArbitrageOpportunity) (positionSizeUsd : Q)
    (now : Z) : bool * t :=
  let yesSizeUsd := positionSizeUsd * 0.5 in
  let noSizeUsd := positionSizeUsd * 0.5 in
  let yesShares := JS.div yesSizeUsd (ArbitrageDetector.yesPrice arbOpp) in
  let noShares := JS.div noSizeUsd (ArbitrageDetector.noPrice arbOpp) in
  let mid := ArbitrageDetector.marketId arbOpp in
  let '(yesOrder, ex1) :=
    OrderExecutor.placeOrder v (orderExecutor w) mid "YES" "buy"
      (ArbitrageDetector.yesPrice arbOpp) yesShares in
  let '(noOrder, ex2) :=
    OrderExecutor.placeOrder v ex1 mid "NO" "buy"
      (ArbitrageDetector.noPrice arbOpp) noShares in
  match yesOrder, noOrder with
  | Some _, Some _ =>
      let rm1 :=
        RiskManager.recordPosition (riskManager w) mid yesSizeUsd YES buy
          None now in
      let rm2 := RiskManager.recordPosition rm1 mid noSizeUsd NO buy None now in
      (true, withRisk (withExecutor w ex2) rm2)
  | _, _ =>
      let ex3 :=
        match yesOrder with
        | Some o => snd (OrderExecutor.cancelOrder v ex2 (OrderExecutor.orderId o))
        | None => ex2
        end in
      let ex4 :=
        match noOrder with
        | Some o => snd (OrderExecutor.cancelOrder v ex3 (OrderExecutor.orderId o))
        | None => ex3
        end in
      (false, withExecutor w ex4)
  end.

(** The test [arbOpp && arbOpp.opportunityType === 'internal'] under
    [requireArbSignal]: the opportunity the hedged path trades on. *)
Definition hedgeOn (w : t) (trade : WalletTrade)
  : option ArbitrageDetector.ArbitrageOpportunity :=
  if requireArbSignal (config w) then
    match ArbitrageDetector.getOpportunity (arbDetector w) (marketId trade) with
    | Some arbOpp =>
        match ArbitrageDetector.opportunityType arbOpp with
        | ArbitrageDetector.internal => Some arbOpp
        | ArbitrageDetector.cross_platform => None
        end
    | None => None
    end
  else None.

(** [executeCopyTrade(trade, positionSizeUsd)]. *)
Definition executeCopyTrade (v : OrderExecutor.Venue) (w : t)
    (trade : WalletTrade) (positionSizeUsd : Q) (now : Z) : bool * t :=
  let shares := JS.div positionSizeUsd (price trade) in
  match hedgeOn w trade with
  | Some arbOpp => executeArbitrageTrade v w arbOpp positionSizeUsd now
  | None =>
      let '(orderResult, ex1) :=
        OrderExecutor.placeOrder v (orderExecutor w) (marketId trade)
          (outcomeName (outcome trade)) (sideName (side trade))
          (price trade) shares in
      match orderResult with
      | Some _ =>
          let rm1 :=
            RiskManager.recordPosition (riskManager w) (marketId trade)
              positionSizeUsd (outcome trade) (side trade) None now in
          (true, withRisk (withExecutor w ex1) rm1)
      | None => (false, withExecutor w ex1)
      end
  end.

(** How [processTrade] ended: one constructor per log line. *)
Inductive Verdict :=
| AlreadyCopied
| WalletNotEligible
| MarketNotInFilter
| NoArbitrageSignal
| SizeTooSmall
| RiskLimitsExceeded
| ExecutionFailed
| Copied.

Definition isCopied (r : Verdict) : bool :=
  match r with Copied => true | _ => false end.

(** [processTrade(trade)] at instant [now], with the line it logs. *)
Definition processTradeLog (v : OrderExecutor.Venue) (w : t)
    (trade : WalletTrade) (now : Z) : Verdict * t :=
  let key := tradeKey trade in
  if decide (is_Some (copiedTrades w !! key)) then (AlreadyCopied, w)
  else if negb (shouldCopyWallet (config w) trade) then (WalletNotEligible, w)
  else if match marketsFilter (config w) with
          | Some filter => negb (bool_decide (marketId trade ∈ filter))
          | None => false
          end then (MarketNotInFilter, w)
  else if requireArbSignal (config w)
          && negb (ArbitrageDetector.hasOpportunity (arbDetector w)
                     (marketId trade)) then (NoArbitrageSignal, w)
  else
    let positionSizeUsd := calculatePositionSize (config w) trade in
    if JS.leb positionSizeUsd 0 then (SizeTooSmall, w)
    else if negb (RiskManager.canOpenPosition (riskManager w)
                    (marketId trade) positionSizeUsd)
    then (RiskLimitsExceeded, w)
    else
      let '(success, w1) := executeCopyTrade v w trade positionSizeUsd now in
      if success
      then (Copied, withCopied w1 (<[key := now]> (copiedTrades w1)))
      else (ExecutionFailed, w1).

Definition processTrade (v : OrderExecutor.Venue) (w : t)
    (trade : WalletTrade) (now : Z) : bool * t :=
  let '(r, w') := processTradeLog v w trade now in (isCopied r, w').


End CopyTrader.

(** ** on-chain-monitor.ts *)

Module OnChainMonitor.

(** The arguments of an [OrderFilled] event. *)
Record Args := {
  maker : string;
  taker : string;
  makerTokenId : string;
  takerTokenId : string;
  makerAmount : string;
  takerAmount : string
}.

(** A log entry returned by [queryFilter]; [args] is missing on a plain
    [Log]. *)
Record Event := {
  transactionHash : string;
  blockNumber : Z;
  args : option Args
}.

(** The [rawData] object of a trade; the one [getWalletTrades] builds has
    no [marketId] property. *)
Record RawData := {
  rawMaker : string;
  rawTaker : string;
  rawMakerTokenId : string;
  rawTakerTokenId : string;
  rawMakerAmount : string;
  rawTakerAmount : string;
  rawDataMarketId : option string
}.

Record OnChainTrade := {
  txHash : string;
  tradeBlockNumber : Z;
  timestamp : Z;
  walletAddress : string;
  marketId : option string;
  outcome : option string;
  side : option string;
  price : option Q;
  size : option Q;
  rawData : option RawData
}.

(** What [queryFilter] does on a block range: it returns events, fails
    with the "block range too large" error, or fails otherwise. *)
Inductive QueryReply :=
| Events (events : list Event)
| TooLarge
| Failed.

(** What [getBlock] does: it returns a block (its timestamp, in
    seconds), returns [null], or fails. *)
Inductive BlockReply :=
| Block (blockTimestamp : Z)
| NoBlock
| BlockFails.

(** The RPC provider during one call of [getWalletTrades]: the answers
    of [getBlockNumber] in [getWalletTrades], in
    [getBlockNumberForTimestamp] and in its [catch] block ([None] when
    the call fails), of [queryFilter] on a range and of [getBlock] on a
    block number. *)
Record Chain := {
  headNumber : option Z;
  helperHead : option Z;
  fallbackHead : option Z;
  queryFilter : Z -> Z -> QueryReply;
  getBlock : Z -> BlockReply
}.

(** [getBlockNumberForTimestamp(timestamp)]; [None] when the call in the
    [catch] block fails too. *)
Definition getBlockNumberForTimestamp (c : Chain) (timestamp : Z)
  : option Z :=
  let attempt :=
    match helperHead c with
    | Some currentBlock =>
        match getBlock c currentBlock with
        | Block currentTimestamp =>
            let targetTimestamp := (timestamp / 1000)%Z in
            let timeDiff := (currentTimestamp - targetTimestamp)%Z in
            let blockTime := 2%Z in
            let blocksAgo := (timeDiff / blockTime)%Z in
            let maxBlocksAgo := 2000%Z in
            let calculatedBlocksAgo := Z.min blocksAgo maxBlocksAgo in
            Some (Z.max 0 (currentBlock - calculatedBlocksAgo))
        | NoBlock | BlockFails => None
        end
    | None => None
    end in
  match attempt with
  | Some found => Some found
  | None =>
      match fallbackHead c with
      | Some currentBlock => Some (Z.max 0 (currentBlock - 1000))
      | None => None
      end
  end.

(** The [while] loop of [getWalletTrades]: the events gathered, [None]
    when a query failed otherwise than by "too large", and the ranges
    asked for.  [trades] is still empty in this loop, so [trades.length <
    limit] is [0 < limit].  Each round moves [fromBlock] forward, so
    [fuel] rounds are enough when [fuel] is the distance to the head
    (lemma [queryLoop_fuel]). *)
Fixpoint queryLoop (c : Chain) (currentBlock limit : Z) (fuel : nat)
    (fromBlock : Z) (allEvents : list Event) (asked : list (Z * Z))
  : option (list Event) * list (Z * Z) :=
  match fuel with
  | O => (Some allEvents, asked)
  | S fuel' =>
      if ((fromBlock <? currentBlock) && (0 <? limit))%Z then
        let chunkSize := 1000%Z in
        let toBlock := Z.min (fromBlock + chunkSize) currentBlock in
        let asked' := asked ++ [(fromBlock, toBlock)] in
        match queryFilter c fromBlock toBlock with
        | Events events =>
            queryLoop c currentBlock limit fuel' (toBlock + 1)
              (allEvents ++ filter (fun e => is_Some (args e)) events) asked'
        | TooLarge =>
            let smallerChunk := (chunkSize / 2)%Z in
            if (smallerChunk <? 100)%Z then (Some allEvents, asked')
            else queryLoop c currentBlock limit fuel'
                   (fromBlock + smallerChunk) allEvents asked'
        | Failed => (None, asked')
        end
      else (Some allEvents, asked)
  end.

(** [maker === walletLower || taker === walletLower], on the lower-cased
    addresses of the event. *)
Definition involves (walletLower : string) (a : Args) : bool :=
  String.eqb (WalletMonitor.toLowerCase (maker a)) walletLower
  || String.eqb (WalletMonitor.toLowerCase (taker a)) walletLower.

(** The trade object built for an event of the wallet. *)
Definition tradeOf (walletAddress : string) (e : Event) (a : Args)
    (blockTimestamp : Z) : OnChainTrade :=
  {| txHash := transactionHash e;
     tradeBlockNumber := blockNumber e;
     timestamp := (blockTimestamp * 1000)%Z;
     walletAddress := walletAddress;
     marketId := None; outcome := None; side := None;
     price := None; size := None;
     rawData :=
       Some {| rawMaker := WalletMonitor.toLowerCase (maker a);
               rawTaker := WalletMonitor.toLowerCase (taker a);
               rawMakerTokenId := makerTokenId a;
               rawTakerTokenId := takerTokenId a;
               rawMakerAmount := makerAmount a;
               rawTakerAmount := takerAmount a;
               rawDataMarketId := None |} |}.

(** The loop that turns the events into trades, with its [continue]s and
    its [break] at the limit; [None] when [getBlock] fails. *)
Fixpoint collect (c : Chain) (walletAddress walletLower : string)
    (limit : Z) (events : list Event) (trades : list OnChainTrade)
  : option (list OnChainTrade) :=
  match events with
  | [] => Some trades
  | e :: rest =>
      match args e with
      | None => collect c walletAddress walletLower limit rest trades
      | Some a =>
          if involves walletLower a then
            match getBlock c (blockNumber e) with
            | BlockFails => None
            | NoBlock => collect c walletAddress walletLower limit rest trades
            | Block blockTimestamp =>
                let trades' :=
                  trades ++ [tradeOf walletAddress e a blockTimestamp] in
                if (limit <=? Z.of_nat (length trades'))%Z then Some trades'
                else collect c walletAddress walletLower limit rest trades'
            end
          else collect c walletAddress walletLower limit rest trades
      end
  end.

(** [trades.sort((a, b) => b.timestamp.getTime() - a.timestamp.getTime())]:
    a stable sort, newest first. *)
Fixpoint insertNewest (a : OnChainTrade) (l : list OnChainTrade)
  : list OnChainTrade :=
  match l with
  | [] => [a]
  | b :: l' =>
      if (timestamp b <=? timestamp a)%Z then a :: b :: l'
      else b :: insertNewest a l'
  end.

Definition sortNewest (l : list OnChainTrade) : list OnChainTrade :=
  foldr insertNewest [] l.

(** The first block of the range [getWalletTrades] looks at; [None] when
    [getBlockNumberForTimestamp] fails. *)
Definition sinceBlock (c : Chain) (currentBlock : Z) (since : option Z)
  : option Z :=
  let maxBlockRange := 1000%Z in
  let sinceBlock :=
    match since with
    | Some timestamp => getBlockNumberForTimestamp c timestamp
    | None => Some (currentBlock - maxBlockRange)%Z
    end in
  match sinceBlock with
  | Some sinceBlock =>
      if (maxBlockRange <? currentBlock - sinceBlock)%Z
      then Some (currentBlock - maxBlockRange)%Z
      else Some sinceBlock
  | None => None
  end.

(** [getWalletTrades(walletAddress, since?, limit)]: the trades returned
    (none when anything failed) and the block ranges asked for. *)
Definition getWalletTrades (c : Chain) (walletAddress : string)
    (since : option Z) (limit : Z) : list OnChainTrade * list (Z * Z) :=
  let walletLower := WalletMonitor.toLowerCase walletAddress in
  match headNumber c with
  | None => ([], [])
  | Some currentBlock =>
      match sinceBlock c currentBlock since with
      | None => ([], [])
      | Some first =>
          let '(gathered, asked) :=
            queryLoop c currentBlock limit (Z.to_nat (currentBlock - first))
              first [] [] in
          match gathered with
          | None => ([], asked)
          | Some allEvents =>
              match collect c walletAddress walletLower limit allEvents [] with
              | Some trades => (sortNewest trades, asked)
              | None => ([], asked)
              end
          end
      end
  end.

(** Newest first. *)
Fixpoint newestFirst (l : list OnChainTrade) : Prop :=
  match l with
  | [] => True
  | a :: l' =>
      (forall b, b ∈ l' -> (timestamp b <= timestamp a)%Z) /\ newestFirst l'
  end.

End OnChainMonitor.

(** ** polymarket-client.ts *)

Module PolymarketClient.

(** The object [transformOnChainTrades] builds from one on-chain trade,
    as [parseTrade] reads it. *)
Definition transformOnChainTrade (trade : OnChainMonitor.OnChainTrade)
  : WalletMonitor.RawTrade :=
  {| WalletMonitor.positionId := None;
     WalletMonitor.marketNestedId := None;
     WalletMonitor.rawMarketId :=
       JS.orStr (OnChainMonitor.rawData trade
                   ≫= OnChainMonitor.rawDataMarketId)
                (Some "unknown"%string);
     WalletMonitor.marketNestedQuestion := None;
     WalletMonitor.rawQuestion := Some "On-chain trade"%string;
     WalletMonitor.rawOutcome :=
       JS.orStr (OnChainMonitor.outcome trade) (Some "YES"%string);
     WalletMonitor.rawSide :=
       JS.orStr (OnChainMonitor.side trade) (Some "buy"%string);
     WalletMonitor.rawPrice := JS.orElse (OnChainMonitor.price trade) 0;
     WalletMonitor.rawSize := JS.orElse (OnChainMonitor.size trade) 0;
     WalletMonitor.rawTimestamp := Some (OnChainMonitor.timestamp trade);
     WalletMonitor.rawTxHash := Some (OnChainMonitor.txHash trade);
     WalletMonitor.rawTransactionHash := None |}.

(** [transformOnChainTrades(onChainTrades)]. *)
Definition transformOnChainTrades
    (trades : list OnChainMonitor.OnChainTrade)
  : list WalletMonitor.RawTrade :=
  transformOnChainTrade <$> trades.

(** What a request to the Data API gives: the two places the client
    looks for an array ([response.data.data], then [response.data];
    [None] where there is no array), or a failure. *)
Inductive ApiReply (A : Type) :=
| Replied (nested flat : option (list A))
| RequestFailed.

Arguments Replied {A} nested flat.
Arguments RequestFailed {A}.

(** [getWalletTrades(walletAddress, since?, limit)] of the client: the
    four sources in their order.  The payloads of the positions endpoint
    and of the Data API are untyped in the source; their two transforms
    are parameters, taken not to fail.  [positions] is the answer of
    [getWalletPositions] ([None] when it fails) and [onChain] the answer
    of the on-chain monitor ([None] when there is no monitor). *)
Definition getWalletTrades {Position ApiTrade : Type}
    (transformPositionsToTrades :
       list Position -> string -> option Z -> list WalletMonitor.RawTrade)
    (transformApiTrades : list ApiTrade -> list WalletMonitor.RawTrade)
    (positions : option (list Position))
    (onChain : option (list OnChainMonitor.OnChainTrade))
    (activity trades : ApiReply ApiTrade)
    (walletAddress : string) (since : option Z)
  : list WalletMonitor.RawTrade :=
  let fromTrades :=
    match trades with
    | Replied (Some nested) _ => transformApiTrades nested
    | Replied None (Some flat) => transformApiTrades flat
    | Replied None None | RequestFailed => []
    end in
  let fromActivity :=
    match activity with
    | Replied (Some (x :: nested)) _ => transformApiTrades (x :: nested)
    | Replied _ (Some (x :: flat)) => transformApiTrades (x :: flat)
    | _ => fromTrades
    end in
  let fromChain :=
    match onChain with
    | Some (x :: onChainTrades) => transformOnChainTrades (x :: onChainTrades)
    | _ => fromActivity
    end in
  match positions with
  | Some (x :: positions) =>
      transformPositionsToTrades (x :: positions) walletAddress since
  | _ => fromChain
  end.

End PolymarketClient.

(** ** bot.ts *)

Module Bot.

(** A market as [getMarkets] returns it, with the fields the bot reads. *)
Record Market := {
  id : option string;
  marketId : option string;
  volume24h : option Q;
  volume_24h : option Q
}.

(** The two settings [filterMarkets] reads. *)
Record Filter := {
  enabledMarkets : option (list string);
  minMarketVolume24h : Q
}.

(** The two tests of the loop body of [filterMarkets]. *)
Definition keeps (f : Filter) (market : Market) : bool :=
  let marketId := JS.orStr (id market) (marketId market) in
  let listed :=
    match enabledMarkets f with
    | Some enabled =>
        match marketId with
        | Some m => bool_decide (m ∈ enabled)
        | None => false
        end
    | None => true
    end in
  let volume24h :=
    JS.orElse (volume24h market) (JS.orElse (volume_24h market) 0) in
  listed && negb (JS.ltb volume24h (minMarketVolume24h f)).

(** [filterMarkets(markets)]. *)
Definition filterMarkets (f : Filter) (markets : list Market) : list Market :=
  List.filter (keeps f) markets.

(** The ids handed to [scanMarkets] by the scan loop:
    [filteredMarkets.map(m => m.id || m.marketId).filter(id => !!id)]. *)
Definition scanTargets (f : Filter) (markets : list Market) : list string :=
  omap (fun m => JS.truthyStr (JS.orStr (id m) (marketId m)))
       (filterMarkets f markets).

End Bot.

(** * Worked inputs *)

(** Concrete configurations, books, trades and venues, taken from the
    example configuration and the workflow document of the repository. *)

Section LedgerExamples.

Import Config RiskManager.

(** 15 January 2024 and 15 February 2024, both at noon. *)
Definition jan15 : Z := 1705320000000.
Definition feb15 : Z := 1707998400000.

Definition exampleRisk : RiskConfig :=
  {| maxTotalExposureUsd := 10000; maxPositionPerMarketUsd := 2000;
     maxDailyLossUsd := 500; enableAutoHedge := true;
     minBalanceUsd := 100 |}.

(** A ledger created on 15 January that lost 100 USD that day. *)
Definition ledgerAfterLoss : t :=
  run (create exampleRisk jan15)
      [CallRecord "m" 200 YES buy (Some 0.5) jan15;
       CallClose "m" YES (Some 0.25)].

(** A ledger holding, in market [m], a YES buy, a NO buy, a YES sell and
    a second YES buy, recorded in this order. *)
Definition twoSidedLedger : t :=
  run (create exampleRisk 0)
      [CallRecord "m" 100 YES buy (Some 0.4) 1;
       CallRecord "m" 200 NO buy (Some 0.5) 2;
       CallRecord "m" 300 YES sell None 3;
       CallRecord "m" 300 YES buy (Some 0.5) 4].

Definition firstYesBuy : Position :=
  {| marketId := "m"; outcome := YES; side := buy; sizeUsd := 100;
     entryPrice := 0.4; timestamp := 1 |}.

Definition secondYesBuy : Position :=
  {| marketId := "m"; outcome := YES; side := buy; sizeUsd := 300;
     entryPrice := 0.5; timestamp := 4 |}.

Definition yesSell : Position :=
  {| marketId := "m"; outcome := YES; side := sell; sizeUsd := 300;
     entryPrice := 0; timestamp := 3 |}.

End LedgerExamples.

Section DoubleLedgerExamples.

Import PrimFloat RiskManagerDouble.

Local Set Warnings "-inexact-float".

(** The limits of [exampleRisk], as doubles. *)
Definition exampleRiskDouble : RiskConfig :=
  {| maxTotalExposureUsd := 10000%float;
     maxPositionPerMarketUsd := 2000%float;
     maxDailyLossUsd := 500%float; enableAutoHedge := true;
     minBalanceUsd := 100%float |}.

(** A YES buy of 0.1 USD and a NO buy of 0.2 USD in market [m], then the
    close of the YES position. *)
Definition driftingCalls : list Call :=
  [CallRecord "m" 0.1%float YES buy None 1;
   CallRecord "m" 0.2%float NO buy None 2;
   CallClose "m" YES None].

End DoubleLedgerExamples.

Section DetectorExamples.

Import Config ArbitrageDetector.

Definition exampleArb : ArbitrageConfig :=
  {| minArbProfitPct := 0.01; maxArbProfitPct := 0.05;
     internalArbEnabled := true; crossPlatformEnabled := false;
     minLiquidityUsd := 1000; maxSlippagePct := 0.02 |}.

(** The same thresholds with internal detection switched off. *)
Definition internalOff : ArbitrageConfig :=
  {| minArbProfitPct := 0.01; maxArbProfitPct := 0.05;
     internalArbEnabled := false; crossPlatformEnabled := false;
     minLiquidityUsd := 1000; maxSlippagePct := 0.02 |}.

Definition bookAt (yes no : Q) : OrderBook :=
  {| asks := fun o =>
       match o with
       | YES => [{| price := yes; size := Some 5000 |}]
       | NO => [{| price := no; size := Some 5000 |}]
       end;
     question := Some "Will BTC hit $50k by Friday?"%string |}.

(** YES at 0.48 and NO at 0.49; YES at 0.52 and NO at 0.50. *)
Definition cheapBook : OrderBook := bookAt 0.48 0.49.
Definition dearBook : OrderBook := bookAt 0.52 0.50.

(** A book whose YES side lists 0.50, then 0.48 twice, then 0.49, and
    whose NO side is empty. *)
Definition layeredBook : OrderBook :=
  {| asks := fun o =>
       match o with
       | YES => [{| price := 0.50; size := Some 10 |};
                 {| price := 0.48; size := Some 100 |};
                 {| price := 0.48; size := Some 5000 |};
                 {| price := 0.49; size := None |}]
       | NO => []
       end;
     question := None |}.

End DetectorExamples.

Section WatcherExamples.

Import Config WalletMonitor.

Definition exampleWallet : WalletConfig :=
  {| address := "0xabc"; name := "gabagool22"; enabled := true;
     minWinRate := 0.70; maxPositionSizeUsd := 2000;
     positionSizeMultiplier := 0.01; marketsFilter := None;
     requireArbSignal := true |}.

(** A buy of 100000 YES shares of market [m1] at 0.5, seen at instant
    [ts], with no transaction id and no position id. *)
Definition rawBuy (ts : Z) : RawTrade :=
  {| positionId := None; marketNestedId := None;
     rawMarketId := Some "m1"%string; marketNestedQuestion := None;
     rawQuestion := None; rawOutcome := Some "Yes"%string;
     rawSide := Some "BUY"%string; rawPrice := 0.5; rawSize := 100000;
     rawTimestamp := Some ts; rawTxHash := None;
     rawTransactionHash := None |}.

Definition parsedBuy (ts : Z) : WalletTrade :=
  {| walletAddress := "0xabc"; walletName := "gabagool22";
     marketId := "m1"; marketQuestion := ""; outcome := YES; side := buy;
     price := 0.5; size := 100000; sizeUsd := 100000 * 0.5;
     timestamp := ts; txHash := None |}.

(** The watcher after one poll that returned [rawBuy 1000]. *)
Definition watcherAfterFirst : t :=
  checkWallet (create [exampleWallet] true) "0xabc" (Some [rawBuy 1000]) 1000.

End WatcherExamples.

(** A venue that accepts the YES leg only, and every cancel request. *)
Definition yesOnlyVenue : OrderExecutor.Venue :=
  {| OrderExecutor.placeAnswer := fun calls =>
       match last calls with
       | Some (OrderExecutor.PlaceCall _ o _ _ _) =>
           if String.eqb o "YES"
           then Some {| OrderExecutor.id := Some "order-1"%string;
                        OrderExecutor.resultOrderId := None |}
           else None
       | _ => None
       end;
     OrderExecutor.cancelAnswer := fun _ => true |}.

(** A venue that accepts every order and names it after its outcome. *)
Definition acceptingVenue : OrderExecutor.Venue :=
  {| OrderExecutor.placeAnswer := fun calls =>
       match last calls with
       | Some (OrderExecutor.PlaceCall _ o _ _ _) =>
           Some {| OrderExecutor.id := None;
                   OrderExecutor.resultOrderId := Some ("order-" +:+ o) |}
       | _ => None
       end;
     OrderExecutor.cancelAnswer := fun _ => true |}.

(** A trader for [exampleWallet] whose detector has just cached the
    opportunity of [cheapBook] on market [m1]. *)
Definition exampleTrader : CopyTrader.t :=
  {| CopyTrader.arbDetector :=
       snd (ArbitrageDetector.scanMarkets (ArbitrageDetector.create exampleArb)
              [("m1"%string, Some cheapBook)] 1000);
     CopyTrader.riskManager := RiskManager.create exampleRisk 0;
     CopyTrader.orderExecutor := OrderExecutor.create;
     CopyTrader.config := exampleWallet;
     CopyTrader.copiedTrades := ∅ |}.

(** The same trader for a wallet that needs no arbitrage signal. *)
Definition directionalTrader : CopyTrader.t :=
  {| CopyTrader.arbDetector := CopyTrader.arbDetector exampleTrader;
     CopyTrader.riskManager := CopyTrader.riskManager exampleTrader;
     CopyTrader.orderExecutor := CopyTrader.orderExecutor exampleTrader;
     CopyTrader.config :=
       {| Config.address := "0xabc"; Config.name := "gabagool22";
          Config.enabled := true; Config.minWinRate := 0.70;
          Config.maxPositionSizeUsd := 2000;
          Config.positionSizeMultiplier := 0.01;
          Config.marketsFilter := None; Config.requireArbSignal := false |};
     CopyTrader.copiedTrades := ∅ |}.

Definition cachedOpportunity : ArbitrageDetector.ArbitrageOpportunity :=
  ArbitrageDetector.internalOpportunity "m1" cheapBook 1000
    {| ArbitrageDetector.price := 0.48; ArbitrageDetector.size := Some 5000 |}
    {| ArbitrageDetector.price := 0.49; ArbitrageDetector.size := Some 5000 |}.

(** The YES order [yesOnlyVenue] accepts for 500 USD on [cachedOpportunity]. *)
Definition yesLeg : OrderExecutor.Order :=
  {| OrderExecutor.orderId := "order-1"; OrderExecutor.marketId := "m1";
     OrderExecutor.outcome := "YES"; OrderExecutor.side := "buy";
     OrderExecutor.price := 0.48;
     OrderExecutor.size := JS.div (500 * 0.5) 0.48;
     OrderExecutor.status := "pending" |}.

(** A later, smaller fill of the same market, outcome and side: 1000
    shares at 0.5, that is 500 USD. *)
Definition smallBuy : WalletMonitor.WalletTrade :=
  {| WalletMonitor.walletAddress := "0xabc";
     WalletMonitor.walletName := "gabagool22";
     WalletMonitor.marketId := "m1"; WalletMonitor.marketQuestion := "";
     WalletMonitor.outcome := YES; WalletMonitor.side := buy;
     WalletMonitor.price := 0.5; WalletMonitor.size := 1000;
     WalletMonitor.sizeUsd := 1000 * 0.5;
     WalletMonitor.timestamp := 999999; WalletMonitor.txHash := None |}.

(** An executor that tracks one accepted YES order. *)
Definition trackingExecutor : OrderExecutor.t :=
  snd (OrderExecutor.placeOrder acceptingVenue OrderExecutor.create
         "m1" "YES" "buy" 0.48 (JS.Finite 100)).

(** One poll of [exampleWallet] that returns two buys eight seconds
    apart. *)
Definition twoFills : list WalletMonitor.Poll :=
  [{| WalletMonitor.pollAddress := "0xabc";
      WalletMonitor.pollFetched := Some [rawBuy 1000; rawBuy 9000];
      WalletMonitor.pollNow := 9000 |}].

(** The buy of [rawBuy], reported by the positions endpoint under the
    position id [p1]. *)
Definition rawPosition (ts : Z) : WalletMonitor.RawTrade :=
  {| WalletMonitor.positionId := Some "p1"%string;
     WalletMonitor.marketNestedId := None;
     WalletMonitor.rawMarketId := Some "m1"%string;
     WalletMonitor.marketNestedQuestion := None;
     WalletMonitor.rawQuestion := None;
     WalletMonitor.rawOutcome := Some "Yes"%string;
     WalletMonitor.rawSide := Some "BUY"%string;
     WalletMonitor.rawPrice := 0.5; WalletMonitor.rawSize := 100000;
     WalletMonitor.rawTimestamp := Some ts;
     WalletMonitor.rawTxHash := None;
     WalletMonitor.rawTransactionHash := None |}.

(** Polls of a wallet that is not configured and of [exampleWallet]. *)
Definition mixedPolls : list WalletMonitor.Poll :=
  [{| WalletMonitor.pollAddress := "0xdef";
      WalletMonitor.pollFetched := Some [rawBuy 1000];
      WalletMonitor.pollNow := 1000 |};
   {| WalletMonitor.pollAddress := "0xabc";
      WalletMonitor.pollFetched := Some [rawBuy 1000];
      WalletMonitor.pollNow := 1000 |}].

(** A sell of NO shares by the watched wallet, in the market of
    [parsedBuy]. *)
Definition parsedSell : WalletMonitor.WalletTrade :=
  {| WalletMonitor.walletAddress := "0xabc";
     WalletMonitor.walletName := "gabagool22";
     WalletMonitor.marketId := "m1"; WalletMonitor.marketQuestion := "";
     WalletMonitor.outcome := NO; WalletMonitor.side := sell;
     WalletMonitor.price := 0.5; WalletMonitor.size := 100000;
     WalletMonitor.sizeUsd := 100000 * 0.5;
     WalletMonitor.timestamp := 1000; WalletMonitor.txHash := None |}.

(** A fill of the wallet [0xABC] in block 4990. *)
Definition exampleFill : OnChainMonitor.Event :=
  {| OnChainMonitor.transactionHash := "0xfeed";
     OnChainMonitor.blockNumber := 4990;
     OnChainMonitor.args :=
       Some {| OnChainMonitor.maker := "0xABC";
               OnChainMonitor.taker := "0x123";
               OnChainMonitor.makerTokenId := "1";
               OnChainMonitor.takerTokenId := "2";
               OnChainMonitor.makerAmount := "1000";
               OnChainMonitor.takerAmount := "480" |} |}.

(** A provider at block 5000 that returns [exampleFill] for every range,
    and one that refuses every range starting at block 4000. *)
Definition exampleChain : OnChainMonitor.Chain :=
  {| OnChainMonitor.headNumber := Some 5000%Z;
     OnChainMonitor.helperHead := Some 5000%Z;
     OnChainMonitor.fallbackHead := Some 5000%Z;
     OnChainMonitor.queryFilter :=
       fun _ _ => OnChainMonitor.Events [exampleFill];
     OnChainMonitor.getBlock := fun _ => OnChainMonitor.Block 1700000000 |}.

Definition refusingChain : OnChainMonitor.Chain :=
  {| OnChainMonitor.headNumber := Some 5000%Z;
     OnChainMonitor.helperHead := Some 5000%Z;
     OnChainMonitor.fallbackHead := Some 5000%Z;
     OnChainMonitor.queryFilter :=
       fun fromBlock _ =>
         if (fromBlock =? 4000)%Z then OnChainMonitor.TooLarge
         else OnChainMonitor.Events [exampleFill];
     OnChainMonitor.getBlock := fun _ => OnChainMonitor.Block 1700000000 |}.

(** * Properties *)

(** ** Comparisons of numbers *)

Section Numbers.

Lemma leb_reflect (a b : Q) : reflect (a <= b) (JS.leb a b).
Proof.
  unfold JS.leb. destruct (Qle_bool a b) eqn:E; constructor.
  - by apply Qle_bool_iff.
  - intros H. apply Qle_bool_iff in H. congruence.
Qed.

Lemma ltb_reflect (a b : Q) : reflect (a < b) (JS.ltb a b).
Proof.
  unfold JS.ltb. destruct (Qle_bool b a) eqn:E; constructor; simpl.
  - apply Qle_bool_iff in E. lra.
  - apply Qnot_le_lt. intros H. apply Qle_bool_iff in H. congruence.
Qed.

(** A quotient that is neither below [lo] nor above [hi] is a number
    between them, unless it is NaN; and [a / b] is NaN only at [0 / 0]. *)
Lemma div_between (lo hi a b : Q) :
  (b == 0 -> 0 < a) ->
  JS.below (JS.div a b) lo = false /\ JS.above (JS.div a b) hi = false <->
  JS.between lo hi (JS.div a b).
Proof.
  intros Hnum. unfold JS.div.
  destruct (Qeq_bool b 0) eqn:E.
  - apply Qeq_bool_iff in E. specialize (Hnum E).
    destruct (ltb_reflect 0 a); [|done]. simpl. split; [by intros [_ ?]|done].
  - simpl. destruct (ltb_reflect (a / b) lo), (ltb_reflect hi (a / b)); split.
    all: try (intros [? ?]; done).
    all: intros [? ?]; lra.
Qed.

Lemma div_nonzero (a b : Q) : ~ b == 0 -> JS.div a b = JS.Finite (a / b).
Proof.
  intros H. unfold JS.div. destruct (Qeq_bool b 0) eqn:E; [|done].
  by apply Qeq_bool_iff in E.
Qed.

End Numbers.

(** ** The exposure ledger *)

Section Ledger.

Import Config RiskManager.

(** *** Sums of sizes *)

Lemma foldl_size_acc (ps : list Position) (a : Q) :
  foldl (fun sum p => sum + sizeUsd p) a ps == a + sumSizeUsd ps.
Proof.
  unfold sumSizeUsd. revert a.
  induction ps as [|p ps IH]; intros a; simpl.
  - lra.
  - rewrite (IH (a + sizeUsd p)), (IH (0 + sizeUsd p)). lra.
Qed.

Lemma sumSizeUsd_cons (p : Position) (ps : list Position) :
  sumSizeUsd (p :: ps) == sizeUsd p + sumSizeUsd ps.
Proof.
  unfold sumSizeUsd at 1. simpl. rewrite foldl_size_acc. lra.
Qed.

Lemma sumSizeUsd_snoc (ps : list Position) (p : Position) :
  sumSizeUsd (ps ++ [p]) = sumSizeUsd ps + sizeUsd p.
Proof. unfold sumSizeUsd. by rewrite foldl_app. Qed.

(** *** [closePosition] on one market's list *)

Lemma indexOf_first_match (o : Outcome) (ps : list Position) p rest :
  filter (matches o) ps = p :: rest ->
  exists index,
    indexOf ps p = Some index /\
    delete index ps = removeFirst (matchesb o) ps /\
    matches o p /\
    S (length (delete index ps)) = length ps /\
    sumSizeUsd (delete index ps) == sumSizeUsd ps - sizeUsd p.
Proof.
  induction ps as [|q ps IH]; intros Hf; [done|].
  rewrite filter_cons in Hf. simpl. unfold matchesb at 1.
  destruct (decide (matches o q)) as [Hq|Hq].
  - injection Hf as -> _. exists 0%nat.
    rewrite decide_True by done. rewrite bool_decide_eq_true_2 by done.
    split; [done|]. split; [done|]. split; [done|]. split; [done|].
    simpl. rewrite sumSizeUsd_cons. lra.
  - destruct (IH Hf) as (i & Hi & Hdel & Hm & Hlen & Hsum).
    exists (S i). rewrite bool_decide_eq_false_2 by done.
    rewrite decide_False by (intros ->; done).
    rewrite Hi. simpl.
    split; [done|]. split; [by rewrite <- Hdel|]. split; [done|].
    split; [by rewrite Hlen|].
    rewrite !sumSizeUsd_cons, Hsum. lra.
Qed.

(** *** The flat list of open positions, market by market *)

Lemma inMarket_snoc (mid : string) (l : list Position) (p : Position) :
  inMarket mid (l ++ [p]) =
  inMarket mid l ++ (if decide (marketId p = mid) then [p] else []).
Proof.
  unfold inMarket. rewrite filter_app. f_equal.
Qed.

Lemma inMarket_removeFirst_same (mid : string) (o : Outcome)
    (l : list Position) :
  inMarket mid (removeFirst (closes mid o) l) =
  removeFirst (matchesb o) (inMarket mid l).
Proof.
  unfold inMarket. induction l as [|p l IH]; [done|].
  simpl. rewrite filter_cons. unfold closes at 1, matchesb at 1, matches.
  destruct (decide (marketId p = mid)) as [Hm|Hm].
  - simpl. destruct (decide (outcome p = o /\ side p = buy)) as [Hp|Hp].
    + rewrite !bool_decide_eq_true_2 by tauto. done.
    + rewrite !bool_decide_eq_false_2 by tauto.
      rewrite filter_cons, decide_True by done. by rewrite IH.
  - rewrite bool_decide_eq_false_2 by tauto.
    rewrite filter_cons, decide_False by done. apply IH.
Qed.

Lemma inMarket_removeFirst_other (mid mid' : string) (o : Outcome)
    (l : list Position) :
  mid' <> mid ->
  inMarket mid' (removeFirst (closes mid o) l) = inMarket mid' l.
Proof.
  intros Hne. unfold inMarket. induction l as [|p l IH]; [done|].
  simpl. unfold closes at 1.
  destruct (decide (marketId p = mid /\ outcome p = o /\ side p = buy))
    as [Hp|Hp].
  - rewrite bool_decide_eq_true_2 by done.
    rewrite filter_cons, decide_False; [done|]. destruct Hp as [-> _]. done.
  - rewrite bool_decide_eq_false_2 by done.
    rewrite !filter_cons. destruct (decide (marketId p = mid')); by rewrite IH.
Qed.

Lemma removeFirst_closes_found (mid : string) (o : Outcome)
    (l : list Position) p rest :
  filter (matches o) (inMarket mid l) = p :: rest ->
  S (length (removeFirst (closes mid o) l)) = length l /\
  sumSizeUsd (removeFirst (closes mid o) l) == sumSizeUsd l - sizeUsd p.
Proof.
  unfold inMarket. induction l as [|q l IH]; [done|].
  simpl. unfold closes at 1 3. rewrite filter_cons.
  destruct (decide (marketId q = mid /\ outcome q = o /\ side q = buy))
    as [Hq|Hq].
  - rewrite bool_decide_eq_true_2 by done.
    destruct Hq as (Hm & Ho & Hs).
    rewrite decide_True by done. rewrite filter_cons.
    rewrite decide_True by (split; done).
    intros [= -> _]. split; [done|]. rewrite sumSizeUsd_cons. lra.
  - rewrite bool_decide_eq_false_2 by done. intros Hf.
    assert (filter (matches o) (filter (fun p => marketId p = mid) l)
            = p :: rest) as Hf'.
    { destruct (decide (marketId q = mid)) as [Hm|Hm]; [|done].
      rewrite filter_cons in Hf.
      destruct (decide (matches o q)) as [[Ho Hs]|Hn]; [|done].
      exfalso. apply Hq. done. }
    destruct (IH Hf') as [Hlen Hsum]. split.
    + simpl. by rewrite Hlen.
    + rewrite !sumSizeUsd_cons, Hsum. lra.
Qed.

Lemma removeFirst_closes_none (mid : string) (o : Outcome)
    (l : list Position) :
  filter (matches o) (inMarket mid l) = [] ->
  removeFirst (closes mid o) l = l.
Proof.
  unfold inMarket. induction l as [|q l IH]; [done|].
  simpl. unfold closes at 1. rewrite filter_cons.
  destruct (decide (marketId q = mid /\ outcome q = o /\ side q = buy))
    as [Hq|Hq].
  - destruct Hq as (Hm & Ho & Hs).
    rewrite decide_True by done. rewrite filter_cons.
    rewrite decide_True by (split; done). done.
  - rewrite bool_decide_eq_false_2 by done. intros Hf. f_equal. apply IH.
    destruct (decide (marketId q = mid)) as [Hm|Hm]; [|done].
    rewrite filter_cons in Hf.
    destruct (decide (matches o q)) as [[Ho Hs]|Hn]; [done|done].
Qed.

(** *** The ledger's map *)

Lemma countPositions_insert (m : gmap string (list Position)) (k : string)
    (l' : list Position) :
  (countPositions (<[k := l']> m) + length (default [] (m !! k))
   = countPositions m + length l')%nat.
Proof.
  unfold countPositions.
  destruct (m !! k) as [l|] eqn:E; simpl.
  - rewrite <- insert_delete_eq.
    rewrite map_fold_insert_L; [|intros; lia|apply lookup_delete_eq].
    rewrite (map_fold_delete_L _ _ k l m); [lia|intros; lia|done].
  - rewrite map_fold_insert_L; [lia|intros; lia|done].
Qed.

Lemma recordPosition_positions rm mid size o s entry now :
  positions (recordPosition rm mid size o s entry now) =
  <[mid := default [] (positions rm !! mid) ++
           [{| marketId := mid; outcome := o; side := s; sizeUsd := size;
               entryPrice := JS.orElse entry 0; timestamp := now |}]]>
    (positions rm).
Proof.
  unfold recordPosition; simpl.
  destruct (positions rm !! mid) as [l|] eqn:E; simpl.
  - by rewrite E.
  - by rewrite lookup_insert_eq, insert_insert_eq.
Qed.

(** What [closePosition] does, case by case. *)
Lemma closePosition_none rm mid o exit :
  filter (matches o) (default [] (positions rm !! mid)) = [] ->
  closePosition rm mid o exit = (None, rm).
Proof.
  unfold closePosition. destruct (positions rm !! mid) as [[|q ps]|]; simpl;
    [done| |done].
  intros ->. done.
Qed.

Lemma closePosition_some rm mid o exit p rest :
  filter (matches o) (default [] (positions rm !! mid)) = p :: rest ->
  exists index,
    indexOf (default [] (positions rm !! mid)) p = Some index /\
    closePosition rm mid o exit =
      (Some (realizedPnl exit p),
       {| config := config rm;
          positions :=
            <[mid := delete index (default [] (positions rm !! mid))]>
              (positions rm);
          totalExposure := totalExposure rm - sizeUsd p;
          dailyPnl := dailyPnl rm + realizedPnl exit p;
          lastResetDate := lastResetDate rm |}).
Proof.
  intros Hf.
  destruct (indexOf_first_match _ _ _ _ Hf) as (i & Hi & _).
  exists i. split; [done|].
  unfold closePosition.
  destruct (positions rm !! mid) as [[|q ps]|] eqn:E; simpl in *;
    [done| |done].
  rewrite Hf. simpl in Hi. by rewrite Hi.
Qed.

Lemma agrees_create cfg now : agrees (create cfg now) [].
Proof.
  split; simpl.
  - intros mid. by rewrite lookup_empty.
  - reflexivity.
  - unfold countPositions. by rewrite map_fold_empty.
Qed.

Lemma agrees_step rm open c :
  agrees rm open -> agrees (step rm c) (openStep open c).
Proof.
  intros [Hm Ht Hc]. destruct c as [mid size o s entry now|mid o exit]; simpl.
  - split.
    + intros mid'. rewrite recordPosition_positions, inMarket_snoc. simpl.
      destruct (decide (mid = mid')) as [<-|Hne].
      * by rewrite lookup_insert_eq, Hm.
      * rewrite lookup_insert_ne by done. by rewrite app_nil_r.
    + simpl. rewrite sumSizeUsd_snoc, Ht. reflexivity.
    + rewrite recordPosition_positions.
      pose proof (countPositions_insert (positions rm) mid
        (default [] (positions rm !! mid) ++
           [{| marketId := mid; outcome := o; side := s; sizeUsd := size;
               entryPrice := JS.orElse entry 0; timestamp := now |}])) as Hk.
      rewrite length_app in *. simpl in *. lia.
  - destruct (filter (matches o) (default [] (positions rm !! mid)))
      as [|p rest] eqn:Hf.
    + rewrite closePosition_none by done. simpl.
      rewrite removeFirst_closes_none by (by rewrite <- Hm).
      by split.
    + destruct (closePosition_some rm mid o exit p rest Hf)
        as (i & Hi & ->). simpl.
      destruct (indexOf_first_match _ _ _ _ Hf)
        as (i' & Hi' & Hdel & _ & Hlen & Hsum).
      assert (i' = i) as -> by congruence.
      destruct (removeFirst_closes_found mid o open p rest) as [Hl Hs];
        [by rewrite <- Hm|].
      split; simpl.
      * intros mid'. destruct (decide (mid = mid')) as [<-|Hne].
        -- rewrite lookup_insert_eq. simpl.
           by rewrite inMarket_removeFirst_same, <- Hm.
        -- rewrite lookup_insert_ne by done.
           by rewrite inMarket_removeFirst_other.
      * rewrite Hs, Ht. reflexivity.
      * pose proof (countPositions_insert (positions rm) mid
          (delete i (default [] (positions rm !! mid)))) as Hk.
        lia.
Qed.

Lemma agrees_run cs : forall rm open,
  agrees rm open -> agrees (run rm cs) (foldl openStep open cs).
Proof.
  induction cs as [|c cs IH]; intros rm open H; [done|].
  simpl. apply IH. by apply agrees_step.
Qed.

End Ledger.

Section LedgerTheorems.

Import Config RiskManager.

(** C2. [canOpenPosition] answers [true] exactly when the three checks
    pass: the daily PnL is above minus the daily-loss ceiling, the total
    exposure plus the proposed size is at most the total ceiling, and
    the market's exposure plus the proposed size is at most the
    per-market ceiling (equality with a ceiling passes).  The checks
    run in this order and the first one that fails is the one that
    rejects; a breached daily-loss ceiling rejects whatever the size. *)
Theorem canOpenPosition_admission (rm : t) (mid : string) (size : Q) :
  (canOpenPosition rm mid size = true <->
     - maxDailyLossUsd (config rm) < dailyPnl rm /\
     totalExposure rm + size <= maxTotalExposureUsd (config rm) /\
     sumSizeUsd (default [] (positions rm !! mid)) + size
       <= maxPositionPerMarketUsd (config rm)) /\
  (dailyPnl rm <= - maxDailyLossUsd (config rm) ->
     canOpenPositionLog rm mid size = (false, Some DailyLossLimitReached)) /\
  (- maxDailyLossUsd (config rm) < dailyPnl rm ->
   maxTotalExposureUsd (config rm) < totalExposure rm + size ->
     canOpenPositionLog rm mid size
       = (false, Some TotalExposureLimitExceeded)) /\
  (- maxDailyLossUsd (config rm) < dailyPnl rm ->
   totalExposure rm + size <= maxTotalExposureUsd (config rm) ->
   maxPositionPerMarketUsd (config rm)
     < sumSizeUsd (default [] (positions rm !! mid)) + size ->
     canOpenPositionLog rm mid size
       = (false, Some MarketExposureLimitExceeded)).
Proof.
  unfold canOpenPosition, canOpenPositionLog.
  destruct (leb_reflect (dailyPnl rm) (- maxDailyLossUsd (config rm)));
    destruct (ltb_reflect (maxTotalExposureUsd (config rm))
                          (totalExposure rm + size));
    destruct (ltb_reflect (maxPositionPerMarketUsd (config rm))
                (sumSizeUsd (default [] (positions rm !! mid)) + size));
    simpl; (split; [split; [done || (intros _; lra) | intros; (done || lra)]|]);
    (split; [intros; (done || lra)|]);
    (split; intros; (done || lra)).
Qed.

(** In exact arithmetic the running total is the sum.  After any
    sequence of [recordPosition] and [closePosition] calls on a new
    ledger whose numbers are exact rationals, the ledger holds, market by
    market, the open positions, and the snapshot reports as total
    exposure the sum of their sizes, as exposure of a market the sum over
    that market's open positions (a market without an entry has no open
    position), and as [openPositions] their number.  The ledger of the
    code, in double precision, is the subject of
    [snapshot_follows_the_calls]. *)
Theorem snapshot_matches_open_positions (cfg : RiskConfig) (t0 : Z)
    (cs : list Call) (now : Z) :
  let snapshot := fst (getExposure (run (create cfg t0) cs) now) in
  (forall mid,
     default [] (positions (run (create cfg t0) cs) !! mid)
     = inMarket mid (openAfter cs)) /\
  totalExposureUsd snapshot == sumSizeUsd (openAfter cs) /\
  (forall mid,
     match marketExposures snapshot !! mid with
     | Some exposure => exposure = sumSizeUsd (inMarket mid (openAfter cs))
     | None => inMarket mid (openAfter cs) = []
     end) /\
  openPositions snapshot = length (openAfter cs).
Proof.
  pose proof (agrees_run cs _ _ (agrees_create cfg t0)) as [Hm Ht Hc].
  fold (openAfter cs) in *.
  assert (forall rm, positions (resetIfNewDay rm now) = positions rm
                     /\ totalExposure (resetIfNewDay rm now) = totalExposure rm)
    as Hreset.
  { intros rm. unfold resetIfNewDay. by case_decide. }
  simpl. destruct (Hreset (run (create cfg t0) cs)) as [-> ->].
  split; [done|]. split; [done|]. split; [|done].
  intros mid. rewrite lookup_fmap. specialize (Hm mid).
  destruct (positions (run (create cfg t0) cs) !! mid); simpl in *;
    by rewrite Hm.
Qed.

(** The lazy reset of [getExposure], as the code decides it: on the day
    of the month. *)
Lemma getExposure_other_day_of_month (rm : t) (now : Z) :
  JS.getDate now <> JS.getDate (lastResetDate rm) ->
  dailyPnlUsd (fst (getExposure rm now)) = 0 /\
  lastResetDate (snd (getExposure rm now)) = now.
Proof.
  intros H. unfold getExposure, resetIfNewDay. simpl.
  by rewrite decide_True.
Qed.

Lemma getExposure_same_day (rm : t) (now : Z) :
  JS.dayNumber now = JS.dayNumber (lastResetDate rm) ->
  dailyPnlUsd (fst (getExposure rm now)) = dailyPnl rm /\
  snd (getExposure rm now) = rm.
Proof.
  intros H. unfold getExposure, resetIfNewDay. simpl.
  rewrite decide_False; [done|]. unfold JS.getDate. rewrite H. tauto.
Qed.

(** C8. A snapshot taken on 15 February from a ledger last reset on
    15 January, a different calendar day with the same day of the
    month: the loss of January is still reported as today's PnL and the
    reset day is not updated. *)
Theorem getExposure_misses_new_day :
  JS.dayNumber feb15 <> JS.dayNumber (lastResetDate ledgerAfterLoss) /\
  (JS.getFullYear jan15, JS.getMonth jan15, JS.getDate jan15)
    = (2024, 0, 15)%Z /\
  (JS.getFullYear feb15, JS.getMonth feb15, JS.getDate feb15)
    = (2024, 1, 15)%Z /\
  dailyPnl ledgerAfterLoss == -100 /\
  dailyPnlUsd (fst (getExposure ledgerAfterLoss feb15)) == -100 /\
  lastResetDate (snd (getExposure ledgerAfterLoss feb15)) = jan15.
Proof. by vm_compute. Qed.

(** A position whose entry price is zero realizes no PnL. *)
Lemma realizedPnl_zero_entry (exit : option Q) (p : Position) :
  entryPrice p == 0 -> realizedPnl exit p = 0.
Proof.
  intros H. unfold realizedPnl. destruct exit as [x|]; [|done].
  destruct (ltb_reflect 0 (entryPrice p)); [lra|].
  by rewrite andb_false_r.
Qed.

End LedgerTheorems.

(** C2, at a ledger holding 1500 USD in market [m]: 500 more are admitted
    (the per-market ceiling is reached exactly), 501 are not; after a
    loss of 500 nothing is admitted, not even a size of zero. *)
Lemma canOpenPosition_admission_witness :
  let cfg := exampleRisk in
  let rm := RiskManager.run (RiskManager.create cfg 0)
              [RiskManager.CallRecord "m" 1500 YES buy None 1] in
  let lost := RiskManager.run (RiskManager.create cfg 0)
              [RiskManager.CallRecord "m" 1000 YES buy (Some 0.5) 1;
               RiskManager.CallClose "m" YES (Some 0.25)] in
  RiskManager.canOpenPosition rm "m" 500 = true /\
  RiskManager.canOpenPositionLog rm "m" 501
    = (false, Some RiskManager.MarketExposureLimitExceeded) /\
  RiskManager.canOpenPositionLog rm "k" 8501
    = (false, Some RiskManager.TotalExposureLimitExceeded) /\
  RiskManager.canOpenPositionLog lost "m" 0
    = (false, Some RiskManager.DailyLossLimitReached).
Proof.
  intros cfg rm lost.
  split; [|split; [|split]].
  - apply (proj1 (canOpenPosition_admission rm "m" 500)). by vm_compute.
  - apply (proj2 (proj2 (proj2 (canOpenPosition_admission rm "m" 501))));
      by vm_compute.
  - apply (proj1 (proj2 (proj2 (canOpenPosition_admission rm "k" 8501))));
      by vm_compute.
  - apply (proj1 (proj2 (canOpenPosition_admission lost "m" 0))).
    by vm_compute.
Defined.

(** ** The arbitrage detector and its cache *)

Section Detector.

Import Config ArbitrageDetector.

(** *** The best ask is the lowest one *)

Lemma head_insertAsk (a : Ask) (l : list Ask) :
  head (insertAsk a l) =
  match head l with
  | Some b => if Qle_bool (price a) (price b) then Some a else Some b
  | None => Some a
  end.
Proof. destruct l as [|b l]; simpl; [done|]. by destruct (Qle_bool _ _). Qed.

Lemma getBestAsk_lowest (book : OrderBook) (o : Outcome) (a : Ask) :
  getBestAsk book o = Some a ->
  a ∈ asks book o /\ forall b, b ∈ asks book o -> price a <= price b.
Proof.
  unfold getBestAsk, sortAsks. generalize (asks book o) as l.
  induction l as [|x l IH] in a |- *; simpl; [done|].
  rewrite head_insertAsk.
  destruct (head (foldr insertAsk [] l)) as [b|] eqn:Hb.
  - destruct (IH b eq_refl) as [Hin Hmin].
    destruct (Qle_bool (price x) (price b)) eqn:E; intros [= <-].
    + apply Qle_bool_iff in E. split; [left|].
      intros c [->|Hc]%elem_of_cons; [lra|]. specialize (Hmin c Hc). lra.
    + assert (price b < price x) as Hlt.
      { apply Qnot_le_lt. intros H. apply Qle_bool_iff in H. congruence. }
      split; [by right|].
      intros c [->|Hc]%elem_of_cons; [lra|]. by apply Hmin.
  - intros [= <-]. destruct l as [|y l].
    + split; [left|]. intros c [->|Hc]%elem_of_cons; [lra|].
      by apply elem_of_nil in Hc.
    + simpl in Hb. rewrite head_insertAsk in Hb.
      destruct (head (foldr insertAsk [] l)); [|done].
      by destruct (Qle_bool _ _).
Qed.

(** *** One scan *)

Lemma detectInternalArbitrage_marketId mid book now opp :
  detectInternalArbitrage mid book now = Some opp -> marketId opp = mid.
Proof.
  unfold detectInternalArbitrage.
  destruct (getBestAsk book YES), (getBestAsk book NO); try done.
  destruct (JS.ltb _ _); [|done]. by intros [= <-].
Qed.

Lemma validOnly_Some cfg o opp :
  validOnly cfg o = Some opp <-> o = Some opp /\ isValid cfg opp = true.
Proof.
  unfold validOnly. destruct o as [x|].
  - destruct (isValid cfg x) eqn:E; split.
    + by intros [= <-].
    + by intros [[= <-] _].
    + done.
    + intros [[= <-] Hv]. congruence.
  - split; [done|by intros [? _]].
Qed.

Lemma scanMarket_Some cfg mid fetched now opp :
  scanMarket cfg mid fetched now = Some opp <->
  exists book,
    fetched = Some book /\ internalArbEnabled cfg = true /\
    detectInternalArbitrage mid book now = Some opp /\
    isValid cfg opp = true.
Proof.
  unfold scanMarket, detectCrossPlatformArbitrage.
  destruct fetched as [book|]; [|split; [done|by intros (b & ? & _)]].
  destruct (internalArbEnabled cfg).
  - destruct (validOnly cfg (detectInternalArbitrage mid book now)) as [x|]
      eqn:E.
    + apply validOnly_Some in E. destruct E as [Hd Hv]. split.
      * intros [= <-]. by exists book.
      * intros (b & [= <-] & _ & Hd' & _). congruence.
    + split.
      * by destruct (crossPlatformEnabled cfg).
      * intros (b & [= <-] & _ & Hd & Hv).
        assert (validOnly cfg (detectInternalArbitrage mid book now)
                = Some opp) by (by apply validOnly_Some).
        congruence.
  - split; [by destruct (crossPlatformEnabled cfg)|].
    by intros (b & _ & ? & _).
Qed.

Lemma scanMarket_marketId cfg mid fetched now opp :
  scanMarket cfg mid fetched now = Some opp -> marketId opp = mid.
Proof.
  intros (book & _ & _ & H & _)%scanMarket_Some.
  by eapply detectInternalArbitrage_marketId.
Qed.

Lemma isValid_true cfg opp :
  isValid cfg opp = true <->
  (JS.below (profitPct opp) (minArbProfitPct cfg) = false /\
   JS.above (profitPct opp) (maxArbProfitPct cfg) = false) /\
  minLiquidityUsd cfg <= liquidityYes opp /\
  minLiquidityUsd cfg <= liquidityNo opp.
Proof.
  unfold isValid.
  destruct (JS.below (profitPct opp) (minArbProfitPct cfg));
    [split; [done|by intros [[? _] _]]|].
  destruct (JS.above (profitPct opp) (maxArbProfitPct cfg));
    [split; [done|by intros [[_ ?] _]]|].
  destruct (ltb_reflect (liquidityYes opp) (minLiquidityUsd cfg));
    destruct (ltb_reflect (liquidityNo opp) (minLiquidityUsd cfg));
    split; (done || (intros; lra) || (intros; repeat split; (done || lra))).
Qed.

(** *** The cache after a batch *)

Lemma store_snoc cache opps opp :
  store cache (opps ++ [opp]) = <[marketId opp := opp]> (store cache opps).
Proof. unfold store. by rewrite foldl_app. Qed.

Lemma store_found_lookup cfg cache scans now mid :
  store cache (found cfg scans now) !! mid =
  match last (foundFor cfg scans now mid) with
  | Some opp => Some opp
  | None => cache !! mid
  end.
Proof.
  unfold foundFor, found.
  induction scans as [|[m fetched] scans IH] using rev_ind; [done|].
  rewrite filter_app, !omap_app, filter_cons, filter_nil. simpl.
  destruct (scanMarket cfg m fetched now) as [opp|] eqn:E; simpl.
  - rewrite store_snoc. pose proof (scanMarket_marketId _ _ _ _ _ E) as ->.
    destruct (decide (m = mid)) as [->|Hne]; simpl.
    + rewrite E. simpl. by rewrite lookup_insert_eq, last_snoc.
    + by rewrite lookup_insert_ne, app_nil_r.
  - rewrite app_nil_r. destruct (decide (m = mid)); simpl.
    + by rewrite E, app_nil_r.
    + by rewrite app_nil_r.
Qed.

End Detector.

Section DetectorTheorems.

Import Config ArbitrageDetector.

(** C3, as stated, fails: market [M] is scanned three times; the first
    scan finds a valid opportunity, the second finds none on a book
    without arbitrage, the third fails to fetch the book.  The cache
    still holds the opportunity of the first scan, and
    [hasOpportunity] still answers [true]. *)
Lemma scanMarkets_keeps_stale_entry :
  let d1 := snd (scanMarkets (create exampleArb) [("M"%string, Some cheapBook)] 1000) in
  let d2 := snd (scanMarkets d1 [("M"%string, Some dearBook)] 2000) in
  let d3 := snd (scanMarkets d2 [("M"%string, None)] 3000) in
  scanMarket exampleArb "M" (Some dearBook) 2000 = None /\
  scanMarket exampleArb "M" None 3000 = None /\
  (exists stale,
     timestamp stale = 1000%Z /\
     getOpportunity d1 "M" = Some stale /\
     getOpportunity d2 "M" = Some stale /\
     getOpportunity d3 "M" = Some stale) /\
  hasOpportunity d3 "M" = true.
Proof.
  split; [by vm_compute|]. split; [by vm_compute|]. split; [|by vm_compute].
  eexists. split; [|split; [vm_compute; reflexivity|by vm_compute]].
  by vm_compute.
Qed.

(** C3, amended.  A scan that finds a valid opportunity replaces the
    entry of its market; a scan that finds none leaves the cache as it
    was.  For a batch: the entry of a market is the last valid
    opportunity the batch found for it, and the prior entry when it
    found none. *)
Theorem scanMarkets_cache_update (d : t)
    (scans : list (string * option OrderBook)) (now : Z) (mid : string)
    (fetched : option OrderBook) :
  activeOpportunities (snd (scanMarkets d [(mid, fetched)] now)) =
    match scanMarket (config d) mid fetched now with
    | Some opp => <[mid := opp]> (activeOpportunities d)
    | None => activeOpportunities d
    end /\
  activeOpportunities (snd (scanMarkets d scans now)) !! mid =
    match last (foundFor (config d) scans now mid) with
    | Some opp => Some opp
    | None => activeOpportunities d !! mid
    end.
Proof.
  split; [|apply store_found_lookup].
  unfold scanMarkets, found; simpl.
  destruct (scanMarket (config d) mid fetched now) as [opp|] eqn:E; [|done].
  simpl. by rewrite (scanMarket_marketId _ _ _ _ _ E).
Qed.

Lemma detectInternalArbitrage_eq mid book now y n :
  getBestAsk book YES = Some y ->
  getBestAsk book NO = Some n ->
  detectInternalArbitrage mid book now =
    if JS.ltb (feeAdjusted (price y + price n)) 0.99
    then Some (internalOpportunity mid book now y n)
    else None.
Proof. intros Hy Hn. unfold detectInternalArbitrage. by rewrite Hy, Hn. Qed.

(** C5, as stated, fails: with internal detection switched off the book
    at 0.48 and 0.49 passes every test of the claim and [scanMarket]
    returns nothing. *)
Lemma scanMarket_needs_internal_enabled :
  let fee := feeAdjusted (0.48 + 0.49) in
  getBestAsk cheapBook YES = Some {| price := 0.48; size := Some 5000 |} /\
  getBestAsk cheapBook NO = Some {| price := 0.49; size := Some 5000 |} /\
  fee < 0.99 /\
  JS.between (minArbProfitPct internalOff) (maxArbProfitPct internalOff)
    (JS.div (1 - fee) fee) /\
  minLiquidityUsd internalOff <= 5000 * 0.48 /\
  minLiquidityUsd internalOff <= 5000 * 0.49 /\
  scanMarket internalOff "M" (Some cheapBook) 1000 = None.
Proof. by vm_compute. Qed.

(** C5, amended.  With internal detection enabled, on a fetched book
    whose best asks are [y] and [n], [scanMarket] returns an opportunity
    exactly when the fee-adjusted cost [(y + n) * 1.01] is below 0.99,
    the profit fraction [(1 - fee) / fee] lies between the configured
    bounds and the liquidity of both legs, price times depth, reaches the
    configured minimum; the opportunity returned is the internal one,
    carrying these numbers.  At 0.48 and 0.49 the fee-adjusted cost is
    0.9797 and the profit fraction is between 0.0207 and 0.0208; at 0.52
    and 0.50 nothing is returned. *)
Theorem scanMarket_internal (cfg : ArbitrageConfig) (mid : string)
    (book : OrderBook) (now : Z) (y n : Ask) :
  internalArbEnabled cfg = true ->
  getBestAsk book YES = Some y ->
  getBestAsk book NO = Some n ->
  let fee := feeAdjusted (price y + price n) in
  let profit := JS.div (1 - fee) fee in
  (is_Some (scanMarket cfg mid (Some book) now) <->
     fee < 0.99 /\
     JS.between (minArbProfitPct cfg) (maxArbProfitPct cfg) profit /\
     minLiquidityUsd cfg <= JS.orElse (size y) 0 * price y /\
     minLiquidityUsd cfg <= JS.orElse (size n) 0 * price n) /\
  (forall opp,
     scanMarket cfg mid (Some book) now = Some opp ->
     opp = internalOpportunity mid book now y n /\
     opportunityType opp = internal /\ profitPct opp = profit) /\
  (price y == 0.48 -> price n == 0.49 ->
     fee == 0.9797 /\ JS.between 0.0207 0.0208 profit) /\
  (price y == 0.52 -> price n == 0.50 ->
     scanMarket cfg mid (Some book) now = None).
Proof.
  intros Hen Hy Hn fee profit.
  pose proof (detectInternalArbitrage_eq mid book now y n Hy Hn) as Hd.
  fold fee in Hd.
  assert (forall opp,
    scanMarket cfg mid (Some book) now = Some opp <->
    fee < 0.99 /\ opp = internalOpportunity mid book now y n /\
    isValid cfg opp = true) as Hscan.
  { intros opp. rewrite scanMarket_Some. split.
    - intros (b & [= <-] & _ & Hdet & Hv). rewrite Hd in Hdet.
      destruct (ltb_reflect fee 0.99); [|done].
      injection Hdet as <-. done.
    - intros (Hlt & -> & Hv). exists book. repeat split; try done.
      rewrite Hd. by destruct (ltb_reflect fee 0.99). }
  assert (isValid cfg (internalOpportunity mid book now y n) = true <->
    JS.between (minArbProfitPct cfg) (maxArbProfitPct cfg) profit /\
    minLiquidityUsd cfg <= JS.orElse (size y) 0 * price y /\
    minLiquidityUsd cfg <= JS.orElse (size n) 0 * price n) as Hvalid.
  { rewrite isValid_true. simpl. fold fee profit. subst profit.
    rewrite div_between; [done|]. intros ->. reflexivity. }
  split; [|split; [|split]].
  - split.
    + intros [opp (Hlt & -> & Hv)%Hscan]. split; [done|]. by apply Hvalid.
    + intros (Hlt & Hv). exists (internalOpportunity mid book now y n).
      apply Hscan. split; [done|]. split; [done|]. by apply Hvalid.
  - intros opp (Hlt & -> & Hv)%Hscan. done.
  - intros Ey En.
    assert (fee == 0.9797) as Hfee.
    { subst fee. unfold feeAdjusted. rewrite Ey, En. reflexivity. }
    split; [done|]. subst profit.
    rewrite div_nonzero by (rewrite Hfee; done). simpl.
    rewrite Hfee. by vm_compute.
  - intros Ey En.
    destruct (scanMarket cfg mid (Some book) now) as [opp|] eqn:E; [|done].
    destruct (proj1 (Hscan opp) eq_refl) as (Hlt & _). exfalso.
    subst fee. unfold feeAdjusted in Hlt. rewrite Ey, En in Hlt.
    revert Hlt. by vm_compute.
Qed.

End DetectorTheorems.

(** C5, on the book of the workflow example (0.48 and 0.49, 5000 shares
    deep on both sides) under the example thresholds. *)
Lemma scanMarket_internal_witness :
  is_Some (ArbitrageDetector.scanMarket exampleArb "M" (Some cheapBook) 1000)
  /\ ArbitrageDetector.scanMarket exampleArb "M" (Some dearBook) 1000 = None.
Proof.
  split.
  - apply (proj1 (scanMarket_internal exampleArb "M" cheapBook 1000
             {| ArbitrageDetector.price := 0.48;
                ArbitrageDetector.size := Some 5000 |}
             {| ArbitrageDetector.price := 0.49;
                ArbitrageDetector.size := Some 5000 |}
             eq_refl eq_refl eq_refl)).
    by vm_compute.
  - apply (proj2 (proj2 (proj2 (scanMarket_internal exampleArb "M" dearBook 1000
             {| ArbitrageDetector.price := 0.52;
                ArbitrageDetector.size := Some 5000 |}
             {| ArbitrageDetector.price := 0.50;
                ArbitrageDetector.size := Some 5000 |}
             eq_refl eq_refl eq_refl))));
      by vm_compute.
Defined.

(** ** The wallet watcher *)

Section Watcher.

Import Config WalletMonitor.

(** A recorded trade that [sameFill] matches makes the trade old. *)
Lemma isNewAmong_sameFill (l : list WalletTrade) (trade earlier : WalletTrade) :
  earlier ∈ l -> sameFill trade earlier = true -> isNewAmong l trade = false.
Proof.
  induction l as [|x l IH]; intros Hin Hs; [by apply elem_of_nil in Hin|].
  simpl. destruct (sameTx trade x); [done|].
  apply elem_of_cons in Hin as [<-|Hin]; [by rewrite Hs|].
  destruct (sameFill trade x); [done|]. by apply IH.
Qed.

Lemma sameFill_true (trade earlier : WalletTrade) :
  sameFill trade earlier = true <->
  marketId earlier = marketId trade /\ outcome earlier = outcome trade /\
  side earlier = side trade /\
  (Z.abs (timestamp earlier - timestamp trade) < 5000)%Z.
Proof.
  unfold sameFill.
  rewrite !andb_true_iff, !bool_decide_eq_true, Z.ltb_lt. tauto.
Qed.

Lemma parseTrade_walletAddress raw cfg now trade :
  parseTrade raw cfg now = Some trade -> walletAddress trade = address cfg.
Proof.
  unfold parseTrade. intros H.
  repeat case_match; try done. by injection H as <-.
Qed.

Lemma logged_observe addr cfg now wm tradeData :
  address cfg = addr -> logged wm ->
  logged (observe addr cfg now wm tradeData).
Proof.
  intros Haddr Hl. unfold observe.
  destruct (parseTrade tradeData cfg now) as [trade|] eqn:Hp; [|done].
  apply parseTrade_walletAddress in Hp as Hw.
  assert (forall wm0, logged wm0 -> logged (emitIfNew wm0 addr trade)) as He.
  { intros wm0 H0. unfold emitIfNew. destruct (isNewTrade wm0 trade); [|done].
    intros x Hx. unfold emit in *; simpl in *.
    assert (x ∈ callbackLog wm0 \/ x = trade) as [Hin | ->].
    { destruct (tradeCallback wm0); [|by left].
      apply elem_of_app in Hx as [?|Hx]; [by left|right].
      by apply list_elem_of_singleton in Hx. }
    - specialize (H0 x Hin).
      destruct (decide (addr = walletAddress x)) as [->|Hne].
      + rewrite lookup_insert_eq. simpl. apply elem_of_app. by left.
      + by rewrite lookup_insert_ne.
    - rewrite Hw, Haddr, lookup_insert_eq. simpl.
      apply elem_of_app. right. by apply list_elem_of_singleton. }
  destruct (JS.truthyStr (positionId tradeData)) as [pid|]; [|by apply He].
  case_decide; [done|]. by apply He.
Qed.

End Watcher.

Section WatcherTheorems.

Import Config WalletMonitor.

(** C7. A trade that shares market, outcome and side with a trade
    already recorded for the wallet, less than five seconds apart, is
    classified as a duplicate by [isNewTrade], with or without a
    transaction id, and [checkWallet] does not emit it: the history, the
    watermark and the callback log stay as they were. *)
Theorem duplicate_fill_not_emitted (wm : t) (addr : string)
    (cfg : WalletConfig) (now : Z) (tradeData : RawTrade)
    (trade earlier : WalletTrade) :
  address cfg = addr ->
  parseTrade tradeData cfg now = Some trade ->
  earlier ∈ default [] (tradeHistory wm !! addr) ->
  marketId earlier = marketId trade ->
  outcome earlier = outcome trade ->
  side earlier = side trade ->
  (Z.abs (timestamp earlier - timestamp trade) < 5000)%Z ->
  isNewTrade wm trade = false /\
  sameRecord (observe addr cfg now wm tradeData) wm.
Proof.
  intros Haddr Hp Hin Hm Ho Hs Ht.
  apply parseTrade_walletAddress in Hp as Hw.
  assert (forall wm0, tradeHistory wm0 = tradeHistory wm ->
                      isNewTrade wm0 trade = false) as Hold.
  { intros wm0 H0. unfold isNewTrade. rewrite H0, Hw, Haddr.
    apply (isNewAmong_sameFill _ _ earlier); [done|].
    by apply sameFill_true. }
  split; [by apply Hold|].
  unfold observe. rewrite Hp.
  destruct (JS.truthyStr (positionId tradeData)) as [pid|].
  - case_decide; [done|]. unfold emitIfNew. by rewrite Hold.
  - unfold emitIfNew. by rewrite Hold.
Qed.

End WatcherTheorems.

(** C7, on two fills of the same market 4.999 seconds apart. *)
Lemma duplicate_fill_not_emitted_witness :
  WalletMonitor.callbackLog watcherAfterFirst = [parsedBuy 1000] /\
  WalletMonitor.isNewTrade watcherAfterFirst (parsedBuy 5999) = false /\
  WalletMonitor.sameRecord
    (WalletMonitor.observe "0xabc" exampleWallet 6000 watcherAfterFirst
       (rawBuy 5999))
    watcherAfterFirst.
Proof.
  split; [by vm_compute|].
  apply (duplicate_fill_not_emitted watcherAfterFirst "0xabc" exampleWallet
           6000 (rawBuy 5999) (parsedBuy 5999) (parsedBuy 1000)).
  - reflexivity.
  - by vm_compute.
  - vm_compute. left.
  - reflexivity.
  - reflexivity.
  - reflexivity.
  - by vm_compute.
Defined.

(** ** The order gateway *)

Section Gateway.

Import OrderExecutor.

Lemma placeOrder_calls v ex mid o s p sz :
  calls (snd (placeOrder v ex mid o s p sz))
  = calls ex ++ [PlaceCall mid o s p sz].
Proof. unfold placeOrder. by repeat case_match. Qed.

Lemma placeOrder_Some v ex mid o s p sz order :
  fst (placeOrder v ex mid o s p sz) = Some order ->
  activeOrders (snd (placeOrder v ex mid o s p sz))
    = <[orderId order := order]> (activeOrders ex) /\
  status order = "pending"%string.
Proof.
  unfold placeOrder. repeat case_match; simpl; try done.
  by intros [= <-].
Qed.

Lemma placeOrder_None v ex mid o s p sz :
  fst (placeOrder v ex mid o s p sz) = None ->
  activeOrders (snd (placeOrder v ex mid o s p sz)) = activeOrders ex.
Proof. unfold placeOrder. by repeat case_match. Qed.

(** Cancelling a tracked order sends the request; the order is marked
    cancelled when the venue accepts. *)
Lemma cancelOrder_tracked v ex order :
  activeOrders ex !! orderId order = Some order ->
  let ex' := snd (cancelOrder v ex (orderId order)) in
  calls ex' = calls ex ++ [CancelCall (orderId order)] /\
  activeOrders ex' !! orderId order =
    Some (if cancelAnswer v (calls ex') then markCancelled order else order).
Proof.
  intros H. unfold cancelOrder. rewrite H.
  destruct (cancelAnswer v (calls ex ++ [CancelCall (orderId order)])) eqn:E;
    simpl; rewrite E; [|done].
  by rewrite lookup_alter_eq, H.
Qed.

End Gateway.

(** ** The replication engine *)

Section Replication.

Import Config WalletMonitor CopyTrader.

Lemma executeArbitrageTrade_copied v w arbOpp size now :
  copiedTrades (snd (executeArbitrageTrade v w arbOpp size now))
  = copiedTrades w.
Proof. unfold executeArbitrageTrade. by repeat case_match. Qed.

Lemma executeCopyTrade_copied v w trade size now :
  copiedTrades (snd (executeCopyTrade v w trade size now)) = copiedTrades w.
Proof.
  unfold executeCopyTrade. destruct (hedgeOn w trade).
  - apply executeArbitrageTrade_copied.
  - by repeat case_match.
Qed.

(** A copied trade leaves its key in [copiedTrades]. *)
Lemma processTrade_marks_key v w trade now w' :
  processTrade v w trade now = (true, w') ->
  copiedTrades w' !! tradeKey trade = Some now.
Proof.
  unfold processTrade, processTradeLog.
  intros H. repeat case_match; simplify_eq; simpl in *; simplify_eq.
  all: simpl; apply lookup_insert_eq.
Qed.

(** [copiedTrades] only grows. *)
Lemma processTrade_copied_mono v w trade now :
  copiedTrades w ⊆ copiedTrades (snd (processTrade v w trade now)).
Proof.
  unfold processTrade, processTradeLog.
  destruct (decide (is_Some (copiedTrades w !! tradeKey trade))) as [|Hnew];
    [done|].
  repeat case_match; simplify_eq; simpl; try done.
  all: match goal with
       | H : executeCopyTrade ?v ?w ?t ?s ?n = (_, ?w1) |- _ =>
           pose proof (executeCopyTrade_copied v w t s n) as Hc;
           rewrite H in Hc; simpl in Hc; rewrite Hc
       end; try done.
  all: apply insert_subseteq; by apply eq_None_not_Some.
Qed.

(** A size of zero stops [processTrade] before any order. *)
Lemma processTrade_zero_size v w trade now :
  calculatePositionSize (config w) trade = 0 ->
  processTrade v w trade now = (false, w) /\
  fst (processTradeLog v w trade now)
    ∈ [AlreadyCopied; WalletNotEligible; MarketNotInFilter;
       NoArbitrageSignal; SizeTooSmall].
Proof.
  intros Hz. unfold processTrade, processTradeLog. rewrite Hz.
  assert (JS.leb 0 0 = true) as -> by done.
  repeat case_match; simplify_eq; simpl; (split; [done|]);
    repeat constructor.
Qed.

Lemma min_Qmin (a b : Q) : JS.min a b == Qmin a b.
Proof.
  unfold JS.min. destruct (Qle_bool a b) eqn:E.
  - apply Qle_bool_iff in E. by rewrite Q.min_l.
  - assert (b <= a) as H.
    { apply Qlt_le_weak, Qnot_le_lt. intros H. apply Qle_bool_iff in H.
      congruence. }
    by rewrite Q.min_r.
Qed.

End Replication.

Section ReplicationTheorems.

Import Config WalletMonitor CopyTrader.

(** C1. When exactly one of the two leg placements of a hedged trade
    returns an order, [executeArbitrageTrade] sends a cancel request for
    that order right after the two placements (the order is marked
    cancelled when the venue accepts the request), returns [false], and
    leaves the ledger as it was: no [recordPosition] takes place. *)
Theorem one_leg_failure_rolls_back (v : OrderExecutor.Venue) (w : t)
    (arbOpp : ArbitrageDetector.ArbitrageOpportunity) (size : Q) (now : Z)
    (yesOrder noOrder : option OrderExecutor.Order)
    (ex1 ex2 : OrderExecutor.t) (placed : OrderExecutor.Order) :
  let mid := ArbitrageDetector.marketId arbOpp in
  let yesPrice := ArbitrageDetector.yesPrice arbOpp in
  let noPrice := ArbitrageDetector.noPrice arbOpp in
  OrderExecutor.placeOrder v (orderExecutor w) mid "YES" "buy" yesPrice
    (JS.div (size * 0.5) yesPrice) = (yesOrder, ex1) ->
  OrderExecutor.placeOrder v ex1 mid "NO" "buy" noPrice
    (JS.div (size * 0.5) noPrice) = (noOrder, ex2) ->
  (yesOrder = Some placed /\ noOrder = None) \/
  (yesOrder = None /\ noOrder = Some placed) ->
  let result := executeArbitrageTrade v w arbOpp size now in
  let executor := orderExecutor (snd result) in
  fst result = false /\
  riskManager (snd result) = riskManager w /\
  copiedTrades (snd result) = copiedTrades w /\
  OrderExecutor.calls executor =
    OrderExecutor.calls (orderExecutor w) ++
      [OrderExecutor.PlaceCall mid "YES" "buy" yesPrice
         (JS.div (size * 0.5) yesPrice);
       OrderExecutor.PlaceCall mid "NO" "buy" noPrice
         (JS.div (size * 0.5) noPrice);
       OrderExecutor.CancelCall (OrderExecutor.orderId placed)] /\
  OrderExecutor.activeOrders executor !! OrderExecutor.orderId placed =
    Some (if OrderExecutor.cancelAnswer v (OrderExecutor.calls executor)
          then OrderExecutor.markCancelled placed else placed).
Proof.
  intros mid yesPrice noPrice H1 H2 Hone result executor.
  pose proof (placeOrder_calls v (orderExecutor w) mid "YES" "buy" yesPrice
                (JS.div (size * 0.5) yesPrice)) as C1.
  pose proof (placeOrder_calls v ex1 mid "NO" "buy" noPrice
                (JS.div (size * 0.5) noPrice)) as C2.
  pose proof (placeOrder_Some v (orderExecutor w) mid "YES" "buy" yesPrice
                (JS.div (size * 0.5) yesPrice)) as S1.
  pose proof (placeOrder_Some v ex1 mid "NO" "buy" noPrice
                (JS.div (size * 0.5) noPrice)) as S2.
  pose proof (placeOrder_None v ex1 mid "NO" "buy" noPrice
                (JS.div (size * 0.5) noPrice)) as N2.
  rewrite H1 in C1, S1. rewrite H2 in C2, S2, N2. simpl in *.
  assert (OrderExecutor.activeOrders ex2 !! OrderExecutor.orderId placed
          = Some placed) as Htracked.
  { destruct Hone as [[-> ->]|[-> ->]].
    - rewrite N2 by done. destruct (S1 placed eq_refl) as [-> _].
      apply lookup_insert_eq.
    - destruct (S2 placed eq_refl) as [-> _]. apply lookup_insert_eq. }
  pose proof (cancelOrder_tracked v ex2 placed Htracked) as [Cc Ca].
  assert (result = (false, withExecutor w
            (snd (OrderExecutor.cancelOrder v ex2
                    (OrderExecutor.orderId placed))))) as Hres.
  { subst result. unfold executeArbitrageTrade. cbv zeta.
    fold mid yesPrice noPrice. rewrite H1, H2.
    by destruct Hone as [[-> ->]|[-> ->]]. }
  subst executor. rewrite Hres. simpl.
  split; [done|]. split; [done|]. split; [done|]. split; [|done].
  rewrite Cc, C2, C1, <- !app_assoc. done.
Qed.

(** C6. The mirrored size is the observed size times the multiplier,
    capped at the wallet's maximum, when that is at least 10, and zero
    when it is below 10; on a zero size [processTrade] returns [false]
    with the whole state, order trace included, untouched.  With
    multiplier 0.01 and maximum 2000, 50000 gives 500 and 500 gives 0. *)
Theorem calculatePositionSize_capped_floored (cfg : WalletConfig)
    (trade : WalletTrade) :
  let capped :=
    Qmin (sizeUsd trade * positionSizeMultiplier cfg)
         (maxPositionSizeUsd cfg) in
  (10 <= capped -> calculatePositionSize cfg trade == capped) /\
  (capped < 10 ->
     calculatePositionSize cfg trade = 0 /\
     forall v w now,
       config w = cfg -> processTrade v w trade now = (false, w)) /\
  (positionSizeMultiplier cfg == 0.01 -> maxPositionSizeUsd cfg == 2000 ->
     (sizeUsd trade == 50000 -> calculatePositionSize cfg trade == 500) /\
     (sizeUsd trade == 500 -> calculatePositionSize cfg trade = 0)).
Proof.
  intros capped.
  pose proof (min_Qmin (sizeUsd trade * positionSizeMultiplier cfg)
                (maxPositionSizeUsd cfg)) as Hmin.
  fold capped in Hmin.
  assert (10 <= capped -> calculatePositionSize cfg trade == capped) as Hge.
  { intros H. unfold calculatePositionSize.
    destruct (ltb_reflect
      (JS.min (sizeUsd trade * positionSizeMultiplier cfg)
              (maxPositionSizeUsd cfg)) 10); [lra|done]. }
  assert (capped < 10 -> calculatePositionSize cfg trade = 0) as Hlt.
  { intros H. unfold calculatePositionSize.
    destruct (ltb_reflect
      (JS.min (sizeUsd trade * positionSizeMultiplier cfg)
              (maxPositionSizeUsd cfg)) 10); [done|lra]. }
  split; [done|]. split.
  - intros H. split; [by apply Hlt|].
    intros v w now <-. apply processTrade_zero_size. by apply Hlt.
  - intros Hm Hx. split; intros Hs.
    + assert (capped == 500) as Hc.
      { subst capped. rewrite Hs, Hm, Hx. by vm_compute. }
      rewrite Hge; [done|]. rewrite Hc. by vm_compute.
    + apply Hlt. assert (capped == 5) as ->; [|by vm_compute].
      subst capped. rewrite Hs, Hm, Hx. by vm_compute.
Qed.

(** C9. The directional path records its position without an entry
    price, so the position is stored with entry price zero; closing a
    position whose entry price is zero returns a realized PnL of
    exactly zero at any exit price and leaves the daily PnL where it
    was. *)
Theorem directional_position_realizes_nothing :
  (forall v w trade size now w',
     hedgeOn w trade = None ->
     executeCopyTrade v w trade size now = (true, w') ->
     RiskManager.positions (riskManager w') =
       <[marketId trade :=
           default [] (RiskManager.positions (riskManager w)
                         !! marketId trade) ++
           [{| RiskManager.marketId := marketId trade;
               RiskManager.outcome := outcome trade;
               RiskManager.side := side trade;
               RiskManager.sizeUsd := size;
               RiskManager.entryPrice := 0;
               RiskManager.timestamp := now |}]]>
         (RiskManager.positions (riskManager w))) /\
  (forall rm mid o exit p rest,
     filter (RiskManager.matches o)
            (default [] (RiskManager.positions rm !! mid)) = p :: rest ->
     RiskManager.entryPrice p == 0 ->
     fst (RiskManager.closePosition rm mid o exit) = Some 0 /\
     RiskManager.dailyPnl (snd (RiskManager.closePosition rm mid o exit))
       == RiskManager.dailyPnl rm).
Proof.
  split.
  - intros v w trade size now w' Hh. unfold executeCopyTrade. rewrite Hh.
    destruct (OrderExecutor.placeOrder _ _ _ _ _ _ _) as [[order|] ex1];
      [|done].
    intros [= <-].
    exact (recordPosition_positions (riskManager w) (marketId trade) size
             (outcome trade) (side trade) None now).
  - intros rm mid o exit p rest Hf Hz.
    destruct (closePosition_some rm mid o exit p rest Hf) as (i & _ & ->).
    simpl. rewrite (realizedPnl_zero_entry exit p Hz). split; [done|]. lra.
Qed.

(** C10. Two trades without a transaction id that share market, outcome
    and side have the same key, which starts with [undefined]; once the
    first is copied, the second is skipped as already copied, whatever
    its timestamp, price and size, in every later state of the trader
    ([copiedTrades] only grows). *)
Theorem untagged_repeat_is_skipped (v : OrderExecutor.Venue) (w w1 : t)
    (t1 t2 : WalletTrade) (now1 : Z) :
  txHash t1 = None -> txHash t2 = None ->
  marketId t1 = marketId t2 ->
  outcome t1 = outcome t2 ->
  side t1 = side t2 ->
  processTrade v w t1 now1 = (true, w1) ->
  tradeKey t2 =
    "undefined_" +:+ marketId t2 +:+ "_" +:+ outcomeName (outcome t2)
      +:+ "_" +:+ sideName (side t2) /\
  tradeKey t1 = tradeKey t2 /\
  forall v' w2 now2,
    copiedTrades w1 ⊆ copiedTrades w2 ->
    processTradeLog v' w2 t2 now2 = (AlreadyCopied, w2) /\
    processTrade v' w2 t2 now2 = (false, w2).
Proof.
  intros Hx1 Hx2 Hm Ho Hs Hcopied.
  assert (tradeKey t1 = tradeKey t2) as Hkey.
  { unfold tradeKey. by rewrite Hx1, Hx2, Hm, Ho, Hs. }
  split; [|split; [done|]].
  - unfold tradeKey. by rewrite Hx2.
  - intros v' w2 now2 Hsub.
    apply processTrade_marks_key in Hcopied. rewrite Hkey in Hcopied.
    assert (processTradeLog v' w2 t2 now2 = (AlreadyCopied, w2)) as Hlog.
    { unfold processTradeLog. rewrite decide_True; [done|].
      exists now1. by eapply lookup_weaken. }
    split; [done|]. unfold processTrade. by rewrite Hlog.
Qed.

End ReplicationTheorems.

(** C1, with the YES leg placed and the NO leg refused. *)
Lemma one_leg_failure_rolls_back_witness :
  let result :=
    CopyTrader.executeArbitrageTrade yesOnlyVenue exampleTrader
      cachedOpportunity 500 2000 in
  let executor := CopyTrader.orderExecutor (snd result) in
  fst result = false /\
  CopyTrader.riskManager (snd result) = CopyTrader.riskManager exampleTrader /\
  CopyTrader.copiedTrades (snd result) = CopyTrader.copiedTrades exampleTrader /\
  OrderExecutor.calls executor =
    OrderExecutor.calls (CopyTrader.orderExecutor exampleTrader) ++
      [OrderExecutor.PlaceCall "m1" "YES" "buy" 0.48 (JS.div (500 * 0.5) 0.48);
       OrderExecutor.PlaceCall "m1" "NO" "buy" 0.49 (JS.div (500 * 0.5) 0.49);
       OrderExecutor.CancelCall "order-1"] /\
  OrderExecutor.activeOrders executor !! "order-1"%string =
    Some (if OrderExecutor.cancelAnswer yesOnlyVenue
               (OrderExecutor.calls executor)
          then OrderExecutor.markCancelled yesLeg else yesLeg).
Proof.
  apply (one_leg_failure_rolls_back yesOnlyVenue exampleTrader
           cachedOpportunity 500 2000 (Some yesLeg) None
           {| OrderExecutor.activeOrders := {[ "order-1"%string := yesLeg ]};
              OrderExecutor.calls :=
                [OrderExecutor.PlaceCall "m1" "YES" "buy" 0.48
                   (JS.div (500 * 0.5) 0.48)] |}
           {| OrderExecutor.activeOrders := {[ "order-1"%string := yesLeg ]};
              OrderExecutor.calls :=
                [OrderExecutor.PlaceCall "m1" "YES" "buy" 0.48
                   (JS.div (500 * 0.5) 0.48);
                 OrderExecutor.PlaceCall "m1" "NO" "buy" 0.49
                   (JS.div (500 * 0.5) 0.49)] |}
           yesLeg).
  - reflexivity.
  - reflexivity.
  - left. split; reflexivity.
Defined.

(** C6, on the two trades of the specification. *)
Lemma calculatePositionSize_capped_floored_witness :
  CopyTrader.calculatePositionSize exampleWallet (parsedBuy 1000) == 500 /\
  CopyTrader.calculatePositionSize exampleWallet smallBuy = 0 /\
  CopyTrader.processTrade acceptingVenue exampleTrader smallBuy 2000
    = (false, exampleTrader).
Proof.
  split; [|split].
  - apply (proj2 (proj2 (calculatePositionSize_capped_floored exampleWallet
                           (parsedBuy 1000)))); by vm_compute.
  - apply (proj2 (proj2 (calculatePositionSize_capped_floored exampleWallet
                           smallBuy))); by vm_compute.
  - apply (proj1 (proj2 (calculatePositionSize_capped_floored exampleWallet
                           smallBuy))); [by vm_compute|reflexivity].
Defined.

(** C9, on a directional copy of 500 USD closed at 0.9. *)
Lemma directional_position_realizes_nothing_witness :
  let copied :=
    snd (CopyTrader.executeCopyTrade acceptingVenue directionalTrader
           (parsedBuy 1000) 500 2000) in
  let position :=
    {| RiskManager.marketId := "m1"; RiskManager.outcome := YES;
       RiskManager.side := buy; RiskManager.sizeUsd := 500;
       RiskManager.entryPrice := 0; RiskManager.timestamp := 2000 |} in
  RiskManager.positions (CopyTrader.riskManager copied) !! "m1"%string
    = Some [position] /\
  fst (RiskManager.closePosition (CopyTrader.riskManager copied) "m1" YES
         (Some 0.9)) = Some 0 /\
  RiskManager.dailyPnl
    (snd (RiskManager.closePosition (CopyTrader.riskManager copied) "m1" YES
            (Some 0.9)))
  == RiskManager.dailyPnl (CopyTrader.riskManager copied).
Proof.
  intros copied position. split.
  - rewrite (proj1 directional_position_realizes_nothing acceptingVenue
               directionalTrader (parsedBuy 1000) 500 2000%Z copied);
      reflexivity.
  - apply (proj2 directional_position_realizes_nothing
             (CopyTrader.riskManager copied) "m1"%string YES (Some 0.9)
             position []); reflexivity.
Defined.

(** C10: [parsedBuy 1000] is copied, then [smallBuy], which differs in
    timestamp, size and size in USD, is skipped. *)
Lemma untagged_repeat_is_skipped_witness :
  let first := CopyTrader.processTrade acceptingVenue exampleTrader
                 (parsedBuy 1000) 2000 in
  fst first = true /\
  CopyTrader.tradeKey smallBuy = "undefined_m1_YES_buy"%string /\
  CopyTrader.processTradeLog acceptingVenue (snd first) smallBuy 3000
    = (CopyTrader.AlreadyCopied, snd first).
Proof.
  intros first.
  destruct (untagged_repeat_is_skipped acceptingVenue exampleTrader (snd first)
              (parsedBuy 1000) smallBuy 2000%Z
              eq_refl eq_refl eq_refl eq_refl eq_refl)
    as (Hkey & _ & Hskip).
  - reflexivity.
  - split; [reflexivity|]. split; [exact Hkey|].
    exact (proj1 (Hskip acceptingVenue (snd first) 3000%Z (reflexivity _))).
Defined.

(** * Further properties *)

(** ** The exposure ledger *)

Section LedgerMore.

Import Config RiskManager.

Lemma canOpenPosition_true (rm : t) (mid : string) (size : Q) :
  canOpenPosition rm mid size = true <->
  - maxDailyLossUsd (config rm) < dailyPnl rm /\
  totalExposure rm + size <= maxTotalExposureUsd (config rm) /\
  sumSizeUsd (default [] (positions rm !! mid)) + size
    <= maxPositionPerMarketUsd (config rm).
Proof.
  unfold canOpenPosition, canOpenPositionLog.
  destruct (leb_reflect (dailyPnl rm) (- maxDailyLossUsd (config rm)));
    destruct (ltb_reflect (maxTotalExposureUsd (config rm))
                          (totalExposure rm + size));
    destruct (ltb_reflect (maxPositionPerMarketUsd (config rm))
                (sumSizeUsd (default [] (positions rm !! mid)) + size));
    simpl; split; (done || (intros; lra) || (intros; repeat split; lra)).
Qed.

Lemma removeFirst_snoc_first (o : Outcome) (ps : list Position) (p : Position) :
  filter (matches o) ps = [] -> matches o p ->
  filter (matches o) (ps ++ [p]) = [p] /\
  removeFirst (matchesb o) (ps ++ [p]) = ps.
Proof.
  intros Hf Hp. split.
  - rewrite filter_app, Hf. simpl. rewrite filter_cons, decide_True by done.
    done.
  - induction ps as [|q ps IH]; simpl.
    + unfold matchesb. by rewrite bool_decide_eq_true_2.
    + rewrite filter_cons in Hf. unfold matchesb at 1.
      destruct (decide (matches o q)) as [|Hq]; [done|].
      rewrite bool_decide_eq_false_2 by done. by rewrite IH.
Qed.

(** [closePosition] answers [null] exactly when the market holds no buy
    position of the outcome: unknown market, emptied market, or only
    sells and positions of the other outcome.  The ledger is then left as
    it was. *)
Theorem closePosition_null (rm : t) (mid : string) (o : Outcome)
    (exit : option Q) :
  (fst (closePosition rm mid o exit) = None <->
   filter (matches o) (default [] (positions rm !! mid)) = []) /\
  (fst (closePosition rm mid o exit) = None ->
   snd (closePosition rm mid o exit) = rm).
Proof.
  destruct (filter (matches o) (default [] (positions rm !! mid)))
    as [|p rest] eqn:Hf.
  - rewrite closePosition_none by done. done.
  - destruct (closePosition_some rm mid o exit p rest Hf) as (i & _ & ->).
    simpl. split; [split|]; done.
Qed.

(** [closePosition] is first-in first-out: it removes the oldest buy
    position of the outcome from the market's list, keeps the order of
    the others, touches no other market, lowers the total exposure by the
    size of that position and adds its PnL to the daily PnL; with a
    non-zero exit price and a positive entry price the PnL is the price
    change times the size over the entry price. *)
Theorem closePosition_oldest_first (rm : t) (mid : string) (o : Outcome)
    (exit : option Q) (p : Position) (rest : list Position) :
  filter (matches o) (default [] (positions rm !! mid)) = p :: rest ->
  let rm' := snd (closePosition rm mid o exit) in
  fst (closePosition rm mid o exit) = Some (realizedPnl exit p) /\
  default [] (positions rm' !! mid)
    = removeFirst (matchesb o) (default [] (positions rm !! mid)) /\
  (forall mid', mid' <> mid -> positions rm' !! mid' = positions rm !! mid') /\
  totalExposure rm' == totalExposure rm - sizeUsd p /\
  dailyPnl rm' == dailyPnl rm + realizedPnl exit p /\
  (forall x, exit = Some x -> ~ x == 0 -> 0 < entryPrice p ->
     realizedPnl exit p == (x - entryPrice p) * sizeUsd p / entryPrice p).
Proof.
  intros Hf rm'. subst rm'.
  destruct (closePosition_some rm mid o exit p rest Hf) as (i & Hi & ->).
  destruct (indexOf_first_match _ _ _ _ Hf) as (i' & Hi' & Hdel & _).
  assert (i' = i) as -> by congruence. simpl.
  split; [done|]. split; [by rewrite lookup_insert_eq|].
  split; [by intros mid' Hne; rewrite lookup_insert_ne|].
  split; [reflexivity|]. split; [reflexivity|].
  intros x -> Hx He. unfold realizedPnl.
  assert (JS.truthy x = true) as ->.
  { unfold JS.truthy. destruct (Qeq_bool x 0) eqn:E; [|done].
    by apply Qeq_bool_iff in E. }
  destruct (ltb_reflect 0 (entryPrice p)); [reflexivity|lra].
Qed.

(** [closePosition] never removes a sell position: whatever is recorded
    with side [sell] stays in the ledger, and in the exposure, through
    every later call. *)
Theorem sell_positions_stay (rm : t) (cs : list Call) (mid : string)
    (p : Position) :
  p ∈ default [] (positions rm !! mid) ->
  side p = sell ->
  p ∈ default [] (positions (run rm cs) !! mid).
Proof.
  revert rm. induction cs as [|c cs IH]; intros rm Hin Hs; [done|].
  simpl. apply IH; [|done]. clear IH.
  destruct c as [m size o s entry now|m o exit]; cbn [step].
  - rewrite recordPosition_positions.
    destruct (decide (m = mid)) as [->|Hne].
    + rewrite lookup_insert_eq. simpl. apply elem_of_app. by left.
    + by rewrite lookup_insert_ne.
  - destruct (filter (matches o) (default [] (positions rm !! m)))
      as [|q rest] eqn:Hf.
    + by rewrite closePosition_none.
    + destruct (closePosition_some rm m o exit q rest Hf) as (i & Hi & ->).
      destruct (indexOf_first_match _ _ _ _ Hf)
        as (i' & Hi' & Hdel & [_ Hq] & _).
      assert (i' = i) as -> by congruence. simpl.
      destruct (decide (m = mid)) as [->|Hne];
        [|by rewrite lookup_insert_ne].
      rewrite lookup_insert_eq. simpl.
      apply list_elem_of_lookup in Hin as [j Hj].
      assert (j <> i) as Hji.
      { intros ->.
        assert (default [] (positions rm !! mid) !! i = Some q) as Hq'.
        { clear -Hi. revert i Hi.
          induction (default [] (positions rm !! mid)) as [|x l IHl];
            intros i Hi; [done|]. simpl in Hi.
          destruct (decide (x = q)) as [->|]; [by injection Hi as <-|].
          destruct (indexOf l q) as [k|] eqn:Hk; [|done].
          injection Hi as <-. simpl. by apply IHl. }
        congruence. }
      apply list_elem_of_lookup.
      destruct (decide (j < i)%nat).
      * exists j. by rewrite list_lookup_delete_lt.
      * exists (pred j). rewrite list_lookup_delete_ge by lia.
        replace (S (pred j)) with j by lia. done.
Qed.

(** Opening a buy position on a market that holds no buy position of
    that outcome and closing it again restores the market's list and the
    other markets, and leaves as total exposure the result of the two
    operations of the code: the old total plus the size, minus the
    size. *)
Theorem record_then_close (rm : t) (mid : string) (size : Q) (o : Outcome)
    (entry exit : option Q) (now : Z) :
  filter (matches o) (default [] (positions rm !! mid)) = [] ->
  let closed :=
    closePosition (recordPosition rm mid size o buy entry now) mid o exit in
  is_Some (fst closed) /\
  default [] (positions (snd closed) !! mid)
    = default [] (positions rm !! mid) /\
  (forall mid', mid' <> mid ->
     positions (snd closed) !! mid' = positions rm !! mid') /\
  totalExposure (snd closed) = totalExposure rm + size - size.
Proof.
  intros Hf closed. subst closed.
  set (p := {| marketId := mid; outcome := o; side := buy; sizeUsd := size;
               entryPrice := JS.orElse entry 0; timestamp := now |}).
  assert (matches o p) as Hp by done.
  destruct (removeFirst_snoc_first o _ p Hf Hp) as [Hf' Hrm].
  pose proof (recordPosition_positions rm mid size o buy entry now) as Hpos.
  fold p in Hpos.
  assert (totalExposure (recordPosition rm mid size o buy entry now)
          = totalExposure rm + size) as Htot by done.
  assert (sizeUsd p = size) as Hsize by done.
  clearbody p.
  generalize dependent (recordPosition rm mid size o buy entry now).
  intros rm1 Hpos Htot.
  assert (default [] (positions rm1 !! mid)
          = default [] (positions rm !! mid) ++ [p]) as Hl.
  { by rewrite Hpos, lookup_insert_eq. }
  rewrite <- Hl in Hf', Hrm.
  destruct (closePosition_some rm1 mid o exit p [] Hf') as (i & Hi & ->).
  destruct (indexOf_first_match _ _ _ _ Hf') as (i' & Hi' & Hdel & _).
  assert (i' = i) as -> by congruence. simpl.
  split; [done|].
  split; [rewrite lookup_insert_eq; simpl; by rewrite Hdel, Hrm|].
  split.
  - intros mid' Hne. rewrite lookup_insert_ne by done.
    by rewrite Hpos, lookup_insert_ne.
  - by rewrite Htot, Hsize.
Qed.

(** Admission is monotone: when a size is admitted, so is every smaller
    one. *)
Theorem canOpenPosition_smaller (rm : t) (mid : string) (size size' : Q) :
  canOpenPosition rm mid size = true ->
  size' <= size ->
  canOpenPosition rm mid size' = true.
Proof.
  rewrite !canOpenPosition_true. intros (H1 & H2 & H3) Hle.
  repeat split; lra.
Qed.

(** Check, then open: a position admitted by [canOpenPosition] and
    recorded at once keeps a ledger that is within its two exposure
    ceilings within them. *)
Theorem admitted_position_keeps_ceilings (rm : t) (mid : string) (size : Q)
    (o : Outcome) (s : Side) (entry : option Q) (now : Z) :
  withinCeilings rm ->
  canOpenPosition rm mid size = true ->
  withinCeilings (recordPosition rm mid size o s entry now).
Proof.
  intros [Ht Hm] (_ & H2 & H3)%canOpenPosition_true. split.
  - simpl. done.
  - intros mid'. rewrite recordPosition_positions.
    destruct (decide (mid = mid')) as [<-|Hne].
    + rewrite lookup_insert_eq. simpl. by rewrite sumSizeUsd_snoc.
    + rewrite lookup_insert_ne by done. apply Hm.
Qed.

(** After the lazy reset of a snapshot, admission depends on the two
    exposure ceilings alone when the daily-loss ceiling is positive; with
    a daily-loss ceiling of zero or less nothing is admitted, not even on
    a new ledger. *)
Theorem admission_after_reset (rm : t) (now : Z) (mid : string) (size : Q) :
  JS.getDate now <> JS.getDate (lastResetDate rm) ->
  let rm' := snd (getExposure rm now) in
  (0 < maxDailyLossUsd (config rm) ->
   (canOpenPosition rm' mid size = true <->
    totalExposure rm + size <= maxTotalExposureUsd (config rm) /\
    sumSizeUsd (default [] (positions rm !! mid)) + size
      <= maxPositionPerMarketUsd (config rm))) /\
  (maxDailyLossUsd (config rm) <= 0 ->
   canOpenPosition rm' mid size = false /\
   canOpenPosition (create (config rm) now) mid size = false).
Proof.
  intros Hday rm'. subst rm'. unfold getExposure, resetIfNewDay. simpl.
  rewrite decide_True by done. split.
  - intros Hpos. rewrite canOpenPosition_true. simpl. split.
    + intros (_ & ? & ?). done.
    + intros [? ?]. repeat split; try done. lra.
  - intros Hneg. split.
    + destruct (canOpenPosition _ mid size) eqn:E; [|done].
      apply canOpenPosition_true in E as (E & _). simpl in E. lra.
    + destruct (canOpenPosition _ mid size) eqn:E; [|done].
      apply canOpenPosition_true in E as (E & _). simpl in E. lra.
Qed.

(** [shouldHedge] can flag a market only when auto-hedge is on, the
    market holds at least two positions and its YES and NO exposures do
    not cancel; with a positive combined exposure it flags the market
    exactly when the imbalance exceeds a fifth of the combined exposure;
    equal YES and NO exposures are never flagged. *)
Theorem shouldHedge_imbalance (rm : t) (mid : string) :
  let ps := default [] (positions rm !! mid) in
  let yes := sumSizeUsd (filter (fun p => outcome p = YES) ps) in
  let no := sumSizeUsd (filter (fun p => outcome p = NO) ps) in
  (shouldHedge rm mid = true ->
   enableAutoHedge (config rm) = true /\ (2 <= length ps)%nat /\
   ~ yes + no == 0) /\
  (enableAutoHedge (config rm) = true -> (2 <= length ps)%nat ->
   0 < yes + no ->
   (shouldHedge rm mid = true <-> 0.2 * (yes + no) < Qabs (yes - no))) /\
  (yes == no -> shouldHedge rm mid = false).
Proof.
  intros ps yes no. unfold shouldHedge. fold ps. fold yes no.
  destruct (enableAutoHedge (config rm)); cbn [negb];
    [|split; [done|split; [done|done]]].
  destruct (Nat.ltb_spec (length ps) 2);
    [split; [done|split; [intros; lia|done]]|].
  destruct (Qeq_bool (yes + no) 0) eqn:E.
  { apply Qeq_bool_iff in E. split; [done|]. split; [intros; lra|done]. }
  assert (~ yes + no == 0) as Hnz.
  { intros H0. apply Qeq_bool_iff in H0. congruence. }
  rewrite div_nonzero by done. cbn [JS.above].
  split; [done|]. split.
  - intros _ _ Hpos.
    destruct (ltb_reflect 0.2 (Qabs (yes - no) / (yes + no))) as [Hlt|Hge];
      split; try done.
    + intros _. apply Qnot_le_lt. intros Hle. apply (Qlt_not_le _ _ Hlt).
      by apply Qle_shift_div_r.
    + intros Hgt. exfalso. apply Hge. by apply Qlt_shift_div_l.
  - intros Heq.
    destruct (ltb_reflect 0.2 (Qabs (yes - no) / (yes + no))) as [Hlt|];
      [|done].
    exfalso. assert (Qabs (yes - no) == 0) as Ha.
    { assert (yes - no == 0) as -> by lra. reflexivity. }
    rewrite Ha in Hlt. revert Hlt. unfold Qdiv. rewrite Qmult_0_l. lra.
Qed.

End LedgerMore.

(** On [ledgerAfterLoss], whose only position was closed: a second close
    finds nothing and changes nothing. *)
Lemma closePosition_null_witness :
  fst (RiskManager.closePosition ledgerAfterLoss "m" YES (Some 0.5)) = None /\
  snd (RiskManager.closePosition ledgerAfterLoss "m" YES (Some 0.5))
    = ledgerAfterLoss.
Proof.
  destruct (closePosition_null ledgerAfterLoss "m" YES (Some 0.5))
    as [Hnull Hsame].
  assert (fst (RiskManager.closePosition ledgerAfterLoss "m" YES (Some 0.5))
          = None) as Hfst by (apply Hnull; reflexivity).
  split; [exact Hfst | exact (Hsame Hfst)].
Defined.

(** On [twoSidedLedger], closing YES at 0.6: the buy at 0.4 goes, with a
    PnL of 50, and 800 USD of exposure stay. *)
Lemma closePosition_oldest_first_witness :
  let closed := RiskManager.closePosition twoSidedLedger "m" YES (Some 0.6) in
  fst closed = Some (RiskManager.realizedPnl (Some 0.6) firstYesBuy) /\
  RiskManager.realizedPnl (Some 0.6) firstYesBuy == 50 /\
  RiskManager.totalExposure (snd closed) == 800.
Proof.
  destruct (closePosition_oldest_first twoSidedLedger "m" YES (Some 0.6)
              firstYesBuy [secondYesBuy] eq_refl)
    as (Hfst & _ & _ & Htotal & _ & Hpnl).
  split; [exact Hfst|]. split.
  - rewrite (Hpnl 0.6 eq_refl); by vm_compute.
  - rewrite Htotal. by vm_compute.
Defined.

(** On [twoSidedLedger]: the YES sell survives three YES closes. *)
Lemma sell_positions_stay_witness :
  yesSell ∈ default []
    (RiskManager.positions
       (RiskManager.run twoSidedLedger
          [RiskManager.CallClose "m" YES None;
           RiskManager.CallClose "m" YES None;
           RiskManager.CallClose "m" YES None]) !! "m"%string).
Proof.
  apply (sell_positions_stay twoSidedLedger).
  - vm_compute. repeat constructor.
  - reflexivity.
Defined.

(** On [twoSidedLedger], which holds no NO buy in market [k]. *)
Lemma record_then_close_witness :
  let closed :=
    RiskManager.closePosition
      (RiskManager.recordPosition twoSidedLedger "k" 50 NO buy (Some 0.3) 9)
      "k" NO (Some 0.35) in
  is_Some (fst closed) /\
  RiskManager.totalExposure (snd closed)
    = RiskManager.totalExposure twoSidedLedger + 50 - 50.
Proof.
  destruct (record_then_close twoSidedLedger "k" 50 NO (Some 0.3) (Some 0.35) 9
              eq_refl) as (Hsome & _ & _ & Htotal).
  split; [exact Hsome | exact Htotal].
Defined.

(** [twoSidedLedger] holds 900 USD in market [m]: 1100 more are admitted,
    so 1000 are. *)
Lemma canOpenPosition_smaller_witness :
  RiskManager.canOpenPosition twoSidedLedger "m" 1000 = true.
Proof.
  apply (canOpenPosition_smaller twoSidedLedger "m" 1100 1000).
  - reflexivity.
  - by vm_compute.
Defined.

(** On a new ledger under [exampleRisk], for a first position of 2000
    USD. *)
Lemma admitted_position_keeps_ceilings_witness :
  RiskManager.withinCeilings
    (RiskManager.recordPosition (RiskManager.create exampleRisk 0)
       "m" 2000 YES buy None 1).
Proof.
  apply admitted_position_keeps_ceilings.
  - split; [by vm_compute|]. intros mid. by vm_compute.
  - reflexivity.
Defined.

(** On [ledgerAfterLoss], read on 16 January: the loss of the day before
    no longer counts. *)
Lemma admission_after_reset_witness :
  RiskManager.canOpenPosition
    (snd (RiskManager.getExposure ledgerAfterLoss (jan15 + JS.msPerDay)))
    "m" 2000 = true.
Proof.
  destruct (admission_after_reset ledgerAfterLoss (jan15 + JS.msPerDay) "m"
              2000) as [Hpositive _].
  - by vm_compute.
  - apply Hpositive; [by vm_compute|]. split; by vm_compute.
Defined.

(** On [twoSidedLedger]: 700 USD of YES against 200 USD of NO in market
    [m], an imbalance of 5/9. *)
Lemma shouldHedge_imbalance_witness :
  RiskManager.shouldHedge twoSidedLedger "m" = true.
Proof.
  apply (proj1 (proj2 (shouldHedge_imbalance twoSidedLedger "m"))).
  - reflexivity.
  - vm_compute. lia.
  - by vm_compute.
  - by vm_compute.
Defined.

(** ** The arbitrage detector *)

Section DetectorMore.

Import Config ArbitrageDetector.

Lemma omap_filter_relevant {A B} (f : A -> option B) (P : A -> Prop)
    `{forall x, Decision (P x)} (l : list A) :
  (forall x, ~ P x -> f x = None) -> omap f (filter P l) = omap f l.
Proof.
  intros Hf. induction l as [|x l IH]; [done|].
  rewrite filter_cons. destruct (decide (P x)) as [|Hn].
  - change (omap f ([x] ++ filter P l) = omap f ([x] ++ l)).
    by rewrite !omap_app, IH.
  - change (omap f (filter P l) = omap f ([x] ++ l)).
    rewrite omap_app, IH. simpl. by rewrite (Hf x Hn).
Qed.

Lemma sortAsks_nil (l : list Ask) : sortAsks l = [] -> l = [].
Proof.
  destruct l as [|x l]; [done|]. unfold sortAsks. simpl.
  destruct (foldr insertAsk [] l) as [|b s]; simpl; [done|].
  by destruct (Qle_bool _ _).
Qed.

(** [getBestAsk] answers [null] exactly on a side without asks; otherwise
    it answers the first of the lowest-priced asks of the side: every ask
    before it in the book is strictly dearer, every ask after it is at
    least as dear. *)
Theorem getBestAsk_first_lowest (book : OrderBook) (o : Outcome) :
  (getBestAsk book o = None <-> asks book o = []) /\
  (forall a, getBestAsk book o = Some a ->
     exists earlier later,
       asks book o = earlier ++ a :: later /\
       (forall b, b ∈ earlier -> price a < price b) /\
       (forall b, b ∈ later -> price a <= price b)).
Proof.
  unfold getBestAsk. generalize (asks book o) as l. intros l. split.
  - split; [|by intros ->].
    intros H. apply sortAsks_nil. by destruct (sortAsks l).
  - induction l as [|x l IH]; intros a; [done|].
    unfold sortAsks in *. simpl. rewrite head_insertAsk.
    destruct (head (foldr insertAsk [] l)) as [b|] eqn:Hb.
    + destruct (IH b eq_refl) as (earlier & later & -> & He & Hl).
      destruct (Qle_bool (price x) (price b)) eqn:E; intros [= <-].
      * apply Qle_bool_iff in E. exists [], (earlier ++ b :: later).
        split; [done|]. split; [by intros c Hc; apply elem_of_nil in Hc|].
        intros c [Hc|[->|Hc]%elem_of_cons]%elem_of_app.
        -- specialize (He c Hc). lra.
        -- done.
        -- specialize (Hl c Hc). lra.
      * assert (price b < price x) as Hlt.
        { apply Qnot_le_lt. intros H. apply Qle_bool_iff in H. congruence. }
        exists (x :: earlier), later. split; [done|]. split; [|done].
        intros c [->|Hc]%elem_of_cons; [done|]. by apply He.
    + intros [= <-].
      assert (l = []) as ->.
      { apply sortAsks_nil. unfold sortAsks.
        by destruct (foldr insertAsk [] l). }
      exists [], []. split; [done|].
      split; intros c Hc; by apply elem_of_nil in Hc.
Qed.

Lemma insertAsk_perm (a : Ask) (l : list Ask) : insertAsk a l ≡ₚ a :: l.
Proof.
  induction l as [|b l IH]; simpl; [done|].
  destruct (Qle_bool _ _); [done|]. rewrite IH. apply Permutation_swap.
Qed.

Lemma insertAsk_ascending (a : Ask) (l : list Ask) :
  ascending l -> ascending (insertAsk a l).
Proof.
  induction l as [|b l IH]; simpl; [by split; [intros c Hc; apply elem_of_nil in Hc|]|].
  intros [Hb Hl]. destruct (Qle_bool (price a) (price b)) eqn:E.
  - apply Qle_bool_iff in E. simpl. split; [|done].
    intros c [->|Hc]%elem_of_cons; [done|]. specialize (Hb c Hc). lra.
  - assert (price b < price a) as Hlt.
    { apply Qnot_le_lt. intros H. apply Qle_bool_iff in H. congruence. }
    simpl. split; [|by apply IH].
    intros c Hc. rewrite insertAsk_perm in Hc.
    apply elem_of_cons in Hc as [->|Hc]; [lra|by apply Hb].
Qed.

(** The sort of [getBestAsk] rearranges the asks of a side by ascending
    price: no ask is lost or invented. *)
Theorem sortAsks_sorted (l : list Ask) :
  ascending (sortAsks l) /\ sortAsks l ≡ₚ l.
Proof.
  unfold sortAsks. induction l as [|a l [IHs IHp]]; simpl; [done|].
  split; [by apply insertAsk_ascending|].
  by rewrite insertAsk_perm, IHp.
Qed.

Lemma scanMarket_internal_valid cfg mid fetched now opp :
  scanMarket cfg mid fetched now = Some opp ->
  marketId opp = mid /\ opportunityType opp = internal /\
  isValid cfg opp = true.
Proof.
  intros H. split; [by eapply scanMarket_marketId|].
  apply scanMarket_Some in H as (book & _ & _ & Hd & Hv). split; [|done].
  unfold detectInternalArbitrage in Hd.
  destruct (getBestAsk book YES), (getBestAsk book NO); try done.
  destruct (JS.ltb _ _); [|done]. by injection Hd as <-.
Qed.

Lemma cacheSound_scanMarkets d scans now :
  cacheSound d -> cacheSound (snd (scanMarkets d scans now)).
Proof.
  intros Hd mid opp. simpl. rewrite store_found_lookup.
  destruct (last (foundFor (config d) scans now mid)) as [x|] eqn:Hl;
    [|apply Hd].
  intros [= ->]. apply last_Some_elem_of in Hl.
  unfold foundFor, found in Hl.
  apply list_elem_of_omap in Hl as ([m f] & Hin & Hs).
  apply list_elem_of_filter in Hin as [Hm _]. simpl in *. subst m.
  by eapply scanMarket_internal_valid.
Qed.

(** From a new detector, after any number of batches, every cached
    opportunity sits under its own market id, is an internal one and is
    valid under the configuration; so [hasOpportunity] holds of a market
    exactly when [getOpportunity] returns an entry for it. *)
Theorem cache_entries_valid (cfg : ArbitrageConfig)
    (batches : list (list (string * option OrderBook) * Z)) :
  let d := scanAll (create cfg) batches in
  config d = cfg /\
  cacheSound d /\
  (forall mid, hasOpportunity d mid = true <-> is_Some (getOpportunity d mid)).
Proof.
  assert (forall d, cacheSound d ->
            config (scanAll d batches) = config d /\
            cacheSound (scanAll d batches)) as Hinv.
  { unfold scanAll. induction batches as [|b bs IH]; intros d Hd; [done|].
    cbn [foldl]. destruct (IH (snd (scanMarkets d b.1 b.2))) as [Hc Hs].
    - by apply cacheSound_scanMarkets.
    - split; [|done]. by rewrite Hc. }
  intros d. subst d. destruct (Hinv (create cfg)) as [Hc Hs].
  { intros mid opp. simpl. by rewrite lookup_empty. }
  set (d := scanAll (create cfg) batches) in *. clearbody d.
  split; [done|]. split; [done|].
  intros mid. unfold hasOpportunity, getOpportunity.
  destruct (activeOpportunities d !! mid) as [opp|] eqn:E.
  - destruct (Hs mid opp E) as (_ & _ & ->). by split.
  - split; [done|]. by intros [? ?].
Qed.

(** An internal opportunity detected at a positive combined cost has a
    combined cost below 0.99 / 1.01 and a profit fraction above 1/99:
    the detector never reports less than about 1.01 percent. *)
Theorem internal_opportunity_profit (mid : string) (book : OrderBook)
    (now : Z) (opp : ArbitrageOpportunity) :
  detectInternalArbitrage mid book now = Some opp ->
  0 < totalCost opp ->
  totalCost opp = yesPrice opp + noPrice opp /\
  totalCost opp < 0.99 / 1.01 /\
  exists q, profitPct opp = JS.Finite q /\ 1 / 99 < q.
Proof.
  unfold detectInternalArbitrage.
  destruct (getBestAsk book YES) as [y|], (getBestAsk book NO) as [n|];
    try done.
  destruct (ltb_reflect (feeAdjusted (price y + price n)) 0.99) as [Hlt|];
    [|done].
  intros [= <-]. simpl. intros Hpos. unfold feeAdjusted in *.
  split; [done|]. split; [apply Qlt_shift_div_l; [reflexivity|done]|].
  rewrite div_nonzero by lra. eexists. split; [done|].
  apply Qlt_shift_div_l; [lra|].
  assert (1 / 99 == 1 # 99) as -> by reflexivity. lra.
Qed.

(** A batch collects the successes only: markets whose book could not be
    fetched change neither the result nor the cache, and every
    opportunity the batch returns has, after the batch, a valid entry of
    the batch under its market id. *)
Theorem scanMarkets_collects_successes (d : t)
    (scans : list (string * option OrderBook)) (now : Z) :
  scanMarkets d (filter (fun s => is_Some s.2) scans) now
    = scanMarkets d scans now /\
  (forall opp, opp ∈ fst (scanMarkets d scans now) ->
     hasOpportunity (snd (scanMarkets d scans now)) (marketId opp) = true /\
     exists cached,
       getOpportunity (snd (scanMarkets d scans now)) (marketId opp)
         = Some cached /\
       cached ∈ fst (scanMarkets d scans now)).
Proof.
  split.
  - unfold scanMarkets. assert (found (config d)
      (filter (fun s => is_Some s.2) scans) now = found (config d) scans now)
      as ->; [|done].
    unfold found. apply omap_filter_relevant.
    intros [m [book|]] Hn; [|done]. exfalso. apply Hn. by eexists.
  - intros opp Hin. simpl in Hin.
    unfold hasOpportunity, getOpportunity. simpl.
    rewrite store_found_lookup.
    unfold found in Hin. apply list_elem_of_omap in Hin as ([m f] & Hs & Ho).
    simpl in Ho. pose proof (scanMarket_marketId _ _ _ _ _ Ho) as Hm.
    assert (opp ∈ foundFor (config d) scans now (marketId opp)) as Hfor.
    { unfold foundFor, found. apply list_elem_of_omap. exists (m, f).
      split; [|done]. apply list_elem_of_filter. by split. }
    destruct (last (foundFor (config d) scans now (marketId opp)))
      as [x|] eqn:Hl.
    + apply last_Some_elem_of in Hl as Hx.
      unfold foundFor, found in Hx.
      apply list_elem_of_omap in Hx as ([m' f'] & Hs' & Ho').
      apply list_elem_of_filter in Hs' as [_ Hs'].
      destruct (scanMarket_internal_valid _ _ _ _ _ Ho') as (_ & _ & ->).
      split; [done|]. exists x. split; [done|].
      unfold found. apply list_elem_of_omap. by exists (m', f').
    + apply last_None in Hl. rewrite Hl in Hfor.
      by apply elem_of_nil in Hfor.
Qed.

End DetectorMore.


(** On [layeredBook]: the NO side has no best ask; the best YES ask is
    the first of the two asks at 0.48. *)
Lemma getBestAsk_first_lowest_witness :
  ArbitrageDetector.getBestAsk layeredBook NO = None /\
  exists earlier later,
    ArbitrageDetector.asks layeredBook YES
      = earlier ++ {| ArbitrageDetector.price := 0.48;
                      ArbitrageDetector.size := Some 100 |} :: later /\
    (forall b, b ∈ earlier -> 0.48 < ArbitrageDetector.price b) /\
    (forall b, b ∈ later -> 0.48 <= ArbitrageDetector.price b).
Proof.
  split.
  - apply (proj1 (getBestAsk_first_lowest layeredBook NO)). reflexivity.
  - apply (proj2 (getBestAsk_first_lowest layeredBook YES)
             {| ArbitrageDetector.price := 0.48;
                ArbitrageDetector.size := Some 100 |}).
    reflexivity.
Defined.

(** On [cheapBook]: a combined cost of 0.97. *)
Lemma internal_opportunity_profit_witness :
  ArbitrageDetector.totalCost cachedOpportunity < 0.99 / 1.01 /\
  exists q,
    ArbitrageDetector.profitPct cachedOpportunity = JS.Finite q /\ 1 / 99 < q.
Proof.
  apply (internal_opportunity_profit "m1" cheapBook 1000 cachedOpportunity).
  - reflexivity.
  - by vm_compute.
Defined.

(** On a batch of two markets, the first of which could not be fetched. *)
Lemma scanMarkets_collects_successes_witness :
  let scanned :=
    ArbitrageDetector.scanMarkets (ArbitrageDetector.create exampleArb)
      [("m0"%string, None); ("m1"%string, Some cheapBook)] 1000 in
  ArbitrageDetector.hasOpportunity (snd scanned) "m1" = true.
Proof.
  apply (proj2 (scanMarkets_collects_successes
                  (ArbitrageDetector.create exampleArb)
                  [("m0"%string, None); ("m1"%string, Some cheapBook)] 1000)
           cachedOpportunity).
  vm_compute. repeat constructor.
Defined.

(** ** The order executor *)

Section GatewayMore.

Import OrderExecutor.

Lemma truthyStr_nonempty (s : option string) (x : string) :
  JS.truthyStr s = Some x -> x <> ""%string.
Proof. destruct s as [[|]|]; simpl; congruence. Qed.

Lemma serve_calls (v : Venue) (ex : t) (r : Request) :
  exists sent, calls (serve v ex r) = calls ex ++ sent /\ (length sent <= 1)%nat.
Proof.
  destruct r as [mid o s p sz|oid]; cbn [serve].
  - rewrite placeOrder_calls. eexists. split; [done|]. simpl. lia.
  - unfold cancelOrder. repeat case_match; simpl.
    + eexists. split; [done|]. simpl. lia.
    + eexists. split; [done|]. simpl. lia.
    + exists []. split; [by rewrite app_nil_r|]. simpl. lia.
Qed.

Lemma serve_keeps (v : Venue) (ex : t) (r : Request) (oid : string) :
  is_Some (activeOrders ex !! oid) ->
  is_Some (activeOrders (serve v ex r) !! oid).
Proof.
  intros Hin. destruct r as [mid o s p sz|oid']; cbn [serve].
  - unfold placeOrder. repeat case_match; simpl; try done.
    rewrite lookup_insert_is_Some. destruct (decide (s0 = oid)); auto.
  - unfold cancelOrder. repeat case_match; simpl; try done.
    destruct (decide (oid' = oid)) as [->|Hne].
    + rewrite lookup_alter_eq. by apply fmap_is_Some.
    + by rewrite lookup_alter_ne.
Qed.

Lemma serve_well_formed (v : Venue) (ex : t) (r : Request) :
  (forall oid order,
     activeOrders ex !! oid = Some order ->
     orderId order = oid /\ oid <> ""%string /\
     (status order = "pending"%string \/ status order = "cancelled"%string) /\
     PlaceCall (marketId order) (outcome order) (side order) (price order)
       (size order) ∈ calls ex) ->
  forall oid order,
    activeOrders (serve v ex r) !! oid = Some order ->
    orderId order = oid /\ oid <> ""%string /\
    (status order = "pending"%string \/ status order = "cancelled"%string) /\
    PlaceCall (marketId order) (outcome order) (side order) (price order)
      (size order) ∈ calls (serve v ex r).
Proof.
  intros Hinv oid order.
  destruct (serve_calls v ex r) as (sent & Hcalls & _).
  assert (forall x, x ∈ calls ex -> x ∈ calls (serve v ex r)) as Hmono.
  { intros x Hx. rewrite Hcalls. apply elem_of_app. by left. }
  destruct r as [mid o s p sz|oid']; cbn [serve] in *.
  - unfold placeOrder in *.
    destruct (placeAnswer v _) as [res|] eqn:Hans; simpl in *;
      [|intros H; destruct (Hinv _ _ H) as (?&?&?&?); auto].
    destruct (JS.truthyStr _) as [new|] eqn:Hid; simpl in *;
      [|intros H; destruct (Hinv _ _ H) as (?&?&?&?); auto].
    destruct (decide (new = oid)) as [->|Hne].
    + rewrite lookup_insert_eq. intros [= <-]. simpl.
      split; [done|]. split; [by eapply truthyStr_nonempty|].
      split; [by left|]. apply elem_of_app. right. by constructor.
    + rewrite lookup_insert_ne by done.
      intros H; destruct (Hinv _ _ H) as (?&?&?&?); auto.
  - unfold cancelOrder in *.
    destruct (activeOrders ex !! oid') as [old|] eqn:Hold;
      [|intros H; destruct (Hinv _ _ H) as (?&?&?&?); auto].
    destruct (cancelAnswer v _) eqn:Hans; simpl in *;
      [|intros H; destruct (Hinv _ _ H) as (?&?&?&?); auto].
    destruct (decide (oid' = oid)) as [->|Hne].
    + rewrite lookup_alter_eq, Hold. intros [= <-]. simpl.
      destruct (Hinv _ _ Hold) as (?&?&?&?). auto.
    + rewrite lookup_alter_ne by done.
      intros H; destruct (Hinv _ _ H) as (?&?&?&?); auto.
Qed.

(** From a new executor, after any sequence of [placeOrder] and
    [cancelOrder] calls against any venue: every tracked order sits under
    its own, non-empty id, is pending or cancelled, and carries the
    market, outcome, side, price and size of a place request that was
    sent to the venue; and no call sends more than one request. *)
Theorem tracked_orders_were_requested (v : Venue) (rs : list Request) :
  let ex := serveAll v create rs in
  tracked ex /\
  (forall oid order,
     activeOrders ex !! oid = Some order ->
     oid <> ""%string /\
     PlaceCall (marketId order) (outcome order) (side order) (price order)
       (size order) ∈ calls ex) /\
  (length (calls ex) <= length rs)%nat.
Proof.
  intros ex. subst ex. unfold serveAll.
  induction rs as [|r rs IH] using rev_ind.
  - split; [|split]; [intros oid order|intros oid order|simpl; lia];
      simpl; by rewrite lookup_empty.
  - rewrite foldl_app. cbn [foldl].
    destruct IH as (Htracked & Hreq & Hlen).
    set (ex := foldl (serve v) create rs) in *. clearbody ex.
    assert (forall oid order,
      activeOrders (serve v ex r) !! oid = Some order ->
      orderId order = oid /\ oid <> ""%string /\
      (status order = "pending"%string \/ status order = "cancelled"%string) /\
      PlaceCall (marketId order) (outcome order) (side order) (price order)
        (size order) ∈ calls (serve v ex r)) as Hinv.
    { apply serve_well_formed. intros oid order H.
      destruct (Htracked _ _ H) as [? ?]. destruct (Hreq _ _ H) as [? ?].
      auto. }
    split; [|split].
    + intros oid order H. destruct (Hinv _ _ H) as (?&?&?&?). auto.
    + intros oid order H. destruct (Hinv _ _ H) as (?&?&?&?). auto.
    + destruct (serve_calls v ex r) as (sent & -> & Hsent).
      rewrite !length_app. simpl. lia.
Qed.

(** The executor never forgets an order: once tracked, an order stays
    tracked through every later call, cancelled or not, so a cancel
    request for it is sent to the venue whenever it is asked for, also
    after it was cancelled; and the trace of requests only grows. *)
Theorem orders_stay_tracked (v : Venue) (ex : t) (rs : list Request)
    (oid : string) :
  is_Some (activeOrders ex !! oid) ->
  let ex' := serveAll v ex rs in
  is_Some (activeOrders ex' !! oid) /\
  calls ex `prefix_of` calls ex' /\
  calls (snd (cancelOrder v ex' oid)) = calls ex' ++ [CancelCall oid].
Proof.
  intros Hin ex'. subst ex'. unfold serveAll.
  assert (is_Some (activeOrders (foldl (serve v) ex rs) !! oid) /\
          calls ex `prefix_of` calls (foldl (serve v) ex rs)) as [Hkept Hpre].
  { induction rs as [|r rs IH] using rev_ind; [done|].
    rewrite foldl_app. cbn [foldl]. destruct IH as [IH1 IH2].
    split; [by apply serve_keeps|].
    destruct (serve_calls v (foldl (serve v) ex rs) r) as (sent & -> & _).
    by apply prefix_app_r. }
  split; [done|]. split; [done|].
  unfold cancelOrder. destruct Hkept as [order ->].
  by destruct (cancelAnswer v _).
Qed.

(** [cancelOrder] answers [true] exactly when the order is tracked and
    the venue accepts the request; for an unknown id nothing is sent and
    nothing changes; no other order is touched; and the order itself is
    marked cancelled on success and left as it was otherwise. *)
Theorem cancelOrder_effect (v : Venue) (ex : t) (oid : string) :
  let r := cancelOrder v ex oid in
  (fst r = true <->
   is_Some (activeOrders ex !! oid) /\
   cancelAnswer v (calls ex ++ [CancelCall oid]) = true) /\
  (activeOrders ex !! oid = None -> snd r = ex) /\
  (forall other, other <> oid ->
     activeOrders (snd r) !! other = activeOrders ex !! other) /\
  activeOrders (snd r) !! oid
    = (if fst r then markCancelled else fun o => o) <$> activeOrders ex !! oid.
Proof.
  intros r. subst r. unfold cancelOrder.
  destruct (activeOrders ex !! oid) as [order|] eqn:Hold.
  - destruct (cancelAnswer v _) eqn:Hans; simpl.
    + split; [by split; [|intros _]; eauto|]. split; [done|].
      split; [intros other Hne; by rewrite lookup_alter_ne|].
      by rewrite lookup_alter_eq, Hold.
    + split; [split; [done|by intros [_ ?]]|]. split; [done|].
      split; [done|]. by rewrite Hold.
  - simpl. split; [split; [done|by intros [[? ?] _]]|].
    split; [done|]. split; [done|]. by rewrite Hold.
Qed.

End GatewayMore.

(** On [trackingExecutor]: its order is cancelled, another order is
    placed, and a second cancel of the same order is still sent. *)
Lemma orders_stay_tracked_witness :
  let later :=
    OrderExecutor.serveAll acceptingVenue trackingExecutor
      [OrderExecutor.Cancel "order-YES";
       OrderExecutor.Place "m1" "NO" "buy" 0.49 (JS.Finite 100)] in
  is_Some (OrderExecutor.activeOrders later !! "order-YES"%string) /\
  OrderExecutor.calls trackingExecutor `prefix_of` OrderExecutor.calls later /\
  OrderExecutor.calls
    (snd (OrderExecutor.cancelOrder acceptingVenue later "order-YES"))
  = OrderExecutor.calls later ++ [OrderExecutor.CancelCall "order-YES"].
Proof.
  apply (orders_stay_tracked acceptingVenue trackingExecutor).
  vm_compute. by eexists.
Defined.

(** ** The wallet watcher *)

Section WatcherMore.

Import Config WalletMonitor.

Lemma isNewAmong_true (l : list WalletTrade) (trade : WalletTrade) :
  isNewAmong l trade = true <->
  forall e, e ∈ l -> sameTx trade e = false /\ sameFill trade e = false.
Proof.
  induction l as [|x l IH]; simpl.
  - split; [|done]. intros _ e He. by apply elem_of_nil in He.
  - destruct (sameTx trade x) eqn:Htx.
    { split; [done|]. intros H.
      destruct (H x (list_elem_of_here _ _)) as [? _]. congruence. }
    destruct (sameFill trade x) eqn:Hfill.
    { split; [done|]. intros H.
      destruct (H x (list_elem_of_here _ _)) as [_ ?]. congruence. }
    rewrite IH. split.
    + intros H e He. apply elem_of_cons in He as [-> | He]; auto.
    + intros H e He. apply H. by apply list_elem_of_further.
Qed.

Lemma grownByNew_pairs (h : list WalletTrade) :
  grownByNew h ->
  forall (i j : nat) e trade, (i < j)%nat ->
    h !! i = Some e -> h !! j = Some trade ->
    sameTx trade e = false /\ sameFill trade e = false.
Proof.
  induction 1 as [|h new Hh IH Hnew]; intros i j e trade Hij Hi Hj.
  - by rewrite lookup_nil in Hi.
  - destruct (decide (j < length h)%nat) as [Hlt|Hge].
    + rewrite lookup_app_l in Hi by lia. rewrite lookup_app_l in Hj by lia.
      exact (IH i j e trade Hij Hi Hj).
    + assert (j = length h) as ->.
      { apply lookup_lt_Some in Hj. rewrite length_app in Hj. simpl in Hj.
        lia. }
      rewrite lookup_app_l in Hi by lia.
      rewrite list_lookup_middle in Hj by done. injection Hj as <-.
      apply (proj1 (isNewAmong_true h new) Hnew).
      by eapply list_elem_of_lookup_2.
Qed.

Lemma historyOf_emit (wm : t) (addr addr' : string) (trade : WalletTrade) :
  historyOf (emit wm addr trade) addr'
  = if decide (addr' = addr) then historyOf wm addr ++ [trade]
    else historyOf wm addr'.
Proof.
  unfold historyOf, emit; simpl. case_decide as Heq.
  - subst. by rewrite lookup_insert_eq.
  - by rewrite lookup_insert_ne.
Qed.

Lemma consistent_create (cfgs : list WalletConfig) (callback : bool) :
  consistent (create cfgs callback).
Proof.
  assert (forall addr, historyOf (create cfgs callback) addr = []) as Hh.
  { intros addr. unfold historyOf, create; simpl. rewrite lookup_fmap.
    by destruct (_ !! addr). }
  split.
  - intros addr cfg H. unfold create in H; simpl in H.
    apply elem_of_list_to_map_2 in H. rewrite elem_of_reverse in H.
    apply list_elem_of_fmap_1 in H as (wc & [= -> ->] & Hwc).
    apply list_elem_of_filter in Hwc as [? _]. done.
  - intros addr trade. rewrite Hh. intros H. by apply elem_of_nil in H.
  - intros addr. rewrite Hh. constructor.
  - intros addr. rewrite Hh. done.
  - intros addr. rewrite Hh. simpl. by destruct callback.
Qed.

Lemma consistent_checkWallet_configs (wm : t) (addr : string)
    (fetched : option (list RawTrade)) (now : Z) :
  walletConfigs (checkWallet wm addr fetched now) = walletConfigs wm.
Proof.
  unfold checkWallet.
  destruct (walletConfigs wm !! addr) as [cfg|]; [|done].
  destruct fetched as [raws|]; [|done].
  assert (walletConfigs (countCheck wm addr) = walletConfigs wm) as H0 by done.
  generalize dependent (countCheck wm addr).
  induction raws as [|raw raws IH]; intros wm0 H0; [done|].
  cbn [foldl]. apply IH. rewrite <- H0.
  unfold observe, emitIfNew, emit, rememberPosition. by repeat case_match.
Qed.

Lemma consistent_emitIfNew (wm : t) (addr : string) (trade : WalletTrade) :
  consistent wm -> walletAddress trade = addr ->
  is_Some (walletConfigs wm !! addr) ->
  consistent (emitIfNew wm addr trade).
Proof.
  intros [Hk Ho Hn Hw Hl] Haddr Hcfg. unfold emitIfNew, isNewTrade.
  rewrite Haddr. fold (historyOf wm addr).
  destruct (isNewAmong (historyOf wm addr) trade) eqn:Hnew; [|done].
  split.
  - done.
  - intros addr' x. rewrite historyOf_emit. case_decide as Heq.
    + subst addr'. intros Hx. apply elem_of_app in Hx as [Hx|Hx]; [by apply Ho|].
      apply list_elem_of_singleton in Hx as ->. done.
    + apply Ho.
  - intros addr'. rewrite historyOf_emit. case_decide; [|done].
    by constructor.
  - intros addr'. rewrite historyOf_emit. unfold emit; simpl.
    case_decide as Heq.
    + subst addr'. by rewrite lookup_insert_eq, last_snoc.
    + by rewrite lookup_insert_ne.
  - intros addr'. rewrite historyOf_emit. unfold emit; simpl.
    specialize (Hl addr'). destruct (tradeCallback wm).
    + rewrite filter_app, Hl. case_decide as Heq.
      * subst addr'. by rewrite filter_cons_True.
      * rewrite filter_cons_False by congruence. by rewrite app_nil_r.
    + exact Hl.
Qed.

Lemma consistent_observe (wm : t) (addr : string) (cfg : WalletConfig)
    (now : Z) (tradeData : RawTrade) :
  consistent wm -> walletConfigs wm !! addr = Some cfg ->
  consistent (observe addr cfg now wm tradeData) /\
  walletConfigs (observe addr cfg now wm tradeData) = walletConfigs wm.
Proof.
  intros Hc Hcfg. unfold observe.
  destruct (parseTrade tradeData cfg now) as [trade|] eqn:Hp; [|done].
  apply parseTrade_walletAddress in Hp as Hw.
  destruct (consistent_keys wm Hc addr cfg Hcfg) as [Ha _].
  rewrite Ha in Hw.
  assert (forall wm0, consistent wm0 -> walletConfigs wm0 = walletConfigs wm ->
            consistent (emitIfNew wm0 addr trade) /\
            walletConfigs (emitIfNew wm0 addr trade) = walletConfigs wm) as He.
  { intros wm0 H0 Heq. split.
    - apply consistent_emitIfNew; [done..|]. by rewrite Heq, Hcfg.
    - unfold emitIfNew. by destruct (isNewTrade wm0 trade). }
  destruct (JS.truthyStr (positionId tradeData)) as [pid|]; [|by apply He].
  case_decide; [done|]. apply He; [|done].
  destruct Hc as [Hk Ho Hn Hwm Hl]. by split.
Qed.

Lemma consistent_checkWallet (wm : t) (addr : string)
    (fetched : option (list RawTrade)) (now : Z) :
  consistent wm ->
  consistent (checkWallet wm addr fetched now) /\
  walletConfigs (checkWallet wm addr fetched now) = walletConfigs wm /\
  tradeCallback (checkWallet wm addr fetched now) = tradeCallback wm.
Proof.
  intros Hc. unfold checkWallet.
  destruct (walletConfigs wm !! addr) as [cfg|] eqn:Hcfg; [|done].
  destruct fetched as [raws|]; [|done].
  assert (consistent (countCheck wm addr)) as Hc0.
  { destruct Hc as [Hk Ho Hn Hwm Hl]. by split. }
  assert (walletConfigs (countCheck wm addr) = walletConfigs wm) as Hw0 by done.
  assert (tradeCallback (countCheck wm addr) = tradeCallback wm) as Ht0 by done.
  generalize dependent (countCheck wm addr).
  induction raws as [|raw raws IH]; intros wm0 Hc0 Hw0 Ht0; [done|].
  cbn [foldl].
  destruct (consistent_observe wm0 addr cfg now raw Hc0) as [H1 H2];
    [by rewrite Hw0|].
  apply IH; [done|by rewrite H2|].
  rewrite <- Ht0. unfold observe, emitIfNew, emit, rememberPosition.
  by repeat case_match.
Qed.

Lemma consistent_runPolls (wm : t) (polls : list Poll) :
  consistent wm ->
  consistent (runPolls wm polls) /\
  walletConfigs (runPolls wm polls) = walletConfigs wm /\
  tradeCallback (runPolls wm polls) = tradeCallback wm.
Proof.
  revert wm. induction polls as [|p polls IH]; intros wm Hc; [done|].
  unfold runPolls. cbn [foldl].
  destruct (consistent_checkWallet wm (pollAddress p) (pollFetched p)
              (pollNow p) Hc) as (H1 & H2 & H3).
  destruct (IH _ H1) as (H4 & H5 & H6).
  split; [done|]. split; [by rewrite <- H2|by rewrite <- H3].
Qed.

Lemma default_truthyStr (x : option string) :
  default ""%string (JS.truthyStr x) = default ""%string x.
Proof. by destruct x as [[|]|]. Qed.

Lemma asOutcome_Some (s : string) (o : Outcome) :
  asOutcome s = Some o <-> s = outcomeName o.
Proof.
  unfold asOutcome.
  destruct (String.eqb_spec s "YES") as [->|Hy];
    [by destruct o; split|].
  destruct (String.eqb_spec s "NO") as [->|Hn];
    [by destruct o; split|].
  by destruct o; split.
Qed.

Lemma asSide_Some (s : string) (sd : Side) :
  asSide s = Some sd <-> s = sideName sd.
Proof.
  unfold asSide.
  destruct (String.eqb_spec s "buy") as [->|Hy];
    [by destruct sd; split|].
  destruct (String.eqb_spec s "sell") as [->|Hn];
    [by destruct sd; split|].
  by destruct sd; split.
Qed.

Lemma parseTrade_price (raw : RawTrade) (cfg : WalletConfig) (now : Z) :
  rawPrice raw <= 0 -> parseTrade raw cfg now = None.
Proof.
  intros Hle. unfold parseTrade.
  assert (JS.leb (rawPrice raw) 0 = true) as ->
    by by apply Qle_bool_iff.
  by repeat case_match.
Qed.

(** [parseTrade] accepts a payload exactly when it names a market, its
    outcome reads YES or NO whatever the case of the letters, its side
    reads buy or sell whatever the case, and its price is positive.  An
    accepted trade belongs to the configured wallet, has a positive
    price and a size in USD that is size times price, and is dated at
    the payload's timestamp, or at the instant of parsing when the
    payload has none. *)
Theorem parseTrade_accepts (raw : RawTrade) (cfg : WalletConfig) (now : Z) :
  (is_Some (parseTrade raw cfg now) <->
   is_Some (JS.truthyStr (JS.orStr (marketNestedId raw) (rawMarketId raw))) /\
   (exists o, toUpperCase (default ""%string (rawOutcome raw)) = outcomeName o) /\
   (exists s, toLowerCase (default ""%string (rawSide raw)) = sideName s) /\
   0 < rawPrice raw) /\
  (forall trade, parseTrade raw cfg now = Some trade ->
     walletAddress trade = address cfg /\
     marketId trade <> ""%string /\
     toUpperCase (default ""%string (rawOutcome raw))
       = outcomeName (outcome trade) /\
     toLowerCase (default ""%string (rawSide raw)) = sideName (side trade) /\
     0 < price trade /\
     sizeUsd trade = size trade * price trade /\
     timestamp trade = default now (rawTimestamp raw)).
Proof.
  unfold parseTrade.
  rewrite !default_truthyStr.
  destruct (JS.truthyStr (JS.orStr (marketNestedId raw) (rawMarketId raw)))
    as [mid|] eqn:Hmid.
  2: { split; [|done]. split; [by intros [? ?]|by intros [[? ?] _]]. }
  apply truthyStr_nonempty in Hmid as Hne.
  destruct (asOutcome _) as [o|] eqn:Ho.
  2: { split; [|done]. split; [by intros [? ?]|]. intros (_ & [o Heq] & _).
       apply asOutcome_Some in Heq. congruence. }
  destruct (asSide _) as [sd|] eqn:Hs.
  2: { split; [|done]. split; [by intros [? ?]|].
       intros (_ & _ & [sd Heq] & _). apply asSide_Some in Heq. congruence. }
  apply asOutcome_Some in Ho. apply asSide_Some in Hs.
  destruct (leb_reflect (rawPrice raw) 0) as [Hle|Hgt].
  - split; [|done]. split; [by intros [? ?]|]. intros (_ & _ & _ & Hpos).
    exfalso. by apply (Qlt_not_le _ _ Hpos).
  - apply Qnot_le_lt in Hgt. split.
    + split; [|by eauto]. intros _. eauto 10.
    + intros trade [= <-]. simpl. done.
Qed.

(** From a new watcher, after any sequence of polls, the history of a
    wallet holds no two trades that [isNewTrade] would call the same: a
    later trade never carries the transaction id of an earlier one, and
    never matches an earlier one on market, outcome and side within five
    seconds. *)
Theorem history_has_no_duplicates (cfgs : list WalletConfig) (callback : bool)
    (polls : list Poll) (addr : string) :
  let h := historyOf (runPolls (create cfgs callback) polls) addr in
  forall (i j : nat) (earlier later : WalletTrade),
    (i < j)%nat -> h !! i = Some earlier -> h !! j = Some later ->
    (forall tx, txHash later = Some tx -> tx <> ""%string ->
       txHash earlier <> Some tx) /\
    ~ (marketId earlier = marketId later /\ outcome earlier = outcome later /\
       side earlier = side later /\
       (Z.abs (timestamp earlier - timestamp later) < 5000)%Z).
Proof.
  intros h i j earlier later Hij Hi Hj.
  destruct (consistent_runPolls (create cfgs callback) polls
              (consistent_create cfgs callback)) as (Hc & _ & _).
  destruct (grownByNew_pairs h (consistent_new _ Hc addr) i j earlier later
              Hij Hi Hj) as [Htx Hfill].
  split.
  - intros tx Hlater Hne Hearlier. unfold sameTx in Htx.
    rewrite Hlater in Htx. destruct tx as [|c tx]; [done|]. simpl in Htx.
    by rewrite bool_decide_eq_false in Htx.
  - intros H. apply sameFill_true in H. congruence.
Qed.

(** From a new watcher, after any sequence of polls, the watermark of a
    wallet (the [since] of its next request) is the timestamp of the
    trade appended last to its history, whether or not an earlier trade
    is more recent; a wallet without history has no watermark. *)
Theorem watermark_is_last_emitted (cfgs : list WalletConfig) (callback : bool)
    (polls : list Poll) (addr : string) :
  let wm := runPolls (create cfgs callback) polls in
  lastTradeTimestamps wm !! addr = timestamp <$> last (historyOf wm addr).
Proof.
  intros wm.
  destruct (consistent_runPolls (create cfgs callback) polls
              (consistent_create cfgs callback)) as (Hc & _ & _).
  apply (consistent_watermark _ Hc).
Qed.

(** From a new watcher with a callback, after any sequence of polls, the
    callback was invoked on exactly the trades of the histories: the
    invocations for a wallet are its history, in order, and every
    invocation is for a wallet that is configured and enabled. *)
Theorem callback_sees_history (cfgs : list WalletConfig) (polls : list Poll) :
  let wm := runPolls (create cfgs true) polls in
  (forall addr,
     filter (fun trade => walletAddress trade = addr) (callbackLog wm)
     = historyOf wm addr) /\
  (forall trade, trade ∈ callbackLog wm ->
     exists cfg, cfg ∈ cfgs /\ enabled cfg = true /\
       address cfg = walletAddress trade).
Proof.
  intros wm.
  destruct (consistent_runPolls (create cfgs true) polls
              (consistent_create cfgs true)) as (Hc & Hcfgs & Hcb).
  fold wm in Hc, Hcfgs, Hcb.
  assert (forall addr,
     filter (fun trade => walletAddress trade = addr) (callbackLog wm)
     = historyOf wm addr) as Hlog.
  { intros addr. rewrite (consistent_log _ Hc addr), Hcb. done. }
  split; [done|]. intros trade Hin.
  assert (trade ∈ historyOf wm (walletAddress trade)) as Hh.
  { rewrite <- Hlog. by apply list_elem_of_filter. }
  destruct (consistent_owner _ Hc _ _ Hh) as [_ [cfg Hcfg]].
  rewrite Hcfgs in Hcfg. exists cfg.
  destruct (consistent_keys _ (consistent_create cfgs true) _ _ Hcfg)
    as [Ha He].
  split; [|done].
  unfold create in Hcfg; simpl in Hcfg.
  apply elem_of_list_to_map_2 in Hcfg. rewrite elem_of_reverse in Hcfg.
  apply list_elem_of_fmap_1 in Hcfg as (wc & [= _ ->] & Hwc).
  by apply list_elem_of_filter in Hwc as [_ ?].
Qed.

Lemma known_observe (wm : t) (addr addr' : string) (cfg : WalletConfig)
    (now : Z) (raw : RawTrade) (pid : string) :
  pid ∈ default ∅ (lastKnownPositions wm !! addr) ->
  pid ∈ default ∅ (lastKnownPositions (observe addr' cfg now wm raw) !! addr).
Proof.
  intros Hin. unfold observe.
  assert (forall wm0 trade,
            lastKnownPositions (emitIfNew wm0 addr' trade)
            = lastKnownPositions wm0) as He.
  { intros wm0 trade. unfold emitIfNew. by destruct (isNewTrade wm0 trade). }
  destruct (parseTrade raw cfg now) as [trade|]; [|done].
  destruct (JS.truthyStr (positionId raw)) as [pid'|]; [|by rewrite He].
  case_decide; [done|]. rewrite He. unfold rememberPosition; simpl.
  destruct (decide (addr' = addr)) as [->|Hne].
  - rewrite lookup_insert_eq. simpl. set_solver.
  - by rewrite lookup_insert_ne.
Qed.

Lemma known_runPolls (wm : t) (polls : list Poll) (addr pid : string) :
  pid ∈ default ∅ (lastKnownPositions wm !! addr) ->
  pid ∈ default ∅ (lastKnownPositions (runPolls wm polls) !! addr).
Proof.
  revert wm. induction polls as [|p polls IH]; intros wm Hin; [done|].
  unfold runPolls. cbn [foldl]. apply IH. unfold checkWallet.
  destruct (walletConfigs wm !! pollAddress p) as [cfg|]; [|done].
  destruct (pollFetched p) as [raws|]; [|done].
  assert (pid ∈ default ∅ (lastKnownPositions (countCheck wm (pollAddress p))
                             !! addr)) as H0 by done.
  generalize dependent (countCheck wm (pollAddress p)).
  induction raws as [|raw raws IHr]; intros wm0 H0; [done|].
  cbn [foldl]. apply IHr. by apply known_observe.
Qed.

(** A position id is acted on once per wallet: after a payload carrying
    a position id was parsed for a wallet, whether or not its trade was
    emitted, every later payload of that wallet with the same position
    id is dropped without any effect, whatever else it holds. *)
Theorem position_seen_once (wm : t) (addr : string) (cfg : WalletConfig)
    (now : Z) (raw : RawTrade) (pid : string) (polls : list Poll) :
  is_Some (parseTrade raw cfg now) ->
  JS.truthyStr (positionId raw) = Some pid ->
  let wm' := runPolls (observe addr cfg now wm raw) polls in
  forall cfg' now' raw',
    JS.truthyStr (positionId raw') = Some pid ->
    observe addr cfg' now' wm' raw' = wm'.
Proof.
  intros [trade Hp] Hpid wm' cfg' now' raw' Hpid'.
  assert (pid ∈ default ∅ (lastKnownPositions wm' !! addr)) as Hknown.
  { apply known_runPolls. unfold observe. rewrite Hp, Hpid.
    case_decide as Hin; [done|].
    replace (lastKnownPositions
               (emitIfNew (rememberPosition wm addr pid) addr trade))
      with (lastKnownPositions (rememberPosition wm addr pid))
      by (unfold emitIfNew; by destruct (isNewTrade _ trade)).
    unfold rememberPosition; simpl. rewrite lookup_insert_eq. simpl.
    set_solver. }
  unfold observe. destruct (parseTrade raw' cfg' now'); [|done].
  rewrite Hpid'. by case_decide.
Qed.

Lemma create_unwatched (cfgs : list WalletConfig) (callback : bool)
    (addr : string) :
  (forall wc, wc ∈ cfgs -> address wc = addr -> enabled wc = false) ->
  walletConfigs (create cfgs callback) !! addr = None.
Proof.
  intros Hoff. apply eq_None_not_Some. intros [cfg Hcfg].
  destruct (consistent_keys _ (consistent_create cfgs callback) _ _ Hcfg)
    as [Ha He].
  unfold create in Hcfg; simpl in Hcfg.
  apply elem_of_list_to_map_2 in Hcfg. rewrite elem_of_reverse in Hcfg.
  apply list_elem_of_fmap_1 in Hcfg as (wc & [= _ ->] & Hwc).
  apply list_elem_of_filter in Hwc as [_ Hwc].
  rewrite (Hoff _ Hwc Ha) in He. done.
Qed.

(** A wallet that has no enabled entry in the configuration is never
    watched: polls of its address change nothing, not even the check
    count, its history stays empty, the callback is never invoked for
    it, and it has no statistics. *)
Theorem unwatched_wallet_is_ignored (cfgs : list WalletConfig)
    (callback : bool) (polls : list Poll) (addr : string) :
  (forall wc, wc ∈ cfgs -> address wc = addr -> enabled wc = false) ->
  let wm := runPolls (create cfgs callback) polls in
  runPolls (create cfgs callback)
    (filter (fun p => pollAddress p <> addr) polls) = wm /\
  historyOf wm addr = [] /\
  (forall trade, trade ∈ callbackLog wm -> walletAddress trade <> addr) /\
  getWalletStats wm addr = StatsNull.
Proof.
  intros Hoff wm.
  pose proof (create_unwatched cfgs callback addr Hoff) as Hnone.
  destruct (consistent_runPolls (create cfgs callback) polls
              (consistent_create cfgs callback)) as (Hc & Hcfgs & Hcb).
  fold wm in Hc, Hcfgs, Hcb.
  assert (historyOf wm addr = []) as Hh.
  { destruct (historyOf wm addr) as [|x l] eqn:E; [done|].
    destruct (consistent_owner _ Hc addr x) as [_ [cfg Hcfg]].
    - rewrite E. apply list_elem_of_here.
    - rewrite Hcfgs, Hnone in Hcfg. done. }
  split; [|split; [done|split]].
  - subst wm. clear Hc Hcfgs Hcb Hh.
    generalize dependent (create cfgs callback).
    induction polls as [|p polls IH]; intros wm Hnone; [done|].
    rewrite filter_cons. unfold runPolls in *. case_decide as Hp.
    + cbn [foldl]. apply IH.
      by rewrite consistent_checkWallet_configs.
    + cbn [foldl]. rewrite Hp.
      replace (checkWallet wm addr (pollFetched p) (pollNow p)) with wm
        by (unfold checkWallet; by rewrite Hnone).
      by apply IH.
  - intros trade Hin Ha.
    assert (trade ∈ filter (fun trade => walletAddress trade = addr)
                      (callbackLog wm)) as Hf
      by by apply list_elem_of_filter.
    rewrite (consistent_log _ Hc addr), Hh in Hf.
    destruct (tradeCallback wm); by apply elem_of_nil in Hf.
  - unfold getWalletStats. by rewrite Hcfgs, Hnone.
Qed.

Lemma sides_partition (h : list WalletTrade) :
  (length (filter (fun t => side t = buy) h)
   + length (filter (fun t => side t = sell) h) = length h)%nat.
Proof.
  induction h as [|x h IH]; [done|].
  rewrite !filter_cons. destruct (side x) eqn:E; simpl; lia.
Qed.

Lemma countTrade_lookup (h : list WalletTrade) (m : string) :
  foldl countTrade ∅ h !! m
  = match filter (fun t => marketId t = m) h with
    | [] => None
    | hm => Some {| trades := length hm;
                    volumeUsd := foldl (fun sum t => sum + sizeUsd t) 0 hm |}
    end.
Proof.
  induction h as [|x h IH] using rev_ind; [done|].
  rewrite foldl_app, filter_app. cbn [foldl].
  set (M := foldl countTrade ∅ h) in *. clearbody M.
  rewrite filter_cons, filter_nil. unfold countTrade.
  destruct (decide (marketId x = m)) as [<-|Hne].
  - rewrite lookup_insert_eq.
    destruct (filter (fun t => marketId t = marketId x) h) as [|y hm] eqn:E.
    + rewrite IH. rewrite lookup_insert_eq. done.
    + rewrite IH. simpl. rewrite IH. simpl.
      rewrite length_app, foldl_app. simpl. done.
  - rewrite app_nil_r, lookup_insert_ne by done.
    destruct (M !! marketId x); [done|]. by rewrite lookup_insert_ne.
Qed.

(** [getWalletStats] answers [null] exactly for a wallet that is not
    watched.  When it reports statistics the history is not empty, the
    buys and the sells add up to the number of trades, the last trade is
    the one appended last, and the entry of a market counts the trades
    of the history in that market and sums their sizes in USD; a market
    without trades has no entry. *)
Theorem getWalletStats_totals (wm : t) (addr : string) :
  (getWalletStats wm addr = StatsNull <-> walletConfigs wm !! addr = None) /\
  (forall s, getWalletStats wm addr = Stats s ->
     let h := historyOf wm addr in
     totalTrades s = length h /\ (0 < length h)%nat /\
     (buyTrades s + sellTrades s = totalTrades s)%nat /\
     timestamp <$> last h = Some (lastTrade s) /\
     forall m,
       markets s !! m
       = match filter (fun t => marketId t = m) h with
         | [] => None
         | hm =>
             Some {| trades := length hm;
                     volumeUsd :=
                       foldl (fun sum t => sum + sizeUsd t) 0 hm |}
         end).
Proof.
  unfold getWalletStats. fold (historyOf wm addr).
  destruct (walletConfigs wm !! addr) as [cfg|].
  - split; [split; [by destruct (last _)|done]|].
    intros s. destruct (last (historyOf wm addr)) as [lastOne|] eqn:Hlast;
      [|done].
    intros [= <-]. simpl.
    split; [done|]. split.
    { destruct (historyOf wm addr); [done|]. simpl. lia. }
    split; [apply sides_partition|]. split; [done|].
    apply countTrade_lookup.
  - split; [done|]. done.
Qed.

End WatcherMore.

(** On [twoFills]: both buys are in the history, eight seconds apart. *)
Lemma history_has_no_duplicates_witness :
  WalletMonitor.historyOf
    (WalletMonitor.runPolls (WalletMonitor.create [exampleWallet] true)
       twoFills) "0xabc"
  = [parsedBuy 1000; parsedBuy 9000] /\
  ~ (WalletMonitor.marketId (parsedBuy 1000)
       = WalletMonitor.marketId (parsedBuy 9000) /\
     WalletMonitor.outcome (parsedBuy 1000)
       = WalletMonitor.outcome (parsedBuy 9000) /\
     WalletMonitor.side (parsedBuy 1000) = WalletMonitor.side (parsedBuy 9000) /\
     (Z.abs (WalletMonitor.timestamp (parsedBuy 1000)
             - WalletMonitor.timestamp (parsedBuy 9000)) < 5000)%Z).
Proof.
  split; [by vm_compute|].
  apply (history_has_no_duplicates [exampleWallet] true twoFills "0xabc"
           0%nat 1%nat (parsedBuy 1000) (parsedBuy 9000)).
  - lia.
  - by vm_compute.
  - by vm_compute.
Defined.

(** On [rawPosition]: the position [p1] reported at instant 1000 is
    dropped when it is reported again, an hour later and at another
    time. *)
Lemma position_seen_once_witness :
  let seen :=
    WalletMonitor.runPolls
      (WalletMonitor.observe "0xabc" exampleWallet 1000
         (WalletMonitor.create [exampleWallet] true) (rawPosition 1000))
      twoFills in
  WalletMonitor.observe "0xabc" exampleWallet 3600000 seen
    (rawPosition 3600000) = seen.
Proof.
  apply (position_seen_once (WalletMonitor.create [exampleWallet] true)
           "0xabc" exampleWallet 1000 (rawPosition 1000) "p1" twoFills).
  - vm_compute. by eexists.
  - reflexivity.
  - reflexivity.
Defined.

(** On [mixedPolls]: the poll of [0xdef], which is not configured,
    leaves no trace. *)
Lemma unwatched_wallet_is_ignored_witness :
  let wm :=
    WalletMonitor.runPolls (WalletMonitor.create [exampleWallet] true)
      mixedPolls in
  WalletMonitor.runPolls (WalletMonitor.create [exampleWallet] true)
    (filter (fun p => WalletMonitor.pollAddress p <> "0xdef"%string)
       mixedPolls) = wm /\
  WalletMonitor.historyOf wm "0xdef" = [] /\
  (forall trade, trade ∈ WalletMonitor.callbackLog wm ->
     WalletMonitor.walletAddress trade <> "0xdef"%string) /\
  WalletMonitor.getWalletStats wm "0xdef" = WalletMonitor.StatsNull.
Proof.
  apply (unwatched_wallet_is_ignored [exampleWallet] true mixedPolls "0xdef").
  intros wc Hwc Haddr. apply list_elem_of_singleton in Hwc. subst wc.
  by vm_compute in Haddr.
Defined.

(** ** The copy trader *)

Section ReplicationMore.

Import Config WalletMonitor CopyTrader.


Lemma executeArbitrageTrade_true v w arbOpp size now w1 :
  executeArbitrageTrade v w arbOpp size now = (true, w1) ->
  let mid := ArbitrageDetector.marketId arbOpp in
  arbDetector w1 = arbDetector w /\ config w1 = config w /\
  copiedTrades w1 = copiedTrades w /\
  riskManager w1
    = RiskManager.recordPosition
        (RiskManager.recordPosition (riskManager w) mid (size * 0.5) YES buy
           None now)
        mid (size * 0.5) NO buy None now /\
  OrderExecutor.calls (orderExecutor w1)
    = OrderExecutor.calls (orderExecutor w) ++
      [OrderExecutor.PlaceCall mid "YES" "buy"
         (ArbitrageDetector.yesPrice arbOpp)
         (JS.div (size * 0.5) (ArbitrageDetector.yesPrice arbOpp));
       OrderExecutor.PlaceCall mid "NO" "buy"
         (ArbitrageDetector.noPrice arbOpp)
         (JS.div (size * 0.5) (ArbitrageDetector.noPrice arbOpp))].
Proof.
  unfold executeArbitrageTrade.
  destruct (OrderExecutor.placeOrder v (orderExecutor w) _ _ _ _ _)
    as [yesOrder ex1] eqn:Hy.
  destruct (OrderExecutor.placeOrder v ex1 _ _ _ _ _) as [noOrder ex2] eqn:Hn.
  destruct yesOrder, noOrder; intros [= <-]; simpl.
  do 4 (split; [done|]).
  pose proof (placeOrder_calls v ex1 (ArbitrageDetector.marketId arbOpp)
                "NO" "buy" (ArbitrageDetector.noPrice arbOpp)
                (JS.div (size * 0.5) (ArbitrageDetector.noPrice arbOpp)))
    as H2.
  pose proof (placeOrder_calls v (orderExecutor w)
                (ArbitrageDetector.marketId arbOpp)
                "YES" "buy" (ArbitrageDetector.yesPrice arbOpp)
                (JS.div (size * 0.5) (ArbitrageDetector.yesPrice arbOpp)))
    as H1.
  rewrite Hn in H2. rewrite Hy in H1. simpl in H1, H2.
  rewrite H2, H1, <- app_assoc. done.
Qed.

Lemma executeArbitrageTrade_false v w arbOpp size now w1 :
  executeArbitrageTrade v w arbOpp size now = (false, w1) ->
  w1 = withExecutor w (orderExecutor w1).
Proof.
  unfold executeArbitrageTrade.
  destruct (OrderExecutor.placeOrder v (orderExecutor w) _ _ _ _ _)
    as [yesOrder ex1].
  destruct (OrderExecutor.placeOrder v ex1 _ _ _ _ _) as [noOrder ex2].
  destruct yesOrder, noOrder; intros [= <-]; done.
Qed.

Lemma executeCopyTrade_true v w trade size now w1 :
  executeCopyTrade v w trade size now = (true, w1) ->
  arbDetector w1 = arbDetector w /\ config w1 = config w /\
  copiedTrades w1 = copiedTrades w /\
  match hedgeOn w trade with
  | Some arbOpp =>
      let mid := ArbitrageDetector.marketId arbOpp in
      riskManager w1
        = RiskManager.recordPosition
            (RiskManager.recordPosition (riskManager w) mid (size * 0.5)
               YES buy None now)
            mid (size * 0.5) NO buy None now /\
      OrderExecutor.calls (orderExecutor w1)
        = OrderExecutor.calls (orderExecutor w) ++
          [OrderExecutor.PlaceCall mid "YES" "buy"
             (ArbitrageDetector.yesPrice arbOpp)
             (JS.div (size * 0.5) (ArbitrageDetector.yesPrice arbOpp));
           OrderExecutor.PlaceCall mid "NO" "buy"
             (ArbitrageDetector.noPrice arbOpp)
             (JS.div (size * 0.5) (ArbitrageDetector.noPrice arbOpp))]
  | None =>
      riskManager w1
        = RiskManager.recordPosition (riskManager w) (marketId trade) size
            (outcome trade) (side trade) None now /\
      OrderExecutor.calls (orderExecutor w1)
        = OrderExecutor.calls (orderExecutor w) ++
          [OrderExecutor.PlaceCall (marketId trade)
             (outcomeName (outcome trade)) (sideName (side trade))
             (price trade) (JS.div size (price trade))]
  end.
Proof.
  unfold executeCopyTrade. destruct (hedgeOn w trade) as [arbOpp|].
  - intros H. apply executeArbitrageTrade_true in H. tauto.
  - destruct (OrderExecutor.placeOrder v (orderExecutor w) _ _ _ _ _)
      as [orderResult ex1] eqn:Hp.
    destruct orderResult; intros [= <-]; simpl.
    do 4 (split; [done|]).
    pose proof (placeOrder_calls v (orderExecutor w) (marketId trade)
                  (outcomeName (outcome trade)) (sideName (side trade))
                  (price trade) (JS.div size (price trade))) as H1.
    by rewrite Hp in H1.
Qed.

Lemma executeCopyTrade_false v w trade size now w1 :
  executeCopyTrade v w trade size now = (false, w1) ->
  w1 = withExecutor w (orderExecutor w1).
Proof.
  unfold executeCopyTrade. destruct (hedgeOn w trade) as [arbOpp|].
  - apply executeArbitrageTrade_false.
  - destruct (OrderExecutor.placeOrder v (orderExecutor w) _ _ _ _ _)
      as [orderResult ex1].
    destruct orderResult; intros [= <-]; done.
Qed.

Lemma calculatePositionSize_range (cfg : WalletConfig) (trade : WalletTrade) :
  0 < calculatePositionSize cfg trade ->
  10 <= calculatePositionSize cfg trade /\
  calculatePositionSize cfg trade <= maxPositionSizeUsd cfg /\
  calculatePositionSize cfg trade
    <= sizeUsd trade * positionSizeMultiplier cfg.
Proof.
  unfold calculatePositionSize.
  destruct (ltb_reflect
              (JS.min (sizeUsd trade * positionSizeMultiplier cfg)
                 (maxPositionSizeUsd cfg)) 10) as [Hlt|Hge].
  - intros H. by apply Qlt_irrefl in H.
  - intros _. apply Qnot_lt_le in Hge. split; [done|].
    rewrite min_Qmin. split; [apply Q.le_min_r|apply Q.le_min_l].
Qed.

Lemma processTradeLog_Copied v w trade now w' :
  processTradeLog v w trade now = (Copied, w') ->
  let size := calculatePositionSize (config w) trade in
  copiedTrades w !! tradeKey trade = None /\
  enabled (config w) = true /\
  (forall filter, marketsFilter (config w) = Some filter ->
     marketId trade ∈ filter) /\
  (requireArbSignal (config w) = true ->
   ArbitrageDetector.hasOpportunity (arbDetector w) (marketId trade) = true) /\
  0 < size /\
  RiskManager.canOpenPosition (riskManager w) (marketId trade) size = true /\
  exists w1,
    executeCopyTrade v w trade size now = (true, w1) /\
    w' = withCopied w1 (<[tradeKey trade := now]> (copiedTrades w1)).
Proof.
  unfold processTradeLog, shouldCopyWallet.
  destruct (decide (is_Some (copiedTrades w !! tradeKey trade))) as [|Hnew];
    [done|].
  destruct (enabled (config w)); [|done]. cbn [negb].
  destruct (marketsFilter (config w)) as [filter|] eqn:Hf.
  - destruct (bool_decide_reflect (marketId trade ∈ filter)) as [Hin|];
      [|done]. cbn [negb].
    destruct (requireArbSignal (config w) && negb _) eqn:Hsig; [done|].
    destruct (leb_reflect (calculatePositionSize (config w) trade) 0)
      as [|Hpos]; [done|].
    destruct (RiskManager.canOpenPosition _ _ _) eqn:Hcan; [|done].
    cbn [negb].
    destruct (executeCopyTrade v w trade _ now) as [[] w1] eqn:He; [|done].
    intros [= <-]. split; [by apply eq_None_not_Some|]. split; [done|].
    split; [by intros ? [= <-]|]. split.
    { intros Hreq. rewrite Hreq in Hsig. simpl in Hsig.
      by apply negb_false_iff in Hsig. }
    split; [by apply Qnot_le_lt|]. split; [done|]. by exists w1.
  - destruct (requireArbSignal (config w) && negb _) eqn:Hsig; [done|].
    destruct (leb_reflect (calculatePositionSize (config w) trade) 0)
      as [|Hpos]; [done|].
    destruct (RiskManager.canOpenPosition _ _ _) eqn:Hcan; [|done].
    cbn [negb].
    destruct (executeCopyTrade v w trade _ now) as [[] w1] eqn:He; [|done].
    intros [= <-]. split; [by apply eq_None_not_Some|]. split; [done|].
    split; [done|]. split.
    { intros Hreq. rewrite Hreq in Hsig. simpl in Hsig.
      by apply negb_false_iff in Hsig. }
    split; [by apply Qnot_le_lt|]. split; [done|]. by exists w1.
Qed.

Lemma processTradeLog_not_Copied v w trade now :
  fst (processTradeLog v w trade now) <> Copied ->
  let w' := snd (processTradeLog v w trade now) in
  w' = withExecutor w (orderExecutor w') /\
  (fst (processTradeLog v w trade now) <> ExecutionFailed -> w' = w).
Proof.
  unfold processTradeLog.
  assert (w = withExecutor w (orderExecutor w)) as Hw by by destruct w.
  repeat case_match; simpl; try done.
  all: intros _; split; [|done].
  all: match goal with
       | H : executeCopyTrade _ _ _ _ _ = (false, _) |- _ =>
           by apply executeCopyTrade_false in H
       end.
Qed.

Lemma hedgeOn_sound (w : t) (trade : WalletTrade) :
  ArbitrageDetector.cacheSound (arbDetector w) ->
  match hedgeOn w trade with
  | Some arbOpp =>
      requireArbSignal (config w) = true /\
      ArbitrageDetector.getOpportunity (arbDetector w) (marketId trade)
        = Some arbOpp /\
      ArbitrageDetector.marketId arbOpp = marketId trade
  | None =>
      requireArbSignal (config w) = true ->
      ArbitrageDetector.hasOpportunity (arbDetector w) (marketId trade)
        = false
  end.
Proof.
  intros Hs. unfold hedgeOn, ArbitrageDetector.hasOpportunity,
    ArbitrageDetector.getOpportunity.
  destruct (requireArbSignal (config w)); [|done].
  destruct (ArbitrageDetector.activeOpportunities (arbDetector w)
              !! marketId trade) as [opp|] eqn:E; [|done].
  destruct (Hs _ _ E) as (Hm & Ht & Hv). rewrite Ht. done.
Qed.

(** A trade is copied only after it passed every gate: its key was not
    stored, the wallet is enabled, the market is in the filter when there
    is one, the market has a cached opportunity when a signal is
    required, the position size is at least 10 USD and at most the
    wallet's maximum and the scaled size of the trade, and the ledger
    admits it.  The key is then stored under the instant of the copy,
    and the total exposure is raised by the additions of the path taken:
    the position size on the directional path, half the position size
    twice on the hedged path. *)
Theorem copied_trade_passed_every_gate (v : OrderExecutor.Venue) (w : t)
    (trade : WalletTrade) (now : Z) :
  fst (processTradeLog v w trade now) = Copied ->
  let size := calculatePositionSize (config w) trade in
  let w' := snd (processTradeLog v w trade now) in
  copiedTrades w !! tradeKey trade = None /\
  enabled (config w) = true /\
  (forall filter, marketsFilter (config w) = Some filter ->
     marketId trade ∈ filter) /\
  (requireArbSignal (config w) = true ->
   ArbitrageDetector.hasOpportunity (arbDetector w) (marketId trade) = true) /\
  10 <= size /\ size <= maxPositionSizeUsd (config w) /\
  size <= sizeUsd trade * positionSizeMultiplier (config w) /\
  RiskManager.canOpenPosition (riskManager w) (marketId trade) size = true /\
  copiedTrades w' = <[tradeKey trade := now]> (copiedTrades w) /\
  RiskManager.totalExposure (riskManager w')
    = match hedgeOn w trade with
      | Some _ =>
          RiskManager.totalExposure (riskManager w) + size * 0.5 + size * 0.5
      | None => RiskManager.totalExposure (riskManager w) + size
      end.
Proof.
  intros Hc. cbv zeta.
  destruct (processTradeLog v w trade now) as [r w'] eqn:Hlog.
  simpl in Hc. subst r.
  apply processTradeLog_Copied in Hlog
    as (Hkey & Hen & Hfil & Hsig & Hpos & Hcan & w1 & Hex & ->).
  destruct (calculatePositionSize_range _ _ Hpos) as (H10 & Hmax & Hscaled).
  apply executeCopyTrade_true in Hex as (_ & _ & Hcopied & Hpath).
  do 8 (split; [done|]). simpl. split; [by rewrite Hcopied|].
  destruct (hedgeOn w trade) as [arbOpp|].
  - by destruct Hpath as [-> _].
  - by destruct Hpath as [-> _].
Qed.

(** A trade that is not copied changes nothing but the order executor:
    ledger, stored keys, detector and configuration stay as they were;
    and unless the execution itself failed, nothing changes at all and
    no request is sent. *)
Theorem uncopied_trade_changes_orders_only (v : OrderExecutor.Venue) (w : t)
    (trade : WalletTrade) (now : Z) :
  fst (processTrade v w trade now) = false ->
  let w' := snd (processTrade v w trade now) in
  riskManager w' = riskManager w /\ copiedTrades w' = copiedTrades w /\
  arbDetector w' = arbDetector w /\ config w' = config w /\
  (fst (processTradeLog v w trade now) <> ExecutionFailed -> w' = w).
Proof.
  unfold processTrade.
  destruct (processTradeLog v w trade now) as [r w'] eqn:Hlog. simpl.
  intros Hr.
  assert (fst (processTradeLog v w trade now) <> Copied) as Hne.
  { rewrite Hlog. simpl. by destruct r. }
  destruct (processTradeLog_not_Copied v w trade now Hne) as [Hw Hsame].
  rewrite Hlog in Hw, Hsame. simpl in Hw, Hsame.
  split; [by rewrite Hw|]. split; [by rewrite Hw|].
  split; [by rewrite Hw|]. split; [by rewrite Hw|]. done.
Qed.




(** Under [requireArbSignal], with a sound cache, a copied trade never
    follows the side or the outcome of the observed trade: the two
    requests sent are a YES buy and a NO buy at the cached prices, half
    the position size each, and the two positions appended to the market
    of the trade are a YES buy and a NO buy with entry price 0. *)
Theorem signal_copy_buys_both_outcomes (v : OrderExecutor.Venue) (w : t)
    (trade : WalletTrade) (now : Z) :
  requireArbSignal (config w) = true ->
  ArbitrageDetector.cacheSound (arbDetector w) ->
  fst (processTradeLog v w trade now) = Copied ->
  let size := calculatePositionSize (config w) trade in
  let w' := snd (processTradeLog v w trade now) in
  let mid := marketId trade in
  exists arbOpp,
    ArbitrageDetector.getOpportunity (arbDetector w) mid = Some arbOpp /\
    OrderExecutor.calls (orderExecutor w')
      = OrderExecutor.calls (orderExecutor w) ++
        [OrderExecutor.PlaceCall mid "YES" "buy"
           (ArbitrageDetector.yesPrice arbOpp)
           (JS.div (size * 0.5) (ArbitrageDetector.yesPrice arbOpp));
         OrderExecutor.PlaceCall mid "NO" "buy"
           (ArbitrageDetector.noPrice arbOpp)
           (JS.div (size * 0.5) (ArbitrageDetector.noPrice arbOpp))] /\
    RiskManager.positions (riskManager w') !! mid
      = Some (default [] (RiskManager.positions (riskManager w) !! mid) ++
              [{| RiskManager.marketId := mid; RiskManager.outcome := YES;
                  RiskManager.side := buy;
                  RiskManager.sizeUsd := size * 0.5;
                  RiskManager.entryPrice := 0;
                  RiskManager.timestamp := now |};
               {| RiskManager.marketId := mid; RiskManager.outcome := NO;
                  RiskManager.side := buy;
                  RiskManager.sizeUsd := size * 0.5;
                  RiskManager.entryPrice := 0;
                  RiskManager.timestamp := now |}]).
Proof.
  intros Hreq Hs Hc. cbv zeta.
  destruct (processTradeLog v w trade now) as [r w'] eqn:Hlog.
  simpl in Hc. subst r.
  apply processTradeLog_Copied in Hlog
    as (_ & _ & _ & Hsig & _ & _ & w1 & Hex & ->).
  specialize (Hsig Hreq).
  apply executeCopyTrade_true in Hex as (_ & _ & _ & Hpath).
  pose proof (hedgeOn_sound w trade Hs) as Hh.
  destruct (hedgeOn w trade) as [arbOpp|].
  - destruct Hh as (_ & Hget & Hmid). destruct Hpath as [Hrm Hcalls].
    rewrite Hmid in Hrm, Hcalls.
    exists arbOpp. split; [done|]. simpl. split; [done|].
    rewrite Hrm, recordPosition_positions, lookup_insert_eq.
    rewrite recordPosition_positions, lookup_insert_eq. simpl.
    by rewrite <- app_assoc.
  - rewrite (Hh Hreq) in Hsig. done.
Qed.

End ReplicationMore.

Lemma exampleTrader_sound :
  ArbitrageDetector.cacheSound (CopyTrader.arbDetector exampleTrader).
Proof.
  apply cacheSound_scanMarkets. intros mid opp. simpl.
  by rewrite lookup_empty.
Qed.


(** On [exampleTrader] and the buy of 50000 USD (a position of 500 USD). *)
Lemma copied_trade_passed_every_gate_witness :
  let copied :=
    snd (CopyTrader.processTradeLog acceptingVenue exampleTrader
           (parsedBuy 1000) 2000) in
  CopyTrader.copiedTrades copied
    = <[CopyTrader.tradeKey (parsedBuy 1000) := 2000%Z]>
        (CopyTrader.copiedTrades exampleTrader) /\
  RiskManager.totalExposure (CopyTrader.riskManager copied)
    = RiskManager.totalExposure (CopyTrader.riskManager exampleTrader)
      + CopyTrader.calculatePositionSize exampleWallet (parsedBuy 1000) * 0.5
      + CopyTrader.calculatePositionSize exampleWallet (parsedBuy 1000) * 0.5.
Proof.
  destruct (copied_trade_passed_every_gate acceptingVenue exampleTrader
              (parsedBuy 1000) 2000) as (_&_&_&_&_&_&_&_& Hkey & Htotal).
  - reflexivity.
  - split; [exact Hkey | exact Htotal].
Defined.

(** On [exampleTrader] and the buy of 500 USD, too small to copy. *)
Lemma uncopied_trade_changes_orders_only_witness :
  snd (CopyTrader.processTrade acceptingVenue exampleTrader smallBuy 2000)
  = exampleTrader.
Proof.
  apply (uncopied_trade_changes_orders_only acceptingVenue exampleTrader
           smallBuy 2000).
  - reflexivity.
  - by vm_compute.
Defined.


(** On [exampleTrader] and a sell of NO shares: the copy buys YES and NO. *)
Lemma signal_copy_buys_both_outcomes_witness :
  let copied :=
    snd (CopyTrader.processTradeLog acceptingVenue exampleTrader parsedSell
           2000) in
  exists arbOpp,
    ArbitrageDetector.getOpportunity (CopyTrader.arbDetector exampleTrader)
      "m1" = Some arbOpp /\
    OrderExecutor.calls (CopyTrader.orderExecutor copied)
      = OrderExecutor.calls (CopyTrader.orderExecutor exampleTrader) ++
        [OrderExecutor.PlaceCall "m1" "YES" "buy"
           (ArbitrageDetector.yesPrice arbOpp)
           (JS.div
              (CopyTrader.calculatePositionSize exampleWallet parsedSell * 0.5)
              (ArbitrageDetector.yesPrice arbOpp));
         OrderExecutor.PlaceCall "m1" "NO" "buy"
           (ArbitrageDetector.noPrice arbOpp)
           (JS.div
              (CopyTrader.calculatePositionSize exampleWallet parsedSell * 0.5)
              (ArbitrageDetector.noPrice arbOpp))].
Proof.
  destruct (signal_copy_buys_both_outcomes acceptingVenue exampleTrader
              parsedSell 2000) as (arbOpp & Hget & Hcalls & _).
  - reflexivity.
  - exact exampleTrader_sound.
  - reflexivity.
  - exists arbOpp. split; [exact Hget | exact Hcalls].
Defined.

(** ** The on-chain monitor and the client's sources of trades *)

Section ChainMore.

Import OnChainMonitor.

Lemma queryLoop_done c cur limit fuel from acc asked :
  (cur <= from)%Z \/ (limit <= 0)%Z ->
  queryLoop c cur limit fuel from acc asked = (Some acc, asked).
Proof.
  intros H. destruct fuel; [done|]. simpl.
  destruct (Z.ltb_spec from cur), (Z.ltb_spec 0 limit); simpl; try done.
  lia.
Qed.

Lemma queryLoop_fuel c cur limit fuel fuel' from acc asked :
  (Z.to_nat (cur - from) <= fuel)%nat ->
  (Z.to_nat (cur - from) <= fuel')%nat ->
  queryLoop c cur limit fuel from acc asked
  = queryLoop c cur limit fuel' from acc asked.
Proof.
  revert fuel' from acc asked.
  induction fuel as [|fuel IH]; intros fuel' from acc asked H1 H2.
  - by rewrite !queryLoop_done by (left; lia).
  - destruct fuel' as [|fuel'].
    { by rewrite !queryLoop_done by (left; lia). }
    cbn [queryLoop].
    destruct (Z.ltb_spec from cur); [|done].
    destruct (0 <? limit)%Z; [|done]. cbn [andb].
    destruct (queryFilter c from _); [| |done].
    + apply IH; lia.
    + change (1000 / 2 <? 100)%Z with false. cbv iota.
      change (1000 / 2)%Z with 500%Z. apply IH; lia.
Qed.

(** [getWalletTrades] never looks further back than 1000 blocks and asks
    for at most two ranges, both ending at the head: the range from its
    first block and, when the provider refuses that one as too large
    and more than 500 blocks are left, the range that starts 500 blocks
    later; the first 500 blocks are then never asked for again.  The
    rounds allowed to the loop are enough: more rounds give the same
    result. *)
Theorem query_window (c : Chain) (walletAddress : string) (since : option Z)
    (limit : Z) :
  let asked := snd (getWalletTrades c walletAddress since limit) in
  (length asked <= 2)%nat /\
  (headNumber c = None -> asked = []) /\
  forall cur, headNumber c = Some cur ->
    (sinceBlock c cur since = None -> asked = []) /\
    forall first, sinceBlock c cur since = Some first ->
      (cur - 1000 <= first)%Z /\
      asked
      = (if ((first <? cur) && (0 <? limit))%Z then
           (first, cur) ::
           match queryFilter c first cur with
           | TooLarge =>
               if (first + 500 <? cur)%Z then [((first + 500)%Z, cur)] else []
           | _ => []
           end
         else []) /\
      forall fuel, (Z.to_nat (cur - first) <= fuel)%nat ->
        queryLoop c cur limit fuel first [] []
        = queryLoop c cur limit (Z.to_nat (cur - first)) first [] [].
Proof.
  cbv zeta.
  assert (forall cur first, sinceBlock c cur since = Some first ->
            (cur - 1000 <= first)%Z) as Hclamp.
  { intros cur first. unfold sinceBlock.
    destruct (match since with
              | Some ts => getBlockNumberForTimestamp c ts
              | None => Some (cur - 1000)%Z
              end) as [b|]; [|done].
    destruct (Z.ltb_spec 1000 (cur - b)); intros [= <-]; lia. }
  assert (forall cur first, (cur - 1000 <= first)%Z ->
            snd (queryLoop c cur limit (Z.to_nat (cur - first)) first [] [])
            = (if ((first <? cur) && (0 <? limit))%Z then
                 (first, cur) ::
                 match queryFilter c first cur with
                 | TooLarge =>
                     if (first + 500 <? cur)%Z
                     then [((first + 500)%Z, cur)] else []
                 | _ => []
                 end
               else [])) as Hloop.
  { intros cur first Hge.
    destruct (Z.ltb_spec first cur) as [Hlt|Hle];
      [|by rewrite queryLoop_done by (left; lia)].
    destruct (Z.ltb_spec 0 limit) as [Hpos|Hneg];
      [|by rewrite queryLoop_done by (right; lia)].
    cbn [andb].
    destruct (Z.to_nat (cur - first)) as [|fuel] eqn:Hfuel; [lia|].
    cbn [queryLoop].
    destruct (Z.ltb_spec first cur); [|lia].
    destruct (Z.ltb_spec 0 limit); [|lia]. cbn [andb].
    replace (Z.min (first + 1000) cur) with cur by lia.
    destruct (queryFilter c first cur) eqn:Hq.
    - by rewrite queryLoop_done by (left; lia).
    - change (1000 / 2 <? 100)%Z with false. cbv iota.
      change (1000 / 2)%Z with 500%Z.
      destruct (Z.ltb_spec (first + 500) cur) as [Hmore|Hnone];
        [|by rewrite queryLoop_done by (left; lia)].
      destruct fuel as [|fuel]; [lia|]. cbn [queryLoop].
      destruct (Z.ltb_spec (first + 500) cur); [|lia].
      destruct (Z.ltb_spec 0 limit); [|lia]. cbn [andb].
      replace (Z.min (first + 500 + 1000) cur) with cur by lia.
      destruct (queryFilter c (first + 500) cur); [| |done].
      + by rewrite queryLoop_done by (left; lia).
      + change (1000 / 2 <? 100)%Z with false. cbv iota.
        change (1000 / 2)%Z with 500%Z.
        by rewrite queryLoop_done by (left; lia).
    - done. }
  assert (forall cur first, sinceBlock c cur since = Some first ->
            headNumber c = Some cur ->
            snd (getWalletTrades c walletAddress since limit)
            = snd (queryLoop c cur limit (Z.to_nat (cur - first)) first [] []))
    as Hasked.
  { intros cur first Hs Hh. unfold getWalletTrades. rewrite Hh, Hs.
    destruct (queryLoop c cur limit _ first [] []) as [[evs|] asked]; [|done].
    by destruct (collect _ _ _ _ _ _). }
  split; [|split].
  - destruct (headNumber c) as [cur|] eqn:Hh.
    2: { unfold getWalletTrades. rewrite Hh. simpl. lia. }
    destruct (sinceBlock c cur since) as [first|] eqn:Hs.
    2: { unfold getWalletTrades. rewrite Hh, Hs. simpl. lia. }
    rewrite (Hasked cur first Hs eq_refl).
    rewrite (Hloop cur first (Hclamp _ _ Hs)).
    destruct (_ && _); [|simpl; lia].
    destruct (queryFilter c first cur); simpl; try lia.
    destruct (first + 500 <? cur)%Z; simpl; lia.
  - intros Hh. unfold getWalletTrades. by rewrite Hh.
  - intros cur Hh. split.
    + intros Hs. unfold getWalletTrades. by rewrite Hh, Hs.
    + intros first Hs. split; [by eapply Hclamp|]. split.
      * rewrite (Hasked cur first Hs Hh). apply Hloop. by eapply Hclamp.
      * intros fuel Hfuel. by apply queryLoop_fuel.
Qed.

Lemma insertNewest_perm (a : OnChainTrade) (l : list OnChainTrade) :
  insertNewest a l ≡ₚ a :: l.
Proof.
  induction l as [|b l IH]; [done|]. simpl.
  destruct (timestamp b <=? timestamp a)%Z; [done|].
  by rewrite IH, Permutation_swap.
Qed.

Lemma sortNewest_perm (l : list OnChainTrade) : sortNewest l ≡ₚ l.
Proof.
  induction l as [|a l IH]; [done|]. simpl.
  by rewrite insertNewest_perm, IH.
Qed.

Lemma insertNewest_newestFirst (a : OnChainTrade) (l : list OnChainTrade) :
  newestFirst l -> newestFirst (insertNewest a l).
Proof.
  induction l as [|b l IH]; intros Hl; simpl.
  - split; [|done]. intros x Hx. by apply elem_of_nil in Hx.
  - destruct Hl as [Hb Hl].
    destruct (Z.leb_spec (timestamp b) (timestamp a)) as [Hle|Hgt].
    + split; [|by split]. intros x Hx.
      apply elem_of_cons in Hx as [-> | Hx]; [done|].
      specialize (Hb x Hx). lia.
    + split; [|by apply IH]. intros x Hx.
      rewrite insertNewest_perm in Hx.
      apply elem_of_cons in Hx as [-> | Hx]; [lia|by apply Hb].
Qed.

Lemma sortNewest_newestFirst (l : list OnChainTrade) :
  newestFirst (sortNewest l).
Proof.
  induction l as [|a l IH]; [done|]. simpl. by apply insertNewest_newestFirst.
Qed.

Lemma collect_built c wallet lower limit events (P : OnChainTrade -> Prop)
    trades result :
  (forall e a ts, e ∈ events -> args e = Some a -> involves lower a = true ->
     getBlock c (blockNumber e) = Block ts -> P (tradeOf wallet e a ts)) ->
  (forall t, t ∈ trades -> P t) ->
  collect c wallet lower limit events trades = Some result ->
  forall t, t ∈ result -> P t.
Proof.
  revert trades.
  induction events as [|e events IH]; intros trades Hnew Hold; simpl.
  - by intros [= <-].
  - assert (forall e a ts, e ∈ events -> args e = Some a ->
              involves lower a = true ->
              getBlock c (blockNumber e) = Block ts ->
              P (tradeOf wallet e a ts)) as Hnew'.
    { intros e' a ts He. apply Hnew. by apply list_elem_of_further. }
    destruct (args e) as [a|] eqn:Ha; [|by apply IH].
    destruct (involves lower a) eqn:Hi; [|by apply IH].
    destruct (getBlock c (blockNumber e)) as [ts| |] eqn:Hb;
      [|by apply IH|done].
    assert (forall t, t ∈ trades ++ [tradeOf wallet e a ts] -> P t) as Hold'.
    { intros t Ht. apply elem_of_app in Ht as [Ht|Ht]; [by apply Hold|].
      apply list_elem_of_singleton in Ht as ->.
      apply (Hnew e a ts); [apply list_elem_of_here|done..]. }
    destruct (limit <=? _)%Z; [|by apply IH].
    by intros [= <-].
Qed.

Lemma collect_length c wallet lower limit events trades result :
  (Z.of_nat (length trades) < limit)%Z ->
  collect c wallet lower limit events trades = Some result ->
  (Z.of_nat (length result) <= limit)%Z.
Proof.
  revert trades.
  induction events as [|e events IH]; intros trades Hlt; simpl.
  - intros [= <-]. lia.
  - destruct (args e) as [a|]; [|by apply IH].
    destruct (involves lower a); [|by apply IH].
    destruct (getBlock c (blockNumber e)) as [ts| |]; [|by apply IH|done].
    destruct (Z.leb_spec limit
                (Z.of_nat (length (trades ++ [tradeOf wallet e a ts]))))
      as [Hle|Hgt].
    + intros [= <-]. rewrite length_app in *. simpl in *. lia.
    + by apply IH.
Qed.

Lemma getWalletTrades_collected c wallet since limit :
  fst (getWalletTrades c wallet since limit) = [] \/
  exists events result,
    collect c wallet (WalletMonitor.toLowerCase wallet) limit events []
      = Some result /\
    (0 < limit)%Z /\
    fst (getWalletTrades c wallet since limit) = sortNewest result.
Proof.
  unfold getWalletTrades.
  destruct (headNumber c) as [cur|]; [|by left].
  destruct (sinceBlock c cur since) as [first|]; [|by left].
  destruct (Z.ltb_spec 0 limit) as [Hpos|Hneg].
  - destruct (queryLoop c cur limit _ first [] []) as [[evs|] asked];
      [|by left].
    destruct (collect _ _ _ _ evs []) as [result|] eqn:Hc; [|by left].
    right. by exists evs, result.
  - rewrite queryLoop_done by (right; lia). by left.
Qed.

Lemma onchain_trades_fields c walletAddress since limit trade :
  trade ∈ fst (getWalletTrades c walletAddress since limit) ->
  walletAddress = OnChainMonitor.walletAddress trade /\
  marketId trade = None /\ outcome trade = None /\ side trade = None /\
  price trade = None /\ size trade = None /\
  exists raw,
    rawData trade = Some raw /\ rawDataMarketId raw = None /\
    (rawMaker raw = WalletMonitor.toLowerCase walletAddress \/
     rawTaker raw = WalletMonitor.toLowerCase walletAddress).
Proof.
  destruct (getWalletTrades_collected c walletAddress since limit)
    as [-> | (events & result & Hc & Hpos & ->)].
  { intros H. by apply elem_of_nil in H. }
  intros Hin. rewrite sortNewest_perm in Hin. revert trade Hin.
  eapply collect_built; [|by intros t Ht; apply elem_of_nil in Ht|exact Hc].
  intros e a ts _ _ Hinv _. simpl. do 6 (split; [done|]).
  eexists. split; [done|]. split; [done|]. simpl.
  unfold involves in Hinv. apply orb_true_iff in Hinv as [H|H];
    apply String.eqb_eq in H; auto.
Qed.

(** The trades [getWalletTrades] returns are fills of the wallet asked
    for, newest first and at most [limit] of them; each of them carries
    the address as it was passed, a raw record whose maker or taker is
    that address in lower case, and no market, outcome, side, price or
    size. *)
Theorem onchain_trades_shape (c : Chain) (walletAddress : string)
    (since : option Z) (limit : Z) :
  let found := fst (getWalletTrades c walletAddress since limit) in
  newestFirst found /\
  (Z.of_nat (length found) <= Z.max 0 limit)%Z /\
  forall trade, trade ∈ found ->
    walletAddress = OnChainMonitor.walletAddress trade /\
    marketId trade = None /\ outcome trade = None /\ side trade = None /\
    price trade = None /\ size trade = None /\
    exists raw,
      rawData trade = Some raw /\ rawDataMarketId raw = None /\
      (rawMaker raw = WalletMonitor.toLowerCase walletAddress \/
       rawTaker raw = WalletMonitor.toLowerCase walletAddress).
Proof.
  cbv zeta.
  pose proof (onchain_trades_fields c walletAddress since limit) as Hfields.
  destruct (getWalletTrades_collected c walletAddress since limit)
    as [Hnil | (events & result & Hc & Hpos & Hsorted)].
  { rewrite Hnil in *. split; [done|]. split; [simpl; lia|done]. }
  rewrite Hsorted in *.
  split; [apply sortNewest_newestFirst|]. split; [|done].
  rewrite sortNewest_perm.
  pose proof (collect_length c walletAddress
                (WalletMonitor.toLowerCase walletAddress) limit events []
                result Hpos Hc) as H.
  lia.
Qed.

Lemma onchain_trade_unparsed (trade : OnChainTrade) (cfg : Config.WalletConfig)
    (now : Z) :
  price trade = None ->
  WalletMonitor.parseTrade (PolymarketClient.transformOnChainTrade trade)
    cfg now = None.
Proof.
  intros Hp. apply parseTrade_price. simpl. rewrite Hp. simpl. lra.
Qed.

(** The on-chain source hides the Data API: when the positions endpoint
    gives nothing and the on-chain monitor finds at least one fill of
    the wallet, the client returns the on-chain trades and never asks
    the activity or trades endpoints; none of these trades carries a
    price, so [parseTrade] rejects every one of them and a poll of the
    watcher on this answer emits nothing. *)
Theorem onchain_source_hides_api_trades {Position ApiTrade : Type}
    (toTrades : list Position -> string -> option Z ->
                list WalletMonitor.RawTrade)
    (fromApi : list ApiTrade -> list WalletMonitor.RawTrade)
    (positions : option (list Position))
    (activity trades : PolymarketClient.ApiReply ApiTrade)
    (c : Chain) (walletAddress : string) (since : option Z) (limit : Z) :
  positions = None \/ positions = Some [] ->
  fst (getWalletTrades c walletAddress since limit) <> [] ->
  let fetched :=
    PolymarketClient.getWalletTrades toTrades fromApi positions
      (Some (fst (getWalletTrades c walletAddress since limit)))
      activity trades walletAddress since in
  fetched
    = PolymarketClient.transformOnChainTrades
        (fst (getWalletTrades c walletAddress since limit)) /\
  (forall raw cfg now,
     raw ∈ fetched -> WalletMonitor.parseTrade raw cfg now = None) /\
  forall wm addr now,
    let wm' := WalletMonitor.checkWallet wm addr (Some fetched) now in
    WalletMonitor.tradeHistory wm' = WalletMonitor.tradeHistory wm /\
    WalletMonitor.lastTradeTimestamps wm' = WalletMonitor.lastTradeTimestamps wm /\
    WalletMonitor.callbackLog wm' = WalletMonitor.callbackLog wm /\
    WalletMonitor.lastKnownPositions wm' = WalletMonitor.lastKnownPositions wm.
Proof.
  intros Hpos Hfound. cbv zeta.
  assert (PolymarketClient.getWalletTrades toTrades fromApi positions
            (Some (fst (getWalletTrades c walletAddress since limit)))
            activity trades walletAddress since
          = PolymarketClient.transformOnChainTrades
              (fst (getWalletTrades c walletAddress since limit))) as ->.
  { unfold PolymarketClient.getWalletTrades.
    destruct (fst (getWalletTrades c walletAddress since limit)); [done|].
    by destruct Hpos as [-> | ->]. }
  split; [done|].
  assert (forall raw cfg now,
            raw ∈ PolymarketClient.transformOnChainTrades
                    (fst (getWalletTrades c walletAddress since limit)) ->
            WalletMonitor.parseTrade raw cfg now = None) as Hnone.
  { intros raw cfg now Hin.
    apply list_elem_of_fmap_1 in Hin as (trade & -> & Hin).
    apply onchain_trade_unparsed.
    by destruct (onchain_trades_fields c walletAddress since limit trade Hin)
      as (_ & _ & _ & _ & ? & _). }
  split; [done|].
  intros wm addr now. unfold WalletMonitor.checkWallet.
  destruct (WalletMonitor.walletConfigs wm !! addr) as [cfg|]; [|done].
  set (raws := PolymarketClient.transformOnChainTrades _) in *.
  clearbody raws.
  replace (foldl (WalletMonitor.observe addr cfg now)
             (WalletMonitor.countCheck wm addr) raws)
    with (WalletMonitor.countCheck wm addr); [done|].
  generalize (WalletMonitor.countCheck wm addr).
  induction raws as [|raw raws IH]; intros wm0; [done|].
  cbn [foldl]. unfold WalletMonitor.observe at 2.
  rewrite (Hnone raw cfg now) by apply list_elem_of_here.
  apply IH. intros raw' cfg' now' H. apply Hnone.
  by apply list_elem_of_further.
Qed.

End ChainMore.

(** On [refusingChain], with no [since]: the range from block 4000 is
    refused, the range from block 4500 is asked for, and the blocks 4000
    to 4499 are not asked for again. *)
Lemma query_window_witness :
  snd (OnChainMonitor.getWalletTrades refusingChain "0xabc" None 100)
  = [(4000%Z, 5000%Z); (4500%Z, 5000%Z)].
Proof.
  destruct (proj2 (proj2 (query_window refusingChain "0xabc" None 100))
              5000%Z eq_refl) as [_ Hfirst].
  destruct (Hfirst 4000%Z eq_refl) as (_ & Hasked & _).
  exact Hasked.
Defined.

(** On [exampleChain], whose fill the client returns although the
    activity endpoint has a trade to report. *)
Lemma onchain_source_hides_api_trades_witness :
  let fetched :=
    PolymarketClient.getWalletTrades
      (fun (_ : list unit) _ _ => []) (fun _ : list unit => [rawBuy 1000])
      (Some [])
      (Some (fst (OnChainMonitor.getWalletTrades exampleChain "0xABC" None
                    100)))
      (PolymarketClient.Replied (Some [tt]) None)
      PolymarketClient.RequestFailed "0xABC" None in
  length fetched = 1%nat /\
  forall raw cfg now,
    raw ∈ fetched -> WalletMonitor.parseTrade raw cfg now = None.
Proof.
  split; [by vm_compute|].
  apply (onchain_source_hides_api_trades
           (fun (_ : list unit) _ _ => []) (fun _ : list unit => [rawBuy 1000])
           (Some []) (PolymarketClient.Replied (Some [tt]) None)
           PolymarketClient.RequestFailed exampleChain "0xABC" None 100).
  - by right.
  - by vm_compute.
Defined.

(** ** The scan loop of the bot *)

Section BotMore.

Import Bot.

Lemma filterMarkets_elem (f : Filter) (markets : list Market) (m : Market) :
  m ∈ filterMarkets f markets <-> m ∈ markets /\ keeps f m = true.
Proof.
  unfold filterMarkets. rewrite !list_elem_of_In. apply filter_In.
Qed.

(** [filterMarkets] keeps the markets in their order, and the scan loop
    hands to [scanMarkets] only non-empty ids of markets that passed the
    filter: an id on the list of enabled markets when there is such a
    list, of a market whose 24 hour volume, read from either of its two
    fields, reaches the minimum. *)
Theorem scan_targets_are_listed (f : Filter) (markets : list Market) :
  filterMarkets f markets `sublist_of` markets /\
  forall target, target ∈ scanTargets f markets ->
    target <> ""%string /\
    (forall enabled, enabledMarkets f = Some enabled -> target ∈ enabled) /\
    exists m,
      m ∈ markets /\ JS.orStr (id m) (marketId m) = Some target /\
      minMarketVolume24h f
        <= JS.orElse (volume24h m) (JS.orElse (volume_24h m) 0).
Proof.
  split.
  - unfold filterMarkets. induction markets as [|m markets IH]; [done|].
    simpl. destruct (keeps f m).
    + by apply sublist_skip.
    + by apply sublist_cons.
  - intros target Hin. unfold scanTargets in Hin.
    apply list_elem_of_omap in Hin as (m & Hm & Hid).
    apply filterMarkets_elem in Hm as [Hm Hkeep].
    split; [by eapply truthyStr_nonempty|].
    assert (JS.orStr (id m) (marketId m) = Some target) as Hor.
    { destruct (JS.orStr (id m) (marketId m)) as [[|]|]; done. }
    unfold keeps in Hkeep. rewrite Hor in Hkeep.
    apply andb_true_iff in Hkeep as [Hlisted Hvol]. split; [|exists m].
    + intros enabled He. rewrite He in Hlisted.
      by apply bool_decide_eq_true in Hlisted.
    + split; [done|]. split; [done|].
      destruct (ltb_reflect
                  (JS.orElse (volume24h m) (JS.orElse (volume_24h m) 0))
                  (minMarketVolume24h f)) as [|Hge]; [done|].
      by apply Qnot_lt_le.
Qed.

End BotMore.

(** ** The exposure ledger in double precision *)

Section LedgerDouble.

Import PrimFloat RiskManagerDouble.

Local Set Warnings "-inexact-float".

Lemma double_indexOf_first_match (o : Outcome) (ps : list Position) p rest :
  filter (matches o) ps = p :: rest ->
  exists index,
    indexOf ps p = Some index /\
    delete index ps = removeFirst (matchesb o) ps /\
    matches o p /\
    S (length (delete index ps)) = length ps.
Proof.
  induction ps as [|q ps IH]; intros Hf; [done|].
  rewrite filter_cons in Hf. simpl. unfold matchesb at 1.
  destruct (decide (matches o q)) as [Hq|Hq].
  - injection Hf as -> _. exists 0%nat.
    rewrite decide_True by done. rewrite bool_decide_eq_true_2 by done.
    done.
  - destruct (IH Hf) as (i & Hi & Hdel & Hm & Hlen).
    exists (S i). rewrite bool_decide_eq_false_2 by done.
    rewrite decide_False by (intros ->; done).
    rewrite Hi. simpl.
    split; [done|]. split; [by rewrite <- Hdel|]. split; [done|].
    by rewrite Hlen.
Qed.

Lemma double_inMarket_snoc (mid : string) (l : list Position) (p : Position) :
  inMarket mid (l ++ [p]) =
  inMarket mid l ++ (if decide (marketId p = mid) then [p] else []).
Proof.
  unfold inMarket. rewrite filter_app. f_equal.
Qed.

Lemma double_inMarket_removeFirst_same (mid : string) (o : Outcome)
    (l : list Position) :
  inMarket mid (removeFirst (closes mid o) l) =
  removeFirst (matchesb o) (inMarket mid l).
Proof.
  unfold inMarket. induction l as [|p l IH]; [done|].
  simpl. rewrite filter_cons. unfold closes at 1, matchesb at 1, matches.
  destruct (decide (marketId p = mid)) as [Hm|Hm].
  - simpl. destruct (decide (outcome p = o /\ side p = buy)) as [Hp|Hp].
    + rewrite !bool_decide_eq_true_2 by tauto. done.
    + rewrite !bool_decide_eq_false_2 by tauto.
      rewrite filter_cons, decide_True by done. by rewrite IH.
  - rewrite bool_decide_eq_false_2 by tauto.
    rewrite filter_cons, decide_False by done. apply IH.
Qed.

Lemma double_inMarket_removeFirst_other (mid mid' : string) (o : Outcome)
    (l : list Position) :
  mid' <> mid ->
  inMarket mid' (removeFirst (closes mid o) l) = inMarket mid' l.
Proof.
  intros Hne. unfold inMarket. induction l as [|p l IH]; [done|].
  simpl. unfold closes at 1.
  destruct (decide (marketId p = mid /\ outcome p = o /\ side p = buy))
    as [Hp|Hp].
  - rewrite bool_decide_eq_true_2 by done.
    rewrite filter_cons, decide_False; [done|]. destruct Hp as [-> _]. done.
  - rewrite bool_decide_eq_false_2 by done.
    rewrite !filter_cons. destruct (decide (marketId p = mid')); by rewrite IH.
Qed.

(** The position [closePosition] removes is the first one of the flat
    list that the call closes. *)
Lemma double_closes_found (mid : string) (o : Outcome) (l : list Position)
    p rest :
  filter (matches o) (inMarket mid l) = p :: rest ->
  List.find (closes mid o) l = Some p /\
  S (length (removeFirst (closes mid o) l)) = length l.
Proof.
  unfold inMarket. induction l as [|q l IH]; [done|].
  simpl. unfold closes at 1 3. rewrite filter_cons.
  destruct (decide (marketId q = mid /\ outcome q = o /\ side q = buy))
    as [Hq|Hq].
  - rewrite bool_decide_eq_true_2 by done.
    destruct Hq as (Hm & Ho & Hs).
    rewrite decide_True by done. rewrite filter_cons.
    rewrite decide_True by (split; done).
    by intros [= -> _].
  - rewrite bool_decide_eq_false_2 by done. intros Hf.
    assert (filter (matches o) (filter (fun p => marketId p = mid) l)
            = p :: rest) as Hf'.
    { destruct (decide (marketId q = mid)) as [Hm|Hm]; [|done].
      rewrite filter_cons in Hf.
      destruct (decide (matches o q)) as [[Ho Hs]|Hn]; [|done].
      exfalso. apply Hq. done. }
    destruct (IH Hf') as [Hfind Hlen]. split; [done|].
    simpl. by rewrite Hlen.
Qed.

Lemma double_closes_none (mid : string) (o : Outcome) (l : list Position) :
  filter (matches o) (inMarket mid l) = [] ->
  List.find (closes mid o) l = None /\
  removeFirst (closes mid o) l = l.
Proof.
  unfold inMarket. induction l as [|q l IH]; [done|].
  simpl. unfold closes at 1 3. rewrite filter_cons.
  destruct (decide (marketId q = mid /\ outcome q = o /\ side q = buy))
    as [Hq|Hq].
  - destruct Hq as (Hm & Ho & Hs).
    rewrite decide_True by done. rewrite filter_cons.
    rewrite decide_True by (split; done). done.
  - rewrite bool_decide_eq_false_2 by done. intros Hf.
    destruct IH as [Hfind Hsame].
    { destruct (decide (marketId q = mid)) as [Hm|Hm]; [|done].
      rewrite filter_cons in Hf.
      destruct (decide (matches o q)) as [[Ho Hs]|Hn]; [done|done]. }
    split; [done|]. by rewrite Hsame.
Qed.

Lemma double_countPositions_insert (m : gmap string (list Position))
    (k : string) (l' : list Position) :
  (countPositions (<[k := l']> m) + length (default [] (m !! k))
   = countPositions m + length l')%nat.
Proof.
  unfold countPositions.
  destruct (m !! k) as [l|] eqn:E; simpl.
  - rewrite <- insert_delete_eq.
    rewrite map_fold_insert_L; [|intros; lia|apply lookup_delete_eq].
    rewrite (map_fold_delete_L _ _ k l m); [lia|intros; lia|done].
  - rewrite map_fold_insert_L; [lia|intros; lia|done].
Qed.

Lemma double_recordPosition_positions rm mid size o s entry now :
  positions (recordPosition rm mid size o s entry now) =
  <[mid := default [] (positions rm !! mid) ++
           [{| marketId := mid; outcome := o; side := s; sizeUsd := size;
               entryPrice := Double.orElse entry 0%float;
               timestamp := now |}]]>
    (positions rm).
Proof.
  unfold recordPosition; simpl.
  destruct (positions rm !! mid) as [l|] eqn:E; simpl.
  - by rewrite E.
  - by rewrite lookup_insert_eq, insert_insert_eq.
Qed.

Lemma double_closePosition_none rm mid o exit :
  filter (matches o) (default [] (positions rm !! mid)) = [] ->
  closePosition rm mid o exit = (None, rm).
Proof.
  unfold closePosition. destruct (positions rm !! mid) as [[|q ps]|]; simpl;
    [done| |done].
  intros ->. done.
Qed.

Lemma double_closePosition_some rm mid o exit p rest :
  filter (matches o) (default [] (positions rm !! mid)) = p :: rest ->
  exists index,
    indexOf (default [] (positions rm !! mid)) p = Some index /\
    closePosition rm mid o exit =
      (Some (realizedPnl exit p),
       {| config := config rm;
          positions :=
            <[mid := delete index (default [] (positions rm !! mid))]>
              (positions rm);
          totalExposure := (totalExposure rm - sizeUsd p)%float;
          dailyPnl := (dailyPnl rm + realizedPnl exit p)%float;
          lastResetDate := lastResetDate rm |}).
Proof.
  intros Hf.
  destruct (double_indexOf_first_match _ _ _ _ Hf) as (i & Hi & _).
  exists i. split; [done|].
  unfold closePosition.
  destruct (positions rm !! mid) as [[|q ps]|] eqn:E; simpl in *;
    [done| |done].
  rewrite Hf. simpl in Hi. by rewrite Hi.
Qed.

Lemma double_agrees_create cfg now : agrees (create cfg now) (0%float, []).
Proof.
  split; simpl.
  - intros mid. by rewrite lookup_empty.
  - reflexivity.
  - unfold countPositions. by rewrite map_fold_empty.
Qed.

Lemma double_agrees_step rm book c :
  agrees rm book -> agrees (step rm c) (bookStep book c).
Proof.
  destruct book as [total open].
  intros [Hm Ht Hc]. simpl in *. unfold bookStep. cbn [fst snd].
  destruct c as [mid size o s entry now|mid o exit];
    cbn [step openStep totalStep].
  - split.
    + intros mid'. rewrite double_recordPosition_positions.
      cbn [snd]. rewrite double_inMarket_snoc. simpl.
      destruct (decide (mid = mid')) as [<-|Hne].
      * by rewrite lookup_insert_eq, Hm.
      * rewrite lookup_insert_ne by done. by rewrite app_nil_r.
    + simpl. by rewrite Ht.
    + rewrite double_recordPosition_positions. cbn [snd].
      pose proof (double_countPositions_insert (positions rm) mid
        (default [] (positions rm !! mid) ++
           [{| marketId := mid; outcome := o; side := s; sizeUsd := size;
               entryPrice := Double.orElse entry 0%float;
               timestamp := now |}])) as Hk.
      rewrite length_app in *. simpl in *. lia.
  - destruct (filter (matches o) (default [] (positions rm !! mid)))
      as [|p rest] eqn:Hf.
    + rewrite double_closePosition_none by done. simpl.
      destruct (double_closes_none mid o open) as [-> ->];
        [by rewrite <- Hm|].
      by split.
    + destruct (double_closePosition_some rm mid o exit p rest Hf)
        as (i & Hi & ->). simpl.
      destruct (double_indexOf_first_match _ _ _ _ Hf)
        as (i' & Hi' & Hdel & _ & Hlen).
      assert (i' = i) as -> by congruence.
      destruct (double_closes_found mid o open p rest) as [-> Hl];
        [by rewrite <- Hm|].
      split; simpl.
      * intros mid'. destruct (decide (mid = mid')) as [<-|Hne].
        -- rewrite lookup_insert_eq. simpl.
           by rewrite double_inMarket_removeFirst_same, <- Hm.
        -- rewrite lookup_insert_ne by done.
           by rewrite double_inMarket_removeFirst_other.
      * by rewrite Ht.
      * pose proof (double_countPositions_insert (positions rm) mid
          (delete i (default [] (positions rm !! mid)))) as Hk.
        lia.
Qed.

Lemma double_agrees_run cs : forall rm book,
  agrees rm book -> agrees (run rm cs) (foldl bookStep book cs).
Proof.
  induction cs as [|c cs IH]; intros rm book H; [done|].
  simpl. apply IH. by apply double_agrees_step.
Qed.

(** C4, as amended.  After any sequence of [recordPosition] and
    [closePosition] calls on a new ledger, in the code's double
    precision: the reported total exposure is the running total of the
    calls (every recorded size added, the size of every closed position
    subtracted, in call order), the exposure reported for a market is
    the sum of the sizes of its open positions, a market that is not
    reported has no open position, and the reported count is the number
    of open positions. *)
Theorem snapshot_follows_the_calls (cfg : RiskConfig) (t0 : Z)
    (cs : list Call) (now : Z) :
  let snapshot := fst (getExposure (run (create cfg t0) cs) now) in
  (forall mid,
     default [] (positions (run (create cfg t0) cs) !! mid)
     = inMarket mid (openAfter cs)) /\
  totalExposureUsd snapshot = runningTotal cs /\
  (forall mid,
     match marketExposures snapshot !! mid with
     | Some exposure => exposure = sumSizeUsd (inMarket mid (openAfter cs))
     | None => inMarket mid (openAfter cs) = []
     end) /\
  openPositions snapshot = length (openAfter cs).
Proof.
  pose proof (double_agrees_run cs _ _ (double_agrees_create cfg t0))
    as [Hm Ht Hc].
  fold (bookAfter cs) in *. fold (openAfter cs) in *.
  fold (runningTotal cs) in *.
  assert (forall rm, positions (resetIfNewDay rm now) = positions rm
                     /\ totalExposure (resetIfNewDay rm now) = totalExposure rm)
    as Hreset.
  { intros rm. unfold resetIfNewDay. by case_decide. }
  simpl. destruct (Hreset (run (create cfg t0) cs)) as [-> ->].
  split; [done|]. split; [done|]. split; [|done].
  intros mid. rewrite lookup_fmap. specialize (Hm mid).
  destruct (positions (run (create cfg t0) cs) !! mid); simpl in *;
    by rewrite Hm.
Qed.

(** C4, as stated, fails on [driftingCalls]: after a buy of 0.1 USD, a
    buy of 0.2 USD and the close of the first, the one open position is
    the buy of 0.2 USD and the snapshot reports a total exposure of
    0.20000000000000004 USD, which is not the sum of the sizes of the
    open positions, neither as a value nor under the comparison of
    JavaScript.  After the close of the second position as well, no
    position is open and the reported total is not zero. *)
Lemma snapshot_total_drifts :
  let ledger := run (create exampleRiskDouble 0) driftingCalls in
  let snapshot := fst (getExposure ledger 3) in
  let emptied :=
    fst (getExposure (run ledger [CallClose "m" NO None]) 3) in
  default [] (positions ledger !! "m"%string)
    = [{| marketId := "m"; outcome := NO; side := buy;
          sizeUsd := 0.2%float; entryPrice := 0%float; timestamp := 2 |}] /\
  openAfter driftingCalls = default [] (positions ledger !! "m"%string) /\
  openPositions snapshot = 1%nat /\
  sumSizeUsd (openAfter driftingCalls) = 0.2%float /\
  totalExposureUsd snapshot = 0.20000000000000004%float /\
  totalExposureUsd snapshot <> sumSizeUsd (openAfter driftingCalls) /\
  (totalExposureUsd snapshot =? sumSizeUsd (openAfter driftingCalls))%float
    = false /\
  openPositions emptied = 0%nat /\
  totalExposureUsd emptied = 2.7755575615628914e-17%float.
Proof.
  cbv zeta. do 5 (split; [by vm_compute|]).
  split; [|split; [by vm_compute|split; by vm_compute]].
  intros H.
  apply (f_equal (fun total => (total =? 0.2)%float)) in H.
  vm_compute in H. discriminate.
Qed.

End LedgerDouble.
